(** * NetCopy: checksum registry, sender and receiver

    A shallow embedding of the three programs of the repository

    - [Netcopy/checksum_srv.py]  the checksum registry service,
    - [netcopy_cli.py]           the sender,
    - [netcopy_srv.py]           the receiver,

    together with the Python builtins they rely on ([str.strip],
    [str.split], [int], [float] addition and comparison, UTF-8
    [encode]/[decode]).  Stateful code threads the store explicitly, code
    that can raise returns a [result], and code that talks to the file
    system or the network takes an oracle for the outside world and returns
    the trace of what it did. *)

From Stdlib Require Import ZArith NArith List Bool Lia ZifyBool String Ascii.
From Stdlib Require Import SpecFloat DecimalNat DecimalFacts.
From stdpp Require Import base option list gmap.
From Equations Require Import Equations.
Import ListNotations.

Set Default Proof Using "Type".

(** ** Python values *)

Module Py.

(** A [str] is a sequence of Unicode code points, [bytes] a sequence of
    octets. *)
Abbreviation str := (list N).
Abbreviation bytes := (list N).

(** Literals of the source are written as Rocq strings. *)
Definition lit (s : string) : list N :=
  List.map N_of_ascii (list_ascii_of_string s).

(** The exceptions that the modelled code paths can raise. *)
Inductive exn :=
| ValueError
| OverflowError
| UnicodeEncodeError
| UnicodeDecodeError
| FileNotFoundError
| IOError
| NameError (name : string).

(** [except ValueError] also catches the Unicode errors, which are its
    subclasses. *)
Definition is_ValueError (e : exn) : bool :=
  match e with
  | ValueError | UnicodeEncodeError | UnicodeDecodeError => true
  | _ => false
  end.

Inductive result (A : Type) :=
| Return (a : A)
| Raise (e : exn).
Arguments Return {A} a.
Arguments Raise {A} e.

Definition bind {A B} (r : result A) (k : A -> result B) : result B :=
  match r with
  | Return a => k a
  | Raise e => Raise e
  end.

(** *** Whitespace and [str.strip] *)

Local Open Scope N_scope.

(** [str.isspace] for one code point: the white-space table of the
    interpreter's Unicode database. *)
Definition isspace (c : N) : bool :=
  ((0x09 <=? c) && (c <=? 0x0D)) || ((0x1C <=? c) && (c <=? 0x20))
  || (c =? 0x85) || (c =? 0xA0) || (c =? 0x1680)
  || ((0x2000 <=? c) && (c <=? 0x200A))
  || (c =? 0x2028) || (c =? 0x2029) || (c =? 0x202F) || (c =? 0x205F)
  || (c =? 0x3000).

Fixpoint lstrip (s : str) : str :=
  match s with
  | c :: r => if isspace c then lstrip r else s
  | [] => []
  end.

Definition rstrip (s : str) : str := rev (lstrip (rev s)).

(** [s.strip()] *)
Definition strip (s : str) : str := rstrip (lstrip s).

(** *** [split] *)

(** [s.split(sep)] for a one-element separator: one more field than there
    are separators, so never the empty list. *)
Fixpoint split (sep : N) (s : list N) : list (list N) :=
  match s with
  | [] => [[]]
  | c :: r =>
    if c =? sep then [] :: split sep r
    else match split sep r with
         | f :: fs => (c :: f) :: fs
         | [] => [[c]]
         end
  end.

(** [s.split(sep, 1)]: split at the first separator only. *)
Fixpoint split1 (sep : N) (s : list N) : list (list N) :=
  match s with
  | [] => [[]]
  | c :: r =>
    if c =? sep then [[]; r]
    else match split1 sep r with
         | f :: fs => (c :: f) :: fs
         | [] => [[c]]
         end
  end.

(** [sep in s] *)
Definition contains (sep : N) (s : list N) : bool :=
  existsb (N.eqb sep) s.

(** *** [str(n)] for a length *)

Fixpoint uint_digits (u : Decimal.uint) : str :=
  match u with
  | Decimal.Nil => []
  | Decimal.D0 r => 48 :: uint_digits r
  | Decimal.D1 r => 49 :: uint_digits r
  | Decimal.D2 r => 50 :: uint_digits r
  | Decimal.D3 r => 51 :: uint_digits r
  | Decimal.D4 r => 52 :: uint_digits r
  | Decimal.D5 r => 53 :: uint_digits r
  | Decimal.D6 r => 54 :: uint_digits r
  | Decimal.D7 r => 55 :: uint_digits r
  | Decimal.D8 r => 56 :: uint_digits r
  | Decimal.D9 r => 57 :: uint_digits r
  end.

(** [str(n)] for [n >= 0], in decimal. *)
Definition str_of_nat (n : nat) : str := uint_digits (Nat.to_uint n).

(** [len(s)] *)
Definition len {A} (s : list A) : nat := List.length s.

(** *** [int(s)] *)

(** Code points of the decimal digit zero of every script (Unicode 14, the
    database of CPython 3.11); the nine code points after each are the
    digits one to nine. *)
Definition decimal_zeros : list N :=
  [0x30; 0x660; 0x6f0; 0x7c0; 0x966; 0x9e6; 0xa66; 0xae6; 0xb66; 0xbe6;
   0xc66; 0xce6; 0xd66; 0xde6; 0xe50; 0xed0; 0xf20; 0x1040; 0x1090; 0x17e0;
   0x1810; 0x1946; 0x19d0; 0x1a80; 0x1a90; 0x1b50; 0x1bb0; 0x1c40; 0x1c50;
   0xa620; 0xa8d0; 0xa900; 0xa9d0; 0xa9f0; 0xaa50; 0xabf0; 0xff10; 0x104a0;
   0x10d30; 0x11066; 0x110f0; 0x11136; 0x111d0; 0x112f0; 0x11450; 0x114d0;
   0x11650; 0x116c0; 0x11730; 0x118e0; 0x11950; 0x11c50; 0x11d50; 0x11da0;
   0x16a60; 0x16ac0; 0x16b50; 0x1d7ce; 0x1d7d8; 0x1d7e2; 0x1d7ec; 0x1d7f6;
   0x1e140; 0x1e2f0; 0x1e950; 0x1fbf0].

(** The decimal value of a code point, if it is a decimal digit. *)
Definition todecimal (c : N) : option N :=
  match List.find (fun z => (z <=? c) && (c <? z + 10)) decimal_zeros with
  | Some z => Some (c - z)
  | None => None
  end.

(** [int] first maps non-ASCII white space to a blank and non-ASCII
    decimal digits to ASCII ones; any other non-ASCII code point becomes
    [?], which no integer literal contains. *)
Definition to_ascii (c : N) : N :=
  if c <? 128 then c
  else if isspace c then 32
  else match todecimal c with
       | Some d => 48 + d
       | None => 63
       end.

(** The white space that the integer parser skips: the C locale's. *)
Definition c_isspace (c : N) : bool :=
  ((0x09 <=? c) && (c <=? 0x0D)) || (c =? 0x20).

Definition is_digit (c : N) : bool := (48 <=? c) && (c <=? 57).

Fixpoint skip_space (s : str) : str :=
  match s with
  | c :: r => if c_isspace c then skip_space r else s
  | [] => []
  end.

(** Digits with single underscores between them.  [scan_digits s acc n] is
    called where a digit must come next; it returns the value, the number
    of digits and the unread rest. *)
Fixpoint scan_digits (s : str) (acc : Z) (n : nat) : option (Z * nat * str) :=
  match s with
  | c :: r =>
    if is_digit c then
      let acc' := (10 * acc + Z.of_N (c - 48))%Z in
      match r with
      | d :: r' =>
        if is_digit d then scan_digits r acc' (S n)
        else if d =? 95 then
          match r' with
          | d' :: _ => if is_digit d' then scan_digits r' acc' (S n) else None
          | [] => None
          end
        else Some (acc', S n, r)
      | [] => Some (acc', S n, [])
      end
    else None
  | [] => None
  end.

(** [sys.get_int_max_str_digits()], the default. *)
Definition int_max_str_digits : nat := 4300.

(** [int(s)]: [None] stands for [ValueError]. *)
Definition int (s : str) : option Z :=
  let t := skip_space (List.map to_ascii s) in
  let '(neg, t) :=
    match t with
    | 43 :: r => (false, r)
    | 45 :: r => (true, r)
    | _ => (false, t)
    end in
  match scan_digits t 0%Z 0%nat with
  | Some (v, n, rest) =>
    match skip_space rest with
    | [] =>
      if (n <=? int_max_str_digits)%nat
      then Some (if neg then (- v)%Z else v)
      else None
    | _ :: _ => None
    end
  | None => None
  end.

(** *** UTF-8: [str.encode()] and [bytes.decode()] *)

(** One code point to its UTF-8 octets; surrogates and values above
    U+10FFFF have none. *)
Definition utf8_encode_char (c : N) : option bytes :=
  if c <? 0x80 then Some [c]
  else if c <? 0x800 then Some [0xC0 + c / 64; 0x80 + c mod 64]
  else if c <? 0x10000 then
    if (0xD800 <=? c) && (c <=? 0xDFFF) then None
    else Some [0xE0 + c / 4096; 0x80 + (c / 64) mod 64; 0x80 + c mod 64]
  else if c <? 0x110000 then
    Some [0xF0 + c / 262144; 0x80 + (c / 4096) mod 64;
          0x80 + (c / 64) mod 64; 0x80 + c mod 64]
  else None.

Fixpoint utf8_encode (s : str) : option bytes :=
  match s with
  | [] => Some []
  | c :: r =>
    match utf8_encode_char c, utf8_encode r with
    | Some a, Some b => Some (a ++ b)
    | _, _ => None
    end
  end.

(** Text proper: every code point is a Unicode scalar value.  This is
    what [bytes.decode] yields and what [str.encode] accepts. *)
Definition is_scalar (c : N) : bool :=
  (c <? 0xD800) || ((0xDFFF <? c) && (c <? 0x110000)).

Definition is_text (s : str) : bool := forallb is_scalar s.

(** [s.encode()] *)
Definition encode (s : str) : result bytes :=
  match utf8_encode s with
  | Some b => Return b
  | None => Raise UnicodeEncodeError
  end.

Definition is_cont (b : N) : bool := (0x80 <=? b) && (b <=? 0xBF).

(** The second octet of a three- or four-octet sequence is restricted
    further for some lead octets: no overlong forms, no surrogates, nothing
    above U+10FFFF. *)
Definition second_ok (b0 b1 : N) : bool :=
  if b0 =? 0xE0 then (0xA0 <=? b1) && (b1 <=? 0xBF)
  else if b0 =? 0xED then (0x80 <=? b1) && (b1 <=? 0x9F)
  else if b0 =? 0xF0 then (0x90 <=? b1) && (b1 <=? 0xBF)
  else if b0 =? 0xF4 then (0x80 <=? b1) && (b1 <=? 0x8F)
  else is_cont b1.

(** Strict UTF-8 decoding; [None] stands for [UnicodeDecodeError]. *)
Fixpoint utf8_decode (bs : bytes) : option str :=
  match bs with
  | [] => Some []
  | b0 :: r0 =>
    if b0 <? 0x80 then
      match utf8_decode r0 with Some s => Some (b0 :: s) | None => None end
    else if (0xC2 <=? b0) && (b0 <=? 0xDF) then
      match r0 with
      | b1 :: r1 =>
        if is_cont b1 then
          match utf8_decode r1 with
          | Some s => Some ((b0 - 0xC0) * 64 + (b1 - 0x80) :: s)
          | None => None
          end
        else None
      | _ => None
      end
    else if (0xE0 <=? b0) && (b0 <=? 0xEF) then
      match r0 with
      | b1 :: b2 :: r2 =>
        if second_ok b0 b1 && is_cont b2 then
          match utf8_decode r2 with
          | Some s =>
            Some ((b0 - 0xE0) * 4096 + (b1 - 0x80) * 64 + (b2 - 0x80) :: s)
          | None => None
          end
        else None
      | _ => None
      end
    else if (0xF0 <=? b0) && (b0 <=? 0xF4) then
      match r0 with
      | b1 :: b2 :: b3 :: r3 =>
        if second_ok b0 b1 && is_cont b2 && is_cont b3 then
          match utf8_decode r3 with
          | Some s =>
            Some ((b0 - 0xF0) * 262144 + (b1 - 0x80) * 4096
                  + (b2 - 0x80) * 64 + (b3 - 0x80) :: s)
          | None => None
          end
        else None
      | _ => None
      end
    else None
  end.

(** [b.decode()] *)
Definition decode (b : bytes) : result str :=
  match utf8_decode b with
  | Some s => Return s
  | None => Raise UnicodeDecodeError
  end.

(** *** [float] *)

(** A [float] is an IEEE 754 binary64 number: the values [valid_binary
    prec emax] accepts.  Nothing below depends on validity, so the
    statements range over all of [spec_float]. *)
Definition float := spec_float.
Definition prec : Z := 53.
Definition emax : Z := 1024.

(** [float(n)] for an [int]: rounds to nearest even, and raises
    [OverflowError] where the result would not be finite. *)
Definition float_of_int (n : Z) : result float :=
  match binary_normalize prec emax n 0 false with
  | S754_infinity _ => Raise OverflowError
  | S754_nan => Raise OverflowError
  | f => Return f
  end.

Definition float_add (x y : float) : float := SFadd prec emax x y.

(** [x + n] for a float [x] and an int [n]. *)
Definition float_add_int (x : float) (n : Z) : result float :=
  bind (float_of_int n) (fun y => Return (float_add x y)).

(** [x > y] *)
Definition float_gt (x y : float) : bool := SFltb y x.

(** [x < y] *)
Definition float_lt (x y : float) : bool := SFltb x y.

End Py.


(** ** The checksum registry: [Netcopy/checksum_srv.py] *)

Module ChecksumServer.
Import Py.

(** [ChecksumStore = Dict[str, Tuple[float, str]]]: file identifier to
    (expiry time, checksum). *)
Abbreviation ChecksumStore := (gmap str (float * str)).

Definition OK : bytes := lit "OK".
Definition ERR : bytes := lit "ERR".
Definition NOT_FOUND : bytes := lit "0|".

(** The separator [|] and the line terminator. *)
Definition BAR : N := 124%N.
Definition LF : N := 10%N.

(** [try: body  except ValueError: return handler] *)
Definition except_ValueError {S} (body : result bytes * S) (handler : bytes)
  : result bytes * S :=
  match body with
  | (Raise e, s) => if is_ValueError e then (Return handler, s) else body
  | _ => body
  end.

(** [_handle_store_command(parts)], where [now] is what [time.time()]
    returns.  The unpacking, [int(expiry)] and the float addition can each
    raise; the store is assigned to only after all three succeeded.
    Logging is left out throughout. *)
Definition _handle_store_command (now : float) (store : ChecksumStore)
    (parts : list str) : result bytes * ChecksumStore :=
  except_ValueError
    match parts with
    | [_; file_id; expiry; length; checksum] =>
      match int expiry with
      | Some ttl =>
        match float_add_int now ttl with
        | Return expiry_time =>
          (Return OK, <[file_id := (expiry_time, checksum)]> store)
        | Raise e => (Raise e, store)
        end
      | None => (Raise ValueError, store)
      end
    | _ => (Raise ValueError, store)
    end
    ERR.

(** [_handle_retrieve_command(parts)]; the clock is read only when an entry
    exists.  A stored tuple is never falsy, so [not entry] holds exactly
    when there is no entry. *)
Definition _handle_retrieve_command (now : float) (store : ChecksumStore)
    (parts : list str) : result bytes * ChecksumStore :=
  match parts with
  | [_; file_id] =>
    match store !! file_id with
    | None => (Return NOT_FOUND, store)
    | Some (expiry_time, checksum) =>
      if float_gt now expiry_time
      then (Return NOT_FOUND, delete file_id store)
      else (encode (str_of_nat (len checksum) ++ lit "|" ++ checksum), store)
    end
  | _ => (Raise ValueError, store)
  end.

(** [process_data(data)]: every exception of a handler becomes [ERR]. *)
Definition process_data (now : float) (store : ChecksumStore) (data : str)
  : bytes * ChecksumStore :=
  let parts := split BAR (strip data) in
  let body :=
    match parts with
    | [] => (Return ERR, store)
    | command :: _ =>
      if bool_decide (command = lit "BE") && bool_decide (len parts = 5%nat)
      then _handle_store_command now store parts
      else if bool_decide (command = lit "KI")
              && bool_decide (len parts = 2%nat)
      then _handle_retrieve_command now store parts
      else (Return ERR, store)
    end in
  match body with
  | (Return response, store') => (response, store')
  | (Raise _, store') => (ERR, store')
  end.

(** *** One connection of the multiplexer *)

(** What the outside world contributes while a chunk is handled: the clock
    reading for the [i]-th line of the chunk, and whether the [i]-th
    [sendall] goes through. *)
Record world := {
  clock : nat -> float;
  sendall_ok : nat -> bool
}.

(** A connection is open with its buffer of unprocessed octets
    ([self.connections[sock]]), or closed. *)
Inductive connection :=
| Open (buffer : bytes)
| Closed.

(** The loop [for line in lines[:-1]] of [_handle_client_data]: decode,
    process, send.  Returns the responses sent, the store, and whether the
    loop ran to its end ([false]: an exception left it). *)
Fixpoint process_lines (w : world) (i : nat) (store : ChecksumStore)
    (lines : list bytes) : list bytes * ChecksumStore * bool :=
  match lines with
  | [] => ([], store, true)
  | line :: rest =>
    match decode line with
    | Raise _ => ([], store, false)
    | Return data =>
      let '(response, store') := process_data (clock w i) store data in
      if sendall_ok w i then
        let '(sent, store'', ok) := process_lines w (S i) store' rest in
        (response :: sent, store'', ok)
      else ([], store', false)
    end
  end.

(** [_handle_client_data(sock)], where [recv] is the outcome of
    [sock.recv(DEFAULT_BUFFER_SIZE)].  Any exception ends in
    [_close_connection(sock)]. *)
Definition _handle_client_data (w : world) (store : ChecksumStore)
    (buffer : bytes) (recv : result bytes)
  : list bytes * connection * ChecksumStore :=
  match recv with
  | Raise _ => ([], Closed, store)
  | Return [] => ([], Closed, store)
  | Return data =>
    let buffer' := buffer ++ data in
    if contains LF buffer' then
      let lines := split LF buffer' in
      match process_lines w 0 store (removelast lines) with
      | (sent, store', true) => (sent, Open (List.last lines []), store')
      | (sent, store', false) => (sent, Closed, store')
      end
    else ([], Open buffer', store)
  end.

(** *** Vocabulary for the statements below *)

(** The response [<hash_len>|<hash>], for a hash given by its octets. *)
Definition found_response (hash_len : nat) (hash : bytes) : bytes :=
  str_of_nat hash_len ++ BAR :: hash.

(** A line whose first field is [BE] but which has the wrong number of
    fields, or whose [ttl_seconds] field is not an integer literal. *)
Definition is_malformed_BE (data : str) : bool :=
  match split BAR (strip data) with
  | command :: fields =>
    bool_decide (command = lit "BE")
    && match fields with
       | [_; expiry; _; _] =>
         match int expiry with Some _ => false | None => true end
       | _ => true
       end
  | [] => false
  end.

(** No stored checksum contains a line terminator. *)
Definition single_line_store (store : ChecksumStore) : Prop :=
  forall file_id expiry_time checksum,
    store !! file_id = Some (expiry_time, checksum) -> ~ In LF checksum.

(** The stores the service can be in: it starts empty and processes one
    line after the other, and a line has no line terminator in it. *)
Inductive reachable : ChecksumStore -> Prop :=
| reachable_start : reachable ∅
| reachable_step (now : float) (store : ChecksumStore) (data : str) :
    reachable store -> ~ In LF data ->
    reachable (snd (process_data now store data)).

(** A response of the protocol: [OK], [ERR] or [<int>|<string>]. *)
Definition is_response (r : bytes) : Prop :=
  r = OK \/ r = ERR \/ exists (n : nat) (s : bytes), r = found_response n s.

End ChecksumServer.

(** ** Hashing, files, sockets and traces *)

Module IO.
Import Py.

(** [hashlib]: an accumulator that is fed octets and gives a hex digest.
    Feeding it in pieces is the same as feeding it the concatenation. *)
Class HashAlgorithm := {
  hash_state : Type;
  hash_new : hash_state;
  hash_update : hash_state -> bytes -> hash_state;
  hash_hexdigest : hash_state -> str;
  hash_update_app : forall h a b,
    hash_update (hash_update h a) b = hash_update h (a ++ b);
  hash_update_nil : forall h, hash_update h [] = h
}.

(** A file opened for reading: its content, and the read call (counted
    from 0) at which the operating system reports an error, if any. *)
Record file := {
  content : bytes;
  read_error_at : option nat
}.

(** The sockets of the sender and of the receiver. *)
Inductive sock :=
| SrvSock      (* sender: connection to the receiver *)
| ChsumSock    (* sender or receiver: connection to the registry *)
| ListenSock   (* receiver: listening socket *)
| ConnSock.    (* receiver: accepted connection *)

Definition sock_eqb (a b : sock) : bool :=
  match a, b with
  | SrvSock, SrvSock | ChsumSock, ChsumSock
  | ListenSock, ListenSock | ConnSock, ConnSock => true
  | _, _ => false
  end.

(** What a run does, in order.  [Print] carries the text of the source's
    message with its placeholders as written. *)
Inductive event :=
| Exists (found : bool)
| OpenRead (ok : bool)
| Read (chunk : result bytes)
| CloseFile
| Update (chunk : bytes)
| HexDigest (digest : str)
| Connect (s : sock) (ok : bool)
| Listen (ok : bool)
| Accept (ok : bool)
| SendAll (s : sock) (data : bytes) (ok : bool)
| Recv (s : sock) (data : result bytes)
| Close (s : sock)
| OpenWrite (ok : bool)
| Write (chunk : bytes) (ok : bool)
| Print (text : string).

(** The successive non-empty results of [f.read(n)] on a regular file:
    [n] octets at a time, the last one shorter.  [f.read(0)] is empty at
    once. *)
Equations? chunks (n : nat) (l : bytes) : list bytes by wf (length l) lt :=
  chunks 0 _ := [];
  chunks (S n) [] := [];
  chunks (S n) (x :: l) := (x :: firstn n l) :: chunks (S n) (skipn n l).
Proof. simpl. rewrite length_skipn. lia. Qed.

(** [never_after p q t]: once an event satisfying [q] has happened in [t],
    no event satisfying [p] happens any more; that is, everything [p]
    comes before anything [q]. *)
Fixpoint never_after (p q : event -> bool) (t : list event) : bool :=
  match t with
  | [] => true
  | e :: t' => (if q e then forallb (fun e' => negb (p e')) t' else true)
               && never_after p q t'
  end.

(** Kinds of events: feeding or reading the hash accumulator; anything
    done on a given socket; a chunk of the file going out to the
    receiver. *)
Definition is_digest (e : event) : bool :=
  match e with
  | Update _ | HexDigest _ => true
  | _ => false
  end.

Definition on_sock (s : sock) (e : event) : bool :=
  match e with
  | Connect s' _ | SendAll s' _ _ | Recv s' _ | Close s' => sock_eqb s' s
  | _ => false
  end.

Definition is_stream (e : event) : bool :=
  match e with
  | SendAll SrvSock _ _ => true
  | _ => false
  end.

(** No event of the kind [p] happens in [t]. *)
Definition quiet (p : event -> bool) (t : list event) : bool :=
  forallb (fun e => negb (p e)) t.

(** Everything sent on a socket, in order. *)
Fixpoint sent_on (s : sock) (t : list event) : bytes :=
  match t with
  | [] => []
  | SendAll s' data true :: t' =>
    if sock_eqb s' s then data ++ sent_on s t' else sent_on s t'
  | _ :: t' => sent_on s t'
  end.

Section Hashing.
Context {md5 : HashAlgorithm}.

(** The loop of [calculate_md5]
    [while True: chunk = f.read(CHUNK_SIZE); if not chunk: break;
    md5_hash.update(chunk)], at its [k]-th read with [cs] still to come. *)
Fixpoint md5_loop (f : file) (k : nat) (cs : list bytes) (h : hash_state)
  : result hash_state * list event :=
  if bool_decide (read_error_at f = Some k) then
    (Raise IOError, [Read (Raise IOError)])
  else
    match cs with
    | [] => (Return h, [Read (Return [])])
    | c :: cs' =>
      let '(r, t) := md5_loop f (S k) cs' (hash_update h c) in
      (r, Read (Return c) :: Update c :: t)
    end.

(** [calculate_md5(file_path)] of both [netcopy_cli.py] and
    [netcopy_srv.py] (the two are the same text), for a chunk size
    [chunk_size]; [found] is [os.path.exists(file_path)] and [opened] the
    outcome of [open(file_path, 'rb')]. *)
Definition calculate_md5_chunked (chunk_size : nat) (found : bool)
    (opened : result file) : result str * list event :=
  if negb found then (Raise FileNotFoundError, [Exists false])
  else
    match opened with
    | Raise _ => (Raise IOError, [Exists true; OpenRead false])
    | Return f =>
      match md5_loop f 0 (chunks chunk_size (content f)) hash_new with
      | (Return h, t) =>
        (Return (hash_hexdigest h),
         [Exists true; OpenRead true] ++ t
         ++ [CloseFile; HexDigest (hash_hexdigest h)])
      | (Raise _, t) =>
        (Raise IOError, [Exists true; OpenRead true] ++ t ++ [CloseFile])
      end
    end.

End Hashing.
End IO.

(** ** The sender: [netcopy_cli.py] *)

Module FileTransferClient.
Import Py IO.

Definition CHUNK_SIZE : nat := 4096.
Definition CHECKSUM_EXPIRY : nat := 60.

(** The outside world of one sender run. *)
Record world := {
  path_exists : bool;               (* os.path.exists(file_path) *)
  hash_open : result file;          (* open() in calculate_md5 *)
  send_open : result file;          (* open() in send_file *)
  srv_connect_ok : bool;
  srv_sendall_ok : nat -> bool;     (* the i-th sendall of a chunk *)
  chsum_connect_ok : bool;
  chsum_sendall_ok : bool;
  chsum_recv : result bytes         (* sock.recv(1024) *)
}.

Section Client.
Context {md5 : HashAlgorithm}.

Definition calculate_md5 (w : world) : result str * list event :=
  calculate_md5_chunked CHUNK_SIZE (path_exists w) (hash_open w).

(** The loop of [send_file], at its [k]-th read. *)
Fixpoint send_loop (w : world) (f : file) (k : nat) (cs : list bytes)
  : bool * list event :=
  if bool_decide (read_error_at f = Some k) then
    (false, [Read (Raise IOError)])
  else
    match cs with
    | [] => (true, [Read (Return [])])
    | c :: cs' =>
      if srv_sendall_ok w k then
        let '(ok, t) := send_loop w f (S k) cs' in
        (ok, Read (Return c) :: SendAll SrvSock c true :: t)
      else (false, [Read (Return c); SendAll SrvSock c false])
    end.

(** [send_file(file_path)].  Leaving the [with] block closes the socket,
    also when an exception leaves it; [return True] comes after the
    block. *)
Definition send_file (w : world) : bool * list event :=
  if negb (srv_connect_ok w) then
    (false, [Connect SrvSock false; Close SrvSock;
             Print "Error sending file: {e}"])
  else
    match send_open w with
    | Raise _ =>
      (false, [Connect SrvSock true; OpenRead false; Close SrvSock;
               Print "Error sending file: {e}"])
    | Return f =>
      match send_loop w f 0 (chunks CHUNK_SIZE (content f)) with
      | (true, t) =>
        (true, [Connect SrvSock true; OpenRead true] ++ t
               ++ [CloseFile; Close SrvSock])
      | (false, t) =>
        (false, [Connect SrvSock true; OpenRead true] ++ t
                ++ [CloseFile; Close SrvSock;
                    Print "Error sending file: {e}"])
      end
    end.

(** [f"BE|{file_id}|{CHECKSUM_EXPIRY}|{len(checksum)}|{checksum}\n"] *)
Definition store_message (file_id checksum : str) : str :=
  lit "BE|" ++ file_id ++ lit "|" ++ str_of_nat CHECKSUM_EXPIRY ++ lit "|"
  ++ str_of_nat (len checksum) ++ lit "|" ++ checksum ++ [10%N].

(** [send_checksum(file_id, checksum)] *)
Definition send_checksum (w : world) (file_id checksum : str)
  : bool * list event :=
  let failed t :=
    (false, t ++ [Close ChsumSock; Print "Error sending checksum: {e}"]) in
  if negb (chsum_connect_ok w) then failed [Connect ChsumSock false]
  else
    match encode (store_message file_id checksum) with
    | Raise _ => failed [Connect ChsumSock true]
    | Return msg =>
      if negb (chsum_sendall_ok w) then
        failed [Connect ChsumSock true; SendAll ChsumSock msg false]
      else
        match chsum_recv w with
        | Raise e =>
          failed [Connect ChsumSock true; SendAll ChsumSock msg true;
                  Recv ChsumSock (Raise e)]
        | Return response =>
          if bool_decide (response = lit "OK") then
            (true, [Connect ChsumSock true; SendAll ChsumSock msg true;
                    Recv ChsumSock (Return response); Close ChsumSock])
          else
            (false, [Connect ChsumSock true; SendAll ChsumSock msg true;
                     Recv ChsumSock (Return response);
                     Print "Warning: Unexpected checksum server response: {response}";
                     Close ChsumSock])
        end
    end.

(** [transfer_file(file_id, file_path)] *)
Definition transfer_file (w : world) (file_id : str) : bool * list event :=
  match calculate_md5 w with
  | (Raise _, t1) => (false, t1 ++ [Print "Error transferring file: {e}"])
  | (Return checksum, t1) =>
    match send_file w with
    | (false, t2) => (false, t1 ++ t2)
    | (true, t2) =>
      match send_checksum w file_id checksum with
      | (false, t3) => (false, t1 ++ t2 ++ t3)
      | (true, t3) =>
        (true, t1 ++ t2 ++ t3
               ++ [Print "File {file_path} transferred successfully with ID {file_id}"])
      end
    end
  end.

End Client.
End FileTransferClient.

(** ** The receiver: [netcopy_srv.py]

    The functions are modelled as they are written, that is, as they would
    run once the class is defined; [Loading] below looks at whether it
    is. *)

Module FileTransferServer.
Import Py IO.

Definition CHUNK_SIZE : nat := 4096.

(** The outside world of one receiver run. *)
Record world := {
  listen_ok : bool;                 (* bind and listen *)
  accept_ok : bool;
  out_open_ok : bool;               (* open(out_file, 'wb') *)
  incoming : list bytes;            (* successive results of conn.recv *)
  recv_error_at : option nat;       (* the recv call that raises, if any *)
  write_ok : nat -> bool;           (* the i-th f.write *)
  on_disk : bytes -> bool * result file;
    (* what is found at out_file afterwards, given what was written:
       os.path.exists and open(out_file, 'rb') *)
  chsum_connect_ok : bool;
  chsum_sendall_ok : bool;
  chsum_recv : result bytes         (* sock.recv(1024) *)
}.

Section Server.
Context {md5 : HashAlgorithm}.

Definition calculate_md5 (found : bool) (opened : result file)
  : result str * list event :=
  calculate_md5_chunked CHUNK_SIZE found opened.

(** The loop of [receive_file], at its [k]-th [recv], with [written] on
    disk so far.  A zero-length read, or the end of what the peer sent,
    ends it. *)
Fixpoint recv_loop (w : world) (k : nat) (cs : list bytes) (written : bytes)
  : bool * bytes * list event :=
  if bool_decide (recv_error_at w = Some k) then
    (false, written, [Recv ConnSock (Raise IOError)])
  else
    match cs with
    | [] => (true, written, [Recv ConnSock (Return [])])
    | [] :: _ => (true, written, [Recv ConnSock (Return [])])
    | c :: cs' =>
      if write_ok w k then
        let '(ok, written', t) := recv_loop w (S k) cs' (written ++ c) in
        (ok, written', Recv ConnSock (Return c) :: Write c true :: t)
      else (false, written, [Recv ConnSock (Return c); Write c false])
    end.

(** [receive_file(out_file)]: the verdict, the octets written, the
    trace. *)
Definition receive_file (w : world) : bool * bytes * list event :=
  let failed t := (false, [], t ++ [Print "Error receiving file: {e}"]) in
  if negb (listen_ok w) then failed [Listen false; Close ListenSock]
  else if negb (accept_ok w) then
    failed [Listen true; Accept false; Close ListenSock]
  else if negb (out_open_ok w) then
    failed [Listen true; Accept true; Print "Connection from {addr}";
            OpenWrite false; Close ConnSock; Close ListenSock]
  else
    let '(ok, written, t) := recv_loop w 0 (incoming w) [] in
    let t' := [Listen true; Accept true; Print "Connection from {addr}";
               OpenWrite true] ++ t
              ++ [CloseFile; Close ConnSock; Close ListenSock] in
    if ok then (true, written, t')
    else (false, written, t' ++ [Print "Error receiving file: {e}"]).

(** [f"KI|{file_id}\n"] *)
Definition retrieve_message (file_id : str) : str :=
  lit "KI|" ++ file_id ++ [10%N].

(** The part of [get_checksum] after the [with] block: reading the
    registry's answer. *)
Definition parse_response (data : str) : option str * list event :=
  if negb (contains 124%N data) then
    (None, [Print "Invalid checksum server response: {data}"])
  else
    match split1 124%N data with
    | [length_str; checksum] =>
      match int length_str with
      | None =>
        (None, [Print "Invalid length in checksum response: {length_str}"])
      | Some length =>
        if (0 <? length)%Z then (Some checksum, [])
        else (None, [Print "Checksum not found or expired"])
      end
    | _ => (None, [Print "Invalid checksum server response format: {data}"])
    end.

(** [get_checksum(file_id)] *)
Definition get_checksum (w : world) (file_id : str)
  : option str * list event :=
  let failed t :=
    (None, t ++ [Close ChsumSock; Print "Error retrieving checksum: {e}"]) in
  if negb (chsum_connect_ok w) then failed [Connect ChsumSock false]
  else
    match encode (retrieve_message file_id) with
    | Raise _ => failed [Connect ChsumSock true]
    | Return msg =>
      if negb (chsum_sendall_ok w) then
        failed [Connect ChsumSock true; SendAll ChsumSock msg false]
      else
        match chsum_recv w with
        | Raise e =>
          failed [Connect ChsumSock true; SendAll ChsumSock msg true;
                  Recv ChsumSock (Raise e)]
        | Return response =>
          match decode response with
          | Raise _ =>
            failed [Connect ChsumSock true; SendAll ChsumSock msg true;
                    Recv ChsumSock (Return response)]
          | Return data =>
            let '(r, t) := parse_response data in
            (r, [Connect ChsumSock true; SendAll ChsumSock msg true;
                 Recv ChsumSock (Return response); Close ChsumSock] ++ t)
          end
        end
    end.

(** [receive_and_validate(file_id, out_file)] *)
Definition receive_and_validate (w : world) (file_id : str)
  : bool * list event :=
  match receive_file w with
  | (false, _, t1) => (false, t1)
  | (true, written, t1) =>
    match get_checksum w file_id with
    | (None, t2) =>
      (false, t1 ++ t2 ++ [Print "Could not retrieve expected checksum"])
    | (Some expected_checksum, t2) =>
      let '(found, opened) := on_disk w written in
      match calculate_md5 found opened with
      | (Raise _, t3) =>
        (false, t1 ++ t2 ++ t3 ++ [Print "Error in receive_and_validate: {e}"])
      | (Return actual_checksum, t3) =>
        if bool_decide (expected_checksum = actual_checksum)
        then (true, t1 ++ t2 ++ t3 ++ [Print "CSUM OK"])
        else (false, t1 ++ t2 ++ t3 ++ [Print "CSUM CORRUPTED"])
      end
    end
  end.

End Server.
End FileTransferServer.

(** ** Loading the modules

    What executing a module's top level binds.  An [import] binds names,
    an assignment evaluates its right-hand side and binds its target, a
    [def] evaluates the annotations of its signature when it is executed
    (no module of the repository has [from __future__ import
    annotations]) and binds its name, a [class] executes its body in a
    namespace of its own and binds its name.  A name that is bound neither
    there, nor in the module, nor among the builtins raises [NameError]. *)

Module Loading.
Import Py.
Local Open Scope string_scope.

(** An expression matters here only for the names it looks up, so it is
    given by them, in evaluation order: [Optional[str]] looks up
    [Optional], then [str]; a literal looks up nothing. *)
Definition expr := list string.

Inductive stmt :=
| Import (name : string)
| ImportFrom (module : string) (names : list string)
| Assign (target : string) (value : expr)
| FunctionDef (name : string) (annotations : list expr)
| ClassDef (name : string) (methods : list (string * list expr)).

(** The builtin names that annotations of the repository can refer to: the
    builtin functions and types. *)
Definition builtins : list string :=
  ["abs"; "aiter"; "all"; "anext"; "any"; "ascii"; "bin"; "bool";
   "breakpoint"; "bytearray"; "bytes"; "callable"; "chr"; "classmethod";
   "compile"; "complex"; "delattr"; "dict"; "dir"; "divmod"; "enumerate";
   "eval"; "exec"; "filter"; "float"; "format"; "frozenset"; "getattr";
   "globals"; "hasattr"; "hash"; "help"; "hex"; "id"; "input"; "int";
   "isinstance"; "issubclass"; "iter"; "len"; "list"; "locals"; "map";
   "max"; "memoryview"; "min"; "next"; "object"; "oct"; "open"; "ord";
   "pow"; "print"; "property"; "range"; "repr"; "reversed"; "round"; "set";
   "setattr"; "slice"; "sorted"; "staticmethod"; "str"; "sum"; "super";
   "tuple"; "type"; "vars"; "zip"; "__import__"].

Definition bound (id : string) (scopes : list (list string)) : bool :=
  existsb (existsb (String.eqb id)) scopes.

Fixpoint eval (scopes : list (list string)) (e : expr) : result unit :=
  match e with
  | [] => Return tt
  | id :: e' =>
    if bound id scopes then eval scopes e' else Raise (NameError id)
  end.

Fixpoint eval_all (scopes : list (list string)) (es : list expr)
  : result unit :=
  match es with
  | [] => Return tt
  | e :: es' => bind (eval scopes e) (fun _ => eval_all scopes es')
  end.

(** The body of a class: each [def] evaluates its annotations, then binds
    its name in the class namespace [cl]. *)
Fixpoint exec_class (outer : list (list string)) (cl : list string)
    (methods : list (string * list expr)) : result (list string) :=
  match methods with
  | [] => Return cl
  | (name, annotations) :: rest =>
    bind (eval_all (cl :: outer) annotations)
         (fun _ => exec_class outer (name :: cl) rest)
  end.

(** [exec globals body]: run the statements of a module's top level, with
    [globals] bound so far.  Returns the module's namespace. *)
Fixpoint exec (globals : list string) (body : list stmt)
  : result (list string) :=
  match body with
  | [] => Return globals
  | st :: rest =>
    bind
      match st with
      | Import name => Return (name :: globals)
      | ImportFrom _ names => Return (rev names ++ globals)%list
      | Assign target value =>
        bind (eval [globals; builtins] value)
             (fun _ => Return (target :: globals))
      | FunctionDef name annotations =>
        bind (eval_all [globals; builtins] annotations)
             (fun _ => Return (name :: globals))
      | ClassDef name methods =>
        bind (exec_class [globals; builtins] [] methods)
             (fun _ => Return (name :: globals))
      end
      (fun globals' => exec globals' rest)
  end.

(** Importing (or running) a module: its top level, from an empty
    namespace. *)
Definition load (m : list stmt) : result (list string) := exec [] m.

(** The top level of [netcopy_srv.py], up to the definition of [main];
    the [if __name__ == "__main__"] block that follows only looks up names
    bound by then. *)
Definition netcopy_srv : list stmt :=
  [Import "socket"; Import "hashlib"; Import "sys"; Import "os";
   Assign "CHUNK_SIZE" [];
   Assign "RECEIVE_TIMEOUT" [];
   ClassDef "FileTransferServer"
     [("__init__", [["str"]; ["int"]; ["str"]; ["int"]]);
      ("calculate_md5", [["str"]; ["str"]]);
      ("receive_file", [["str"]; ["bool"]]);
      ("get_checksum", [["str"]; ["Optional"; "str"]]);
      ("receive_and_validate", [["str"]; ["str"]; ["bool"]])];
   FunctionDef "main" []].

(** The top level of [netcopy_cli.py]. *)
Definition netcopy_cli : list stmt :=
  [Import "socket"; Import "hashlib"; Import "sys"; Import "os";
   ImportFrom "pathlib" ["Path"];
   Assign "CHUNK_SIZE" [];
   Assign "CHECKSUM_EXPIRY" [];
   ClassDef "FileTransferClient"
     [("__init__", [["str"]; ["int"]; ["str"]; ["int"]]);
      ("calculate_md5", [["str"]; ["str"]]);
      ("send_file", [["str"]; ["bool"]]);
      ("send_checksum", [["str"]; ["str"]; ["bool"]]);
      ("transfer_file", [["str"]; ["str"]; ["bool"]])];
   FunctionDef "main" []].

(** The top level of [Netcopy/checksum_srv.py]. *)
Definition checksum_srv : list stmt :=
  [Import "socket"; Import "select"; Import "time"; Import "sys";
   Import "logging";
   ImportFrom "typing" ["Dict"; "Tuple"; "Optional"];
   Assign "DEFAULT_BUFFER_SIZE" [];
   Assign "SELECT_TIMEOUT" [];
   Assign "ChecksumStore"
     ["Dict"; "str"; "Tuple"; "float"; "str"];
   ClassDef "ChecksumServer"
     [("__init__", [["str"]; ["int"]]);
      ("process_data", [["str"]; ["bytes"]]);
      ("_handle_store_command", [["list"]; ["bytes"]]);
      ("_handle_retrieve_command", [["list"]; ["bytes"]]);
      ("start", []);
      ("_run_server_loop", []);
      ("_handle_new_connection", []);
      ("_handle_client_data", []);
      ("_close_connection", []);
      ("_cleanup", [])];
   FunctionDef "main" []].

End Loading.

(** ** The multiplexer: the server's sockets and buffers

    [ChecksumServer._handle_client_data] above is one connection seen by
    itself.  Here is the state the methods share: [self.checksums_store],
    [self.socket], [self.inputs] and [self.connections].  Sockets are
    numbered. *)

Module Multiplexer.
Import Py ChecksumServer.

Record server := {
  checksums_store : ChecksumStore;
  socket : nat;                       (* self.socket, the listening one *)
  inputs : list nat;                  (* self.inputs *)
  connections : gmap nat bytes        (* self.connections *)
}.

(** The state once [start] has bound the listening socket. *)
Definition started (listening : nat) : server :=
  {| checksums_store := ∅; socket := listening;
     inputs := [listening]; connections := ∅ |}.

(** [_handle_new_connection()], where [accepted] is the outcome of
    [self.socket.accept()]: an exception is logged and nothing changes. *)
Definition _handle_new_connection (srv : server) (accepted : result nat)
  : server :=
  match accepted with
  | Return conn =>
    {| checksums_store := checksums_store srv; socket := socket srv;
       inputs := inputs srv ++ [conn];
       connections := <[conn := []]> (connections srv) |}
  | Raise _ => srv
  end.

(** [l.remove(x)]: without the first [x]; [None] stands for the
    [ValueError] of an [x] that is not there. *)
Fixpoint list_remove (x : nat) (l : list nat) : option (list nat) :=
  match l with
  | [] => None
  | y :: l' =>
    if (y =? x)%nat then Some l'
    else match list_remove x l' with
         | Some r => Some (y :: r)
         | None => None
         end
  end.

(** [_close_connection(sock)]: when [self.inputs.remove(sock)] raises, the
    exception is logged and the two statements after it are not run. *)
Definition _close_connection (srv : server) (sock : nat) : server :=
  match list_remove sock (inputs srv) with
  | Some inputs' =>
    {| checksums_store := checksums_store srv; socket := socket srv;
       inputs := inputs';
       connections := delete sock (connections srv) |}
  | None => srv
  end.

Definition with_store (srv : server) (store : ChecksumStore) : server :=
  {| checksums_store := store; socket := socket srv;
     inputs := inputs srv; connections := connections srv |}.

Definition with_buffer (srv : server) (sock : nat) (buffer : bytes) : server :=
  {| checksums_store := checksums_store srv; socket := socket srv;
     inputs := inputs srv;
     connections := <[sock := buffer]> (connections srv) |}.

(** [_handle_client_data(sock)] on the server's state.  A socket without
    an entry in [self.connections] raises [KeyError] at [+=]; an exception
    in the loop over the lines comes after the buffer has been extended.
    Returns what was sent on [sock] and the new state. *)
Definition _handle_client_data (w : world) (srv : server) (sock : nat)
    (recv : result bytes) : list bytes * server :=
  match recv with
  | Return ((_ :: _) as data) =>
    match connections srv !! sock with
    | None => ([], _close_connection srv sock)
    | Some buffer =>
      match ChecksumServer._handle_client_data
              w (checksums_store srv) buffer recv with
      | (sent, Open buffer', store') =>
        (sent, with_buffer (with_store srv store') sock buffer')
      | (sent, Closed, store') =>
        (sent,
         _close_connection
           (with_buffer (with_store srv store') sock (buffer ++ data)) sock)
      end
    end
  | _ => ([], _close_connection srv sock)
  end.

(** What the outside world holds for a socket that [select] reports
    readable. *)
Record outside := {
  accepted : result nat;       (* self.socket.accept() *)
  conn_world : world;
  received : result bytes      (* sock.recv(DEFAULT_BUFFER_SIZE) *)
}.

(** The body of the loop [for sock in readable] of [_run_server_loop]. *)
Definition serve_one (srv : server) (sock : nat) (o : outside)
  : list bytes * server :=
  if (sock =? socket srv)%nat
  then ([], _handle_new_connection srv (accepted o))
  else _handle_client_data (conn_world o) srv sock (received o).

(** One turn of [_run_server_loop]: the sockets [select] returned, in
    order.  Returns what was sent, tagged with the socket. *)
Fixpoint serve (srv : server) (readable : list (nat * outside))
  : list (nat * bytes) * server :=
  match readable with
  | [] => ([], srv)
  | (sock, o) :: rest =>
    let '(sent, srv') := serve_one srv sock o in
    let '(sent', srv'') := serve srv' rest in
    (List.map (pair sock) sent ++ sent', srv'')
  end.

(** The listening socket and the clients are in [self.inputs], each once;
    the clients, and only they, have a buffer. *)
Definition consistent (srv : server) : Prop :=
  List.NoDup (inputs srv)
  /\ In (socket srv) (inputs srv)
  /\ forall s, is_Some (connections srv !! s) <->
               In s (inputs srv) /\ s <> socket srv.

End Multiplexer.

(** ** More vocabulary for traces *)

Module Lifecycle.
Import Py IO.

(** How many events of a kind a trace has. *)
Definition count (p : event -> bool) (t : list event) : nat :=
  length (List.filter p t).

Definition is_connect (s : sock) (e : event) : bool :=
  match e with
  | Connect s' _ => sock_eqb s' s
  | _ => false
  end.

Definition is_close (s : sock) (e : event) : bool :=
  match e with
  | Close s' => sock_eqb s' s
  | _ => false
  end.

Definition is_open_file (e : event) : bool :=
  match e with
  | OpenRead true | OpenWrite true => true
  | _ => false
  end.

Definition is_close_file (e : event) : bool :=
  match e with
  | CloseFile => true
  | _ => false
  end.

(** Any use of the network. *)
Definition is_network (e : event) : bool :=
  match e with
  | Connect _ _ | Listen _ | Accept _ | SendAll _ _ _ | Recv _ _ | Close _ =>
    true
  | _ => false
  end.

(** The chunks handed to the hash accumulator, in order. *)
Fixpoint updates (t : list event) : list bytes :=
  match t with
  | [] => []
  | Update c :: t' => c :: updates t'
  | _ :: t' => updates t'
  end.

(** One more decimal digit [c] after the value [a]. *)
Definition digit_step (a : Z) (c : N) : Z := (10 * a + Z.of_N (c - 48))%Z.

(** What [receive_file] has read when the peer closes: the chunks before
    the first zero-length one. *)
Fixpoint before_close (cs : list bytes) : list bytes :=
  match cs with
  | [] => []
  | [] :: _ => []
  | c :: cs' => c :: before_close cs'
  end.

(** A socket comes into being: by [connect] for the two client sockets,
    by the [socket()] that [Listen] stands for, by a successful
    [accept]. *)
Definition is_acquire (s : sock) (e : event) : bool :=
  match e with
  | Connect s' _ => sock_eqb s' s
  | Listen _ => sock_eqb ListenSock s
  | Accept true => sock_eqb ConnSock s
  | _ => false
  end.

(** Nothing is left open: every socket is closed as often as it came
    into being, and files are closed as often as they were opened. *)
Definition balanced (t : list event) : Prop :=
  (forall s, count (is_close s) t = count (is_acquire s) t)
  /\ count is_close_file t = count is_open_file t.

(** A plain word: printable ASCII without blank and without bar, as a
    hexadecimal digest is. *)
Definition plain (s : str) : bool :=
  forallb (fun c => (33 <=? c) && (c <? 127) && negb (c =? 124))%N s.

(** [s] has no white space at its end, so that [rstrip] keeps it whole. *)
Definition no_trailing_space (s : str) : Prop :=
  forall s' c, s = s' ++ [c] -> isspace c = false.

End Lifecycle.

(** ** Sample data for the examples *)

Module Samples.
Import Py IO.

(** A clock reading, 1700000000.0, and the same a minute later. *)
Definition t0 : float :=
  Eval vm_compute in binary_normalize prec emax 1700000000 0 false.
Definition t60 : float :=
  Eval vm_compute in binary_normalize prec emax 1700000060 0 false.

(** Sixty seconds, as a float. *)
Definition d60 : float :=
  Eval vm_compute in binary_normalize prec emax 60 0 false.

(** The integer literal of 10^309, too large for a float. *)
Definition huge_ttl : str := 49%N :: repeat 48%N 309.

(** A stand-in for MD5 that is easy to run: the accumulator keeps what it
    was fed, the digest is the sum of the octets in decimal. *)
Definition sum_hash : HashAlgorithm := {|
  hash_state := bytes;
  hash_new := [];
  hash_update := fun h b => h ++ b;
  hash_hexdigest := fun h => str_of_nat (N.to_nat (fold_right N.add 0%N h));
  hash_update_app := fun h a b => eq_sym (app_assoc h a b);
  hash_update_nil := fun h => app_nil_r h
|}.

Definition hello : file :=
  {| content := lit "hello world"; read_error_at := None |}.

(** A sender run in which everything goes well. *)
Definition sender_ok : FileTransferClient.world := {|
  FileTransferClient.path_exists := true;
  FileTransferClient.hash_open := Return hello;
  FileTransferClient.send_open := Return hello;
  FileTransferClient.srv_connect_ok := true;
  FileTransferClient.srv_sendall_ok := fun _ => true;
  FileTransferClient.chsum_connect_ok := true;
  FileTransferClient.chsum_sendall_ok := true;
  FileTransferClient.chsum_recv := Return (lit "OK")
|}.

(** A sender run in which the receiver cannot be reached. *)
Definition sender_refused : FileTransferClient.world := {|
  FileTransferClient.path_exists := true;
  FileTransferClient.hash_open := Return hello;
  FileTransferClient.send_open := Return hello;
  FileTransferClient.srv_connect_ok := false;
  FileTransferClient.srv_sendall_ok := fun _ => true;
  FileTransferClient.chsum_connect_ok := true;
  FileTransferClient.chsum_sendall_ok := true;
  FileTransferClient.chsum_recv := Return (lit "OK")
|}.

(** Receiver runs: the file arrives in two pieces and is read back as
    written; what differs is the registry's answer, or whether the
    listening socket can be bound at all. *)
Definition receiver_run (listening : bool) (answer : bytes)
  : FileTransferServer.world := {|
  FileTransferServer.listen_ok := listening;
  FileTransferServer.accept_ok := true;
  FileTransferServer.out_open_ok := true;
  FileTransferServer.incoming := [lit "hello "; lit "world"];
  FileTransferServer.recv_error_at := None;
  FileTransferServer.write_ok := fun _ => true;
  FileTransferServer.on_disk :=
    fun written => (true, Return {| content := written; read_error_at := None |});
  FileTransferServer.chsum_connect_ok := true;
  FileTransferServer.chsum_sendall_ok := true;
  FileTransferServer.chsum_recv := Return answer
|}.

(** The same run with a registry that cannot be reached. *)
Definition receiver_registry_down : FileTransferServer.world := {|
  FileTransferServer.listen_ok := true;
  FileTransferServer.accept_ok := true;
  FileTransferServer.out_open_ok := true;
  FileTransferServer.incoming := [lit "hello "; lit "world"];
  FileTransferServer.recv_error_at := None;
  FileTransferServer.write_ok := fun _ => true;
  FileTransferServer.on_disk :=
    fun written => (true, Return {| content := written; read_error_at := None |});
  FileTransferServer.chsum_connect_ok := false;
  FileTransferServer.chsum_sendall_ok := true;
  FileTransferServer.chsum_recv := Return (lit "4|1116")
|}.

Definition receiver_unavailable := receiver_run true (lit "0|").
Definition receiver_corrupted := receiver_run true (lit "4|9999").
Definition receiver_io_failure := receiver_run false (lit "4|1116").
Definition receiver_valid := receiver_run true (lit "4|1116").

(** A registry connection on which every send goes through. *)
Definition registry_world : ChecksumServer.world := {|
  ChecksumServer.clock := fun _ => t0;
  ChecksumServer.sendall_ok := fun _ => true
|}.

End Samples.

(** * Properties *)

Import Py.

(** ** The builtins *)

Section PyFacts.
Local Open Scope N_scope.

Lemma float_gt_irrefl (x : float) : float_gt x x = false.
Proof.
  unfold float_gt, SFltb.
  destruct x as [s | s | | s m e]; simpl; try reflexivity.
  - destruct s; reflexivity.
  - rewrite Z.compare_refl, Pos.compare_cont_refl. destruct s; reflexivity.
Qed.

Lemma float_lt_not_gt (x y : float) : float_lt x y = true -> float_gt x y = false.
Proof.
  unfold float_lt, float_gt, SFltb.
  destruct x as [s1 | s1 | | s1 m1 e1], y as [s2 | s2 | | s2 m2 e2]; simpl;
    try reflexivity; try discriminate;
    try (destruct s1; try destruct s2; simpl; congruence);
    try (destruct s2; simpl; congruence).
  destruct s1, s2; simpl; try congruence;
    rewrite (Z.compare_antisym e1 e2);
    destruct (e1 ?= e2)%Z eqn:E; simpl; try congruence;
    pose proof (Pos.compare_cont_antisym m1 m2 Eq) as HH; simpl in HH;
    rewrite <- HH;
    destruct (Pos.compare_cont Eq m1 m2); simpl; congruence.
Qed.

Local Ltac Zify.zify_post_hook ::= Z.to_euclidean_division_equations.

Lemma utf8_encode_char_decode c bs rest :
  utf8_encode_char c = Some bs ->
  utf8_decode (bs ++ rest) =
  match utf8_decode rest with Some s => Some (c :: s) | None => None end.
Proof.
  unfold utf8_encode_char.
  destruct (c <? 0x80) eqn:H1.
  { intros [= <-]. simpl. rewrite H1. reflexivity. }
  destruct (c <? 0x800) eqn:H2.
  { intros [= <-]. cbn [app utf8_decode].
    assert (Ha : (0xC0 + c / 64 <? 0x80) = false) by lia.
    assert (Hb : ((0xC2 <=? 0xC0 + c / 64) && (0xC0 + c / 64 <=? 0xDF)) = true) by lia.
    assert (Hc : is_cont (0x80 + c mod 64) = true) by (unfold is_cont; lia).
    rewrite Ha, Hb, Hc.
    replace ((0xC0 + c / 64 - 0xC0) * 64 + (0x80 + c mod 64 - 0x80)) with c by lia.
    reflexivity. }
  destruct (c <? 0x10000) eqn:H3.
  { destruct ((0xD800 <=? c) && (c <=? 0xDFFF)) eqn:H4; [discriminate|].
    intros [= <-]. cbn [app utf8_decode].
    set (b0 := 0xE0 + c / 4096). set (b1 := 0x80 + (c / 64) mod 64). set (b2 := 0x80 + c mod 64).
    assert (Ha : (b0 <? 0x80) = false) by (subst b0; lia).
    assert (Hb : ((0xC2 <=? b0) && (b0 <=? 0xDF)) = false) by (subst b0; lia).
    assert (Hc : ((0xE0 <=? b0) && (b0 <=? 0xEF)) = true) by (subst b0; lia).
    assert (Hd : second_ok b0 b1 = true).
    { unfold second_ok, is_cont. subst b0 b1.
      destruct (0xE0 + c / 4096 =? 0xE0) eqn:E1; [lia|].
      destruct (0xE0 + c / 4096 =? 0xED) eqn:E2; [lia|].
      destruct (0xE0 + c / 4096 =? 0xF0) eqn:E3; [lia|].
      destruct (0xE0 + c / 4096 =? 0xF4) eqn:E4; lia. }
    assert (He : is_cont b2 = true) by (unfold is_cont; subst b2; lia).
    rewrite Ha, Hb, Hc, Hd, He. simpl andb. cbv iota.
    replace ((b0 - 0xE0) * 4096 + (b1 - 0x80) * 64 + (b2 - 0x80)) with c by (subst b0 b1 b2; lia).
    reflexivity. }
  destruct (c <? 0x110000) eqn:H4; [|discriminate].
  intros [= <-]. cbn [app utf8_decode].
  set (b0 := 0xF0 + c / 262144). set (b1 := 0x80 + (c / 4096) mod 64).
  set (b2 := 0x80 + (c / 64) mod 64). set (b3 := 0x80 + c mod 64).
  assert (Ha : (b0 <? 0x80) = false) by (subst b0; lia).
  assert (Hb : ((0xC2 <=? b0) && (b0 <=? 0xDF)) = false) by (subst b0; lia).
  assert (Hc : ((0xE0 <=? b0) && (b0 <=? 0xEF)) = false) by (subst b0; lia).
  assert (Hc' : ((0xF0 <=? b0) && (b0 <=? 0xF4)) = true) by (subst b0; lia).
  assert (Hd : second_ok b0 b1 = true).
  { unfold second_ok, is_cont. subst b0 b1.
    destruct (0xF0 + c / 262144 =? 0xE0) eqn:E1; [lia|].
    destruct (0xF0 + c / 262144 =? 0xED) eqn:E2; [lia|].
    destruct (0xF0 + c / 262144 =? 0xF0) eqn:E3; [lia|].
    destruct (0xF0 + c / 262144 =? 0xF4) eqn:E4; lia. }
  assert (He : is_cont b2 = true) by (unfold is_cont; subst b2; lia).
  assert (Hf : is_cont b3 = true) by (unfold is_cont; subst b3; lia).
  rewrite Ha, Hb, Hc, Hc', Hd, He, Hf. simpl andb. cbv iota.
  replace ((b0 - 0xF0) * 262144 + (b1 - 0x80) * 4096 + (b2 - 0x80) * 64 + (b3 - 0x80)) with c
    by (subst b0 b1 b2 b3; lia).
  reflexivity.
Qed.


Lemma utf8_roundtrip s b : utf8_encode s = Some b -> utf8_decode b = Some s.
Proof.
  revert b; induction s as [|c s IH]; simpl; intros b.
  - intros [= <-]. reflexivity.
  - destruct (utf8_encode_char c) eqn:Hc; [|discriminate].
    destruct (utf8_encode s) eqn:Hs; [|discriminate]. intros [= <-].
    rewrite (utf8_encode_char_decode _ _ _ Hc), (IH _ eq_refl). reflexivity.
Qed.

Lemma utf8_encode_inj s1 s2 b :
  utf8_encode s1 = Some b -> utf8_encode s2 = Some b -> s1 = s2.
Proof.
  intros H1 H2. apply utf8_roundtrip in H1, H2. congruence.
Qed.

Lemma utf8_encode_app a b :
  utf8_encode (a ++ b) =
  match utf8_encode a, utf8_encode b with
  | Some x, Some y => Some (x ++ y)
  | _, _ => None
  end.
Proof.
  induction a as [|c a IH]; simpl.
  - destruct (utf8_encode b); reflexivity.
  - rewrite IH.
    destruct (utf8_encode_char c), (utf8_encode a), (utf8_encode b);
      simpl; try reflexivity.
    rewrite app_assoc. reflexivity.
Qed.

Lemma utf8_encode_ascii s : Forall (fun c => c < 128) s -> utf8_encode s = Some s.
Proof.
  induction 1 as [|c s Hc _ IH]; simpl; [reflexivity|].
  unfold utf8_encode_char. replace (c <? 128) with true by lia.
  rewrite IH. reflexivity.
Qed.

Lemma is_scalar_encode c : is_scalar c = true -> exists b, utf8_encode_char c = Some b.
Proof.
  unfold is_scalar, utf8_encode_char. intros H.
  destruct (c <? 128); [eauto|]. destruct (c <? 2048); [eauto|].
  destruct (c <? 65536) eqn:E.
  - replace ((55296 <=? c) && (c <=? 57343)) with false by lia. eauto.
  - replace (c <? 1114112) with true by lia. eauto.
Qed.

Lemma is_text_encode s : is_text s = true -> exists b, utf8_encode s = Some b.
Proof.
  induction s as [|c s IH]; simpl; [eauto|].
  rewrite andb_true_iff. intros [Hc Hs].
  destruct (is_scalar_encode c Hc) as [bc ->], (IH Hs) as [bs ->]. eauto.
Qed.

(** An ASCII octet occurs in an encoding exactly where that character
    occurs in the text. *)
Lemma utf8_encode_char_ascii x c bs :
  x < 128 -> utf8_encode_char c = Some bs -> In x bs -> c = x.
Proof.
  unfold utf8_encode_char. intros Hx.
  destruct (c <? 128). { intros [= <-] [->|[]]. reflexivity. }
  destruct (c <? 2048). { intros [= <-]. simpl. lia. }
  destruct (c <? 65536).
  { destruct ((55296 <=? c) && (c <=? 57343)); [discriminate|].
    intros [= <-]. simpl. lia. }
  destruct (c <? 1114112); [|discriminate]. intros [= <-]. simpl. lia.
Qed.

Lemma utf8_encode_In x s b :
  x < 128 -> utf8_encode s = Some b -> In x b -> In x s.
Proof.
  intros Hx. revert b. induction s as [|c s IH]; simpl; intros b.
  - intros [= <-]. tauto.
  - destruct (utf8_encode_char c) eqn:Hc; [|discriminate].
    destruct (utf8_encode s) eqn:Hs; [|discriminate]. intros [= <-].
    rewrite in_app_iff. intros [H|H].
    + left. eapply utf8_encode_char_ascii; eauto.
    + right. eauto.
Qed.

Lemma utf8_decode_encode b : forall s, utf8_decode b = Some s -> utf8_encode s = Some b.
Proof.
  remember (length b) as n eqn:Hn. revert b Hn.
  induction n as [n IH] using lt_wf_ind. intros b Hn s.
  destruct b as [|b0 r0]; simpl. { intros [= <-]. reflexivity. }
  destruct (b0 <? 128) eqn:H1.
  { destruct (utf8_decode r0) as [s0|] eqn:Hd; [|discriminate]. intros [= <-].
    simpl. unfold utf8_encode_char. rewrite H1.
    erewrite (IH (length r0)); eauto. subst n. simpl. lia. }
  destruct ((194 <=? b0) && (b0 <=? 223)) eqn:H2.
  { destruct r0 as [|b1 r1]; [discriminate|].
    unfold is_cont. destruct ((128 <=? b1) && (b1 <=? 191)) eqn:Hb1; [|discriminate].
    destruct (utf8_decode r1) as [s0|] eqn:Hd; [|discriminate]. intros [= <-].
    simpl. erewrite (IH (length r1)); eauto; [|subst n; simpl; lia].
    unfold utf8_encode_char.
    set (c := (b0 - 192) * 64 + (b1 - 128)).
    replace (c <? 128) with false by (subst c; lia).
    replace (c <? 2048) with true by (subst c; lia).
    replace (192 + c / 64) with b0 by (subst c; lia).
    replace (128 + c mod 64) with b1 by (subst c; lia).
    reflexivity. }
  destruct ((224 <=? b0) && (b0 <=? 239)) eqn:H3.
  { destruct r0 as [|b1 [|b2 r2]]; try discriminate.
    destruct (second_ok b0 b1 && is_cont b2) eqn:Hc; [|discriminate].
    destruct (utf8_decode r2) as [s0|] eqn:Hd; [|discriminate]. intros [= <-].
    simpl. erewrite (IH (length r2)); eauto; [|subst n; simpl; lia].
    apply andb_true_iff in Hc as [Hs Hc2].
    unfold second_ok, is_cont in *.
    set (c := (b0 - 224) * 4096 + (b1 - 128) * 64 + (b2 - 128)).
    assert (Hr : 128 <= b2 <= 191 /\
                 (b0 = 224 /\ 160 <= b1 <= 191 \/
                  b0 = 237 /\ 128 <= b1 <= 159 \/
                  b0 <> 224 /\ b0 <> 237 /\ 128 <= b1 <= 191)).
    { destruct (b0 =? 224) eqn:E1; [lia|]. destruct (b0 =? 237) eqn:E2; [lia|].
      destruct (b0 =? 240) eqn:E3; [lia|]. destruct (b0 =? 244) eqn:E4; lia. }
    unfold utf8_encode_char.
    replace (c <? 128) with false by (subst c; lia).
    replace (c <? 2048) with false by (subst c; lia).
    replace (c <? 65536) with true by (subst c; lia).
    replace ((55296 <=? c) && (c <=? 57343)) with false by (subst c; lia).
    replace (224 + c / 4096) with b0 by (subst c; lia).
    replace (128 + (c / 64) mod 64) with b1 by (subst c; lia).
    replace (128 + c mod 64) with b2 by (subst c; lia).
    reflexivity. }
  destruct ((240 <=? b0) && (b0 <=? 244)) eqn:H4; [|discriminate].
  destruct r0 as [|b1 [|b2 [|b3 r3]]]; try discriminate.
  destruct (second_ok b0 b1 && is_cont b2 && is_cont b3) eqn:Hc; [|discriminate].
  destruct (utf8_decode r3) as [s0|] eqn:Hd; [|discriminate]. intros [= <-].
  simpl. erewrite (IH (length r3)); eauto; [|subst n; simpl; lia].
  apply andb_true_iff in Hc as [Hc Hc3]. apply andb_true_iff in Hc as [Hs Hc2].
  unfold second_ok, is_cont in *.
  set (c := (b0 - 240) * 262144 + (b1 - 128) * 4096 + (b2 - 128) * 64 + (b3 - 128)).
  assert (Hr : 128 <= b2 <= 191 /\ 128 <= b3 <= 191 /\
               (b0 = 240 /\ 144 <= b1 <= 191 \/
                b0 = 244 /\ 128 <= b1 <= 143 \/
                b0 <> 240 /\ b0 <> 244 /\ 128 <= b1 <= 191)).
  { destruct (b0 =? 224) eqn:E1; [lia|]. destruct (b0 =? 237) eqn:E2; [lia|].
    destruct (b0 =? 240) eqn:E3; [lia|]. destruct (b0 =? 244) eqn:E4; lia. }
  unfold utf8_encode_char.
  replace (c <? 128) with false by (subst c; lia).
  replace (c <? 2048) with false by (subst c; lia).
  replace (c <? 65536) with false by (subst c; lia).
  replace (c <? 1114112) with true by (subst c; lia).
  replace (240 + c / 262144) with b0 by (subst c; lia).
  replace (128 + (c / 4096) mod 64) with b1 by (subst c; lia).
  replace (128 + (c / 64) mod 64) with b2 by (subst c; lia).
  replace (128 + c mod 64) with b3 by (subst c; lia).
  reflexivity.
Qed.


Lemma utf8_encode_In_ascii x s b :
  x < 128 -> utf8_encode s = Some b -> In x s -> In x b.
Proof.
  intros Hx. revert b. induction s as [|c s IH]; simpl; intros b; [tauto|].
  destruct (utf8_encode_char c) eqn:Hc; [|discriminate].
  destruct (utf8_encode s) eqn:Hs; [|discriminate]. intros [= <-].
  rewrite in_app_iff. intros [->|H]; [left|right; eauto].
  unfold utf8_encode_char in Hc. replace (x <? 128) with true in Hc by lia.
  injection Hc as <-. simpl. tauto.
Qed.

Lemma utf8_decode_In x b s :
  x < 128 -> utf8_decode b = Some s -> In x s -> In x b.
Proof.
  intros Hx Hd. apply utf8_decode_encode in Hd. eauto using utf8_encode_In_ascii.
Qed.

Lemma uint_digits_In x u : In x (uint_digits u) -> 48 <= x <= 57.
Proof.
  induction u; simpl; try tauto; intros [<-|H]; auto; lia.
Qed.

Lemma str_of_nat_In x n : In x (str_of_nat n) -> 48 <= x <= 57.
Proof. apply uint_digits_In. Qed.

Lemma str_of_nat_ascii n : Forall (fun c => c < 128) (str_of_nat n).
Proof.
  apply List.Forall_forall. intros x Hx. apply str_of_nat_In in Hx. lia.
Qed.

(** Splitting at the first occurrence of [x] is unambiguous. *)
Lemma app_cons_inj {A} (x : A) l1 l2 r1 r2 :
  ~ In x l1 -> ~ In x l2 -> l1 ++ x :: r1 = l2 ++ x :: r2 -> l1 = l2 /\ r1 = r2.
Proof.
  revert l2. induction l1 as [|a l1 IH]; intros [|b l2]; simpl; intros H1 H2 E.
  - injection E as ->. tauto.
  - injection E as <- _. tauto.
  - injection E as -> _. tauto.
  - injection E as -> E. destruct (IH l2) as [-> ->]; tauto.
Qed.

Lemma split_notin sep l : ~ In sep l -> split sep l = [l].
Proof.
  induction l as [|c l IH]; simpl; [reflexivity|]. intros H.
  destruct (N.eqb_spec c sep); [tauto|]. rewrite IH by tauto. reflexivity.
Qed.

Lemma split_app sep l1 l2 :
  ~ In sep l1 -> split sep (l1 ++ sep :: l2) = l1 :: split sep l2.
Proof.
  induction l1 as [|c l1 IH]; simpl; intros H.
  - rewrite N.eqb_refl. reflexivity.
  - destruct (N.eqb_spec c sep); [tauto|]. rewrite IH by tauto. reflexivity.
Qed.

Lemma split_nonempty sep l : split sep l <> [].
Proof.
  destruct l as [|c l]; simpl; [discriminate|].
  destruct (c =? sep); [discriminate|]. destruct (split sep l); discriminate.
Qed.

Lemma split_In sep l f x : In f (split sep l) -> In x f -> In x l.
Proof.
  revert f. induction l as [|c l IH]; simpl; intros f.
  - intros [<-|[]] [].
  - destruct (c =? sep).
    + intros [<-|H] Hx; [destruct Hx|]. right. eauto.
    + destruct (split sep l) as [|g gs] eqn:E.
      * intros [<-|[]] [->|[]]. tauto.
      * intros [<-|H] Hx.
        -- destruct Hx as [->|Hx]; [tauto|]. right. apply (IH g); simpl; tauto.
        -- right. apply (IH f); simpl; tauto.
Qed.

Lemma contains_In sep l : contains sep l = true <-> In sep l.
Proof.
  unfold contains. rewrite existsb_exists. split.
  - intros (x & Hx & E). apply N.eqb_eq in E. congruence.
  - intros H. exists sep. split; [assumption|apply N.eqb_refl].
Qed.

Lemma lstrip_In x s : In x (lstrip s) -> In x s.
Proof.
  induction s as [|c s IH]; simpl; [tauto|].
  destruct (isspace c); simpl; tauto.
Qed.

Lemma strip_In x s : In x (strip s) -> In x s.
Proof.
  unfold strip, rstrip. intros H. apply in_rev, lstrip_In, in_rev, lstrip_In in H.
  exact H.
Qed.

End PyFacts.

(** ** The registry *)

Section RegistryFacts.
Import ChecksumServer.
Local Open Scope N_scope.

Lemma encode_found_response n checksum cb :
  utf8_encode checksum = Some cb ->
  encode (str_of_nat n ++ lit "|" ++ checksum) = Return (found_response n cb).
Proof.
  intros H. unfold encode, found_response.
  rewrite utf8_encode_app, (utf8_encode_ascii _ (str_of_nat_ascii n)).
  change (lit "|" ++ checksum) with (BAR :: checksum).
  simpl. rewrite H. reflexivity.
Qed.

Lemma found_response_inj n1 n2 h1 h2 :
  found_response n1 h1 = found_response n2 h2 -> h1 = h2.
Proof.
  unfold found_response. intros E.
  apply app_cons_inj in E; [tauto| |];
    intros H; apply str_of_nat_In in H; unfold BAR in H; lia.
Qed.

Lemma float_of_int_error n e : float_of_int n = Raise e -> e = OverflowError.
Proof.
  unfold float_of_int. destruct (binary_normalize _ _ _ _ _); congruence.
Qed.

Lemma handle_store_ok now store kw file_id expiry length checksum ttl d :
  int expiry = Some ttl -> float_of_int ttl = Return d ->
  _handle_store_command now store [kw; file_id; expiry; length; checksum] =
  (Return OK, <[file_id := (float_add now d, checksum)]> store).
Proof.
  intros Hi Hf. unfold _handle_store_command, float_add_int.
  rewrite Hi, Hf. reflexivity.
Qed.

Lemma handle_store_not_int now store kw file_id expiry length checksum :
  int expiry = None ->
  _handle_store_command now store [kw; file_id; expiry; length; checksum] =
  (Return ERR, store).
Proof.
  intros Hi. unfold _handle_store_command. rewrite Hi. reflexivity.
Qed.

Lemma handle_store_overflow now store kw file_id expiry length checksum ttl e :
  int expiry = Some ttl -> float_of_int ttl = Raise e ->
  _handle_store_command now store [kw; file_id; expiry; length; checksum] =
  (Raise OverflowError, store).
Proof.
  intros Hi Hf. pose proof (float_of_int_error _ _ Hf) as ->.
  unfold _handle_store_command, float_add_int. rewrite Hi, Hf. reflexivity.
Qed.

Lemma handle_retrieve_missing (now : float) (store : ChecksumStore) kw (file_id : str) :
  store !! file_id = None ->
  _handle_retrieve_command now store [kw; file_id] = (Return NOT_FOUND, store).
Proof. intros H. unfold _handle_retrieve_command. rewrite H. reflexivity. Qed.

Lemma handle_retrieve_expired (now : float) (store : ChecksumStore) kw (file_id : str) t checksum :
  store !! file_id = Some (t, checksum) -> float_gt now t = true ->
  _handle_retrieve_command now store [kw; file_id] =
  (Return NOT_FOUND, delete file_id store).
Proof.
  intros H Hg. unfold _handle_retrieve_command. rewrite H, Hg. reflexivity.
Qed.

Lemma handle_retrieve_live (now : float) (store : ChecksumStore) kw (file_id : str) t checksum cb :
  store !! file_id = Some (t, checksum) -> float_gt now t = false ->
  utf8_encode checksum = Some cb ->
  _handle_retrieve_command now store [kw; file_id] =
  (Return (found_response (len checksum) cb), store).
Proof.
  intros H Hg Hc. unfold _handle_retrieve_command. rewrite H, Hg.
  rewrite (encode_found_response _ _ _ Hc). reflexivity.
Qed.


Lemma NOT_FOUND_found : NOT_FOUND = found_response 0 [].
Proof. reflexivity. Qed.

Lemma found_response_LF n cb : ~ In LF cb -> ~ In LF (found_response n cb).
Proof.
  unfold found_response. intros H Hin. apply in_app_iff in Hin as [Hin|[Hin|Hin]].
  - apply str_of_nat_In in Hin. unfold LF in Hin. lia.
  - discriminate.
  - tauto.
Qed.

(** What a store command can do: it answers [OK] and binds one key to a
    checksum that is one of the fields, or it leaves the store alone. *)
Lemma handle_store_effect (now : float) (store : ChecksumStore) parts r store' :
  _handle_store_command now store parts = (r, store') ->
  (r = Return OK /\ exists file_id t checksum,
      In checksum parts /\ store' = <[file_id := (t, checksum)]> store)
  \/ ((r = Return ERR \/ exists e, r = Raise e) /\ store' = store).
Proof.
  unfold _handle_store_command.
  destruct parts as [|kw [|file_id [|expiry [|length [|checksum [|x r']]]]]];
    simpl; try (intros [= <- <-]; right; eauto).
  destruct (int expiry) as [ttl|]; simpl; [|intros [= <- <-]; right; eauto].
  destruct (float_add_int now ttl) as [t|e] eqn:Ha; simpl.
  - intros [= <- <-]. left. split; [reflexivity|].
    exists file_id, t, checksum. simpl. tauto.
  - destruct (is_ValueError e); intros [= <- <-]; right; eauto.
Qed.

(** What a retrieve command can do. *)
Lemma handle_retrieve_effect (now : float) (store : ChecksumStore) parts r store' :
  _handle_retrieve_command now store parts = (r, store') ->
  single_line_store store ->
  (store' = store \/ exists file_id : str, store' = delete file_id store)
  /\ ((exists e, r = Raise e)
      \/ exists n cb, r = Return (found_response n cb) /\ ~ In LF cb).
Proof.
  unfold _handle_retrieve_command. intros H Hs.
  destruct parts as [|kw [|file_id [|x r']]];
    try (injection H as <- <-; split; eauto).
  destruct (store !! file_id) as [[t checksum]|] eqn:Hl.
  - destruct (float_gt now t).
    + injection H as <- <-. split; [eauto|]. right. exists 0%nat, []. auto.
    + unfold encode in H.
      destruct (utf8_encode (str_of_nat (len checksum) ++ lit "|" ++ checksum))
        as [b|] eqn:He; injection H as <- <-; split; eauto.
      right. rewrite utf8_encode_app, (utf8_encode_ascii _ (str_of_nat_ascii _)) in He.
      change (lit "|" ++ checksum) with (BAR :: checksum) in He. simpl in He.
      destruct (utf8_encode checksum) as [cb|] eqn:Hc; [|discriminate].
      injection He as <-. exists (len checksum), cb. split; [reflexivity|].
      intros Hin. apply (Hs _ _ _ Hl).
      eapply utf8_encode_In; eauto. unfold LF. lia.
  - injection H as <- <-. split; [eauto|]. right. exists 0%nat, []. auto.
Qed.

Lemma single_line_insert (store : ChecksumStore) (file_id : str) t checksum :
  single_line_store store -> ~ In LF checksum ->
  single_line_store (<[file_id := (t, checksum)]> store).
Proof.
  intros Hs Hc k t' c'. destruct (decide (file_id = k)) as [->|Hne].
  - rewrite lookup_insert_eq. intros [= <- <-]. exact Hc.
  - rewrite lookup_insert_ne by assumption. apply Hs.
Qed.

Lemma single_line_delete (store : ChecksumStore) (file_id : str) :
  single_line_store store -> single_line_store (delete file_id store).
Proof.
  intros Hs k t' c' Hl. apply lookup_delete_Some in Hl as [_ Hl]. eauto.
Qed.

Lemma single_line_empty : single_line_store ∅.
Proof. intros k t c. rewrite lookup_empty. discriminate. Qed.

(** [process_data] on a line of text without a line terminator. *)
Lemma process_data_text (now : float) (store : ChecksumStore) data :
  ~ In LF data -> single_line_store store ->
  is_response (fst (process_data now store data))
  /\ fst (process_data now store data) <> []
  /\ ~ In LF (fst (process_data now store data))
  /\ single_line_store (snd (process_data now store data)).
Proof.
  intros Hd Hs.
  assert (Hok : is_response OK /\ OK <> [] /\ ~ In LF OK).
  { unfold is_response. split; [auto|]. split; [discriminate|].
    unfold OK, LF. simpl. intuition discriminate. }
  assert (Herr : is_response ERR /\ ERR <> [] /\ ~ In LF ERR).
  { unfold is_response. split; [auto|]. split; [discriminate|].
    unfold ERR, LF. simpl. intuition discriminate. }
  assert (Hfields : forall f, In f (split BAR (strip data)) -> ~ In LF f).
  { intros f Hf Hin. apply Hd. eapply strip_In, split_In; eauto. }
  unfold process_data.
  destruct (split BAR (strip data)) as [|command rest] eqn:Hp;
    cbn [fst snd]; [tauto|].
  destruct (bool_decide (command = lit "BE")
            && bool_decide (len (command :: rest) = 5%nat)).
  { destruct (_handle_store_command now store (command :: rest)) as [r store'] eqn:H.
    apply handle_store_effect in H
      as [[-> (k & t & c & Hc & ->)]|[[->|[e ->]] ->]]; cbn [fst snd]; try tauto.
    repeat split; try tauto. apply single_line_insert; auto. }
  destruct (bool_decide (command = lit "KI")
            && bool_decide (len (command :: rest) = 2%nat)); [|cbn [fst snd]; tauto].
  destruct (_handle_retrieve_command now store (command :: rest)) as [r store'] eqn:H.
  apply handle_retrieve_effect in H as [Hst Hr]; [|assumption].
  assert (Hs' : single_line_store store').
  { destruct Hst as [->|[k ->]]; auto using single_line_delete. }
  destruct Hr as [[e ->]|(n & cb & -> & Hcb)]; cbn [fst snd]; [tauto|].
  split; [unfold is_response; eauto|]. split.
  - unfold found_response. destruct (str_of_nat n); discriminate.
  - split; [apply found_response_LF; assumption|assumption].
Qed.

(** A store command that is not an integer literal, or an arity that is
    wrong, is answered [ERR] and changes nothing. *)
Lemma process_data_malformed_BE (now : float) (store : ChecksumStore) data :
  is_malformed_BE data = true -> process_data now store data = (ERR, store).
Proof.
  unfold is_malformed_BE, process_data.
  destruct (split BAR (strip data)) as [|command rest]; [discriminate|].
  rewrite andb_true_iff. intros [Hc Hm]. rewrite Hc. simpl andb.
  destruct rest as [|file_id [|expiry [|length [|checksum [|x r]]]]];
    try reflexivity.
  - simpl. apply bool_decide_eq_true in Hc as ->. reflexivity.
  - simpl. apply bool_decide_eq_true in Hc as ->. reflexivity.
  - simpl. apply bool_decide_eq_true in Hc as ->. reflexivity.
  - simpl. apply bool_decide_eq_true in Hc as ->. simpl. reflexivity.
  - destruct (int expiry) eqn:Hi; [discriminate|].
    simpl. rewrite handle_store_not_int by assumption. reflexivity.
  - simpl. apply bool_decide_eq_true in Hc as ->. reflexivity.
Qed.

(** One complete line arriving on a connection whose buffer holds the
    beginning of it (or nothing): it is decoded, processed and answered,
    and the connection stays open with an empty buffer. *)
Lemma handle_client_data_line (w : world) (store : ChecksumStore)
    buffer chunk line data :
  chunk <> [] -> buffer ++ chunk = line ++ [LF] -> ~ In LF line ->
  utf8_decode line = Some data -> sendall_ok w 0 = true ->
  _handle_client_data w store buffer (Return chunk) =
  ([fst (process_data (clock w 0) store data)], Open [],
   snd (process_data (clock w 0) store data)).
Proof.
  intros Hne Hb Hl Hd Hsend. unfold _handle_client_data.
  destruct chunk as [|c chunk]; [congruence|]. rewrite Hb.
  assert (Hc : contains LF (line ++ [LF]) = true).
  { apply contains_In, in_app_iff. simpl. auto. }
  rewrite Hc, split_app by assumption. simpl split. simpl removelast.
  simpl process_lines. unfold decode. rewrite Hd.
  destruct (process_data (clock w 0) store data) as [r store'].
  rewrite Hsend. reflexivity.
Qed.

Lemma handle_client_data_undecodable (w : world) (store : ChecksumStore)
    buffer chunk line :
  chunk <> [] -> buffer ++ chunk = line ++ [LF] -> ~ In LF line ->
  utf8_decode line = None ->
  _handle_client_data w store buffer (Return chunk) = ([], Closed, store).
Proof.
  intros Hne Hb Hl Hd. unfold _handle_client_data.
  destruct chunk as [|c chunk]; [congruence|]. rewrite Hb.
  assert (Hc : contains LF (line ++ [LF]) = true).
  { apply contains_In, in_app_iff. simpl. auto. }
  rewrite Hc, split_app by assumption. simpl split. simpl removelast.
  simpl process_lines. unfold decode. rewrite Hd. reflexivity.
Qed.

End RegistryFacts.

Section RegistryClaims.
Import ChecksumServer Samples.
Local Open Scope N_scope.

Lemma reachable_single_line store : reachable store -> single_line_store store.
Proof.
  induction 1 as [|now store data _ IH Hd].
  - apply single_line_empty.
  - apply process_data_text; assumption.
Qed.

(** C1, as amended.  A store command whose TTL field is an integer that
    fits in a float, followed by a retrieve command for the same file
    identifier before the expiry instant [now + ttl]: the store answers
    [OK], and the retrieve answers [<hash_len>|<hash>] with the hash that
    was stored (which is text) and its length. *)
Theorem store_then_retrieve (now now' : float) (store : ChecksumStore)
    (kw kw' file_id expiry length checksum : str) (ttl : Z) (d : float) :
  int expiry = Some ttl ->
  float_of_int ttl = Return d ->
  is_text checksum = true ->
  float_lt now' (float_add now d) = true ->
  let store' := <[file_id := (float_add now d, checksum)]> store in
  _handle_store_command now store [kw; file_id; expiry; length; checksum]
  = (Return OK, store')
  /\ exists cb, utf8_encode checksum = Some cb
     /\ _handle_retrieve_command now' store' [kw'; file_id]
        = (Return (found_response (len checksum) cb), store').
Proof.
  intros Hi Hf Ht Hlt store'. split.
  - eapply handle_store_ok; eassumption.
  - destruct (is_text_encode _ Ht) as [cb Hcb]. exists cb. split; [assumption|].
    apply handle_retrieve_live with (t := float_add now d); try assumption.
    + apply lookup_insert_eq.
    + apply float_lt_not_gt. assumption.
Qed.

Lemma store_then_retrieve_witness :
  (int (lit "60") = Some 60%Z /\ float_of_int 60 = Return d60
   /\ is_text (lit "abc") = true /\ float_lt t0 (float_add t0 d60) = true)
  /\ (let store' := <[lit "f1" := (float_add t0 d60, lit "abc")]> ∅ in
      _handle_store_command t0 ∅ [lit "BE"; lit "f1"; lit "60"; lit "3"; lit "abc"]
      = (Return OK, store')
      /\ exists cb, utf8_encode (lit "abc") = Some cb
         /\ _handle_retrieve_command t0 store' [lit "KI"; lit "f1"]
            = (Return (found_response (len (lit "abc")) cb), store')).
Proof.
  split.
  - repeat split; vm_compute; reflexivity.
  - apply (store_then_retrieve t0 t0 ∅ (lit "BE") (lit "KI") (lit "f1")
             (lit "60") (lit "3") (lit "abc") 60%Z d60);
      vm_compute; reflexivity.
Defined.

(** C1 as stated fails for a TTL too large for a float: the addition
    [time.time() + int(expiry)] raises [OverflowError], the command is
    answered [ERR], nothing is stored, and the lookup that follows at once
    finds nothing.  It also fails for a hash that is not text: the stored
    hash cannot be encoded into a response. *)
Lemma store_then_retrieve_counterexample :
  let put := lit "BE|f1|" ++ huge_ttl ++ lit "|3|abc" in
  let surrogate := [lit "BE"; lit "f1"; lit "60"; lit "1"; [0xD800]] in
  (int huge_ttl = Some (10 ^ 309)%Z
   /\ (0 < 10 ^ 309)%Z
   /\ _handle_store_command t0 ∅ [lit "BE"; lit "f1"; huge_ttl; lit "3"; lit "abc"]
      = (Raise OverflowError, ∅)
   /\ process_data t0 ∅ put = (ERR, ∅)
   /\ process_data t0 (snd (process_data t0 ∅ put)) (lit "KI|f1")
      = (NOT_FOUND, ∅)
   /\ NOT_FOUND <> found_response 3 (lit "abc"))
  /\ (fst (_handle_store_command t0 ∅ surrogate) = Return OK
      /\ fst (_handle_retrieve_command t0
                (snd (_handle_store_command t0 ∅ surrogate))
                [lit "KI"; lit "f1"])
         = Raise UnicodeEncodeError).
Proof. repeat split; try (vm_compute; reflexivity). discriminate. Qed.

(** C6, as amended.  Two store commands for the same file identifier, with
    a TTL field that fits in a float, then a retrieve command before the
    second entry expires: both stores answer [OK], and the retrieve
    answers with the second hash (which is text); when the two hashes
    differ, that answer is not the one the first hash would give. *)
Theorem last_write_wins (now1 now2 now' : float) (store : ChecksumStore)
    (kw1 kw2 kw' file_id expiry length1 length2 h1 h2 : str)
    (ttl : Z) (d : float) :
  int expiry = Some ttl ->
  float_of_int ttl = Return d ->
  is_text h2 = true ->
  float_lt now' (float_add now2 d) = true ->
  let store1 := <[file_id := (float_add now1 d, h1)]> store in
  let store2 := <[file_id := (float_add now2 d, h2)]> store1 in
  _handle_store_command now1 store [kw1; file_id; expiry; length1; h1]
  = (Return OK, store1)
  /\ _handle_store_command now2 store1 [kw2; file_id; expiry; length2; h2]
     = (Return OK, store2)
  /\ exists cb2, utf8_encode h2 = Some cb2
     /\ _handle_retrieve_command now' store2 [kw'; file_id]
        = (Return (found_response (len h2) cb2), store2)
     /\ (h1 <> h2 -> forall cb1, utf8_encode h1 = Some cb1 ->
         found_response (len h2) cb2 <> found_response (len h1) cb1).
Proof.
  intros Hi Hf Ht Hlt store1 store2.
  split; [eapply handle_store_ok; eassumption|].
  split; [eapply handle_store_ok; eassumption|].
  destruct (is_text_encode _ Ht) as [cb2 Hcb]. exists cb2.
  split; [assumption|]. split.
  - apply handle_retrieve_live with (t := float_add now2 d); try assumption.
    + apply lookup_insert_eq.
    + apply float_lt_not_gt. assumption.
  - intros Hne cb1 Hcb1 E. apply found_response_inj in E. subst cb1.
    apply Hne. eapply utf8_encode_inj; eassumption.
Qed.

Lemma last_write_wins_witness :
  (int (lit "60") = Some 60%Z /\ float_of_int 60 = Return d60
   /\ is_text (lit "new") = true /\ float_lt t0 (float_add t0 d60) = true)
  /\ (let store1 := <[lit "f1" := (float_add t0 d60, lit "old")]> ∅ in
      let store2 := <[lit "f1" := (float_add t0 d60, lit "new")]> store1 in
      _handle_store_command t0 ∅ [lit "BE"; lit "f1"; lit "60"; lit "3"; lit "old"]
      = (Return OK, store1)
      /\ _handle_store_command t0 store1
           [lit "BE"; lit "f1"; lit "60"; lit "3"; lit "new"]
         = (Return OK, store2)
      /\ exists cb2, utf8_encode (lit "new") = Some cb2
         /\ _handle_retrieve_command t0 store2 [lit "KI"; lit "f1"]
            = (Return (found_response (len (lit "new")) cb2), store2)
         /\ (lit "old" <> lit "new" -> forall cb1,
             utf8_encode (lit "old") = Some cb1 ->
             found_response (len (lit "new")) cb2
             <> found_response (len (lit "old")) cb1)).
Proof.
  split.
  - repeat split; vm_compute; reflexivity.
  - apply (last_write_wins t0 t0 t0 ∅ (lit "BE") (lit "BE") (lit "KI")
             (lit "f1") (lit "60") (lit "3") (lit "3") (lit "old") (lit "new")
             60%Z d60);
      vm_compute; reflexivity.
Defined.

(** C6 as stated fails for a TTL too large for a float: neither store
    command stores anything, both are answered [ERR], and the lookup
    finds nothing, so it does not return the second hash. *)
Lemma last_write_wins_counterexample :
  let put1 := lit "BE|f1|" ++ huge_ttl ++ lit "|3|old" in
  let put2 := lit "BE|f1|" ++ huge_ttl ++ lit "|3|new" in
  int huge_ttl = Some (10 ^ 309)%Z
  /\ process_data t0 ∅ put1 = (ERR, ∅)
  /\ process_data t0 (snd (process_data t0 ∅ put1)) put2 = (ERR, ∅)
  /\ process_data t0 ∅ (lit "KI|f1") = (NOT_FOUND, ∅)
  /\ NOT_FOUND <> found_response 3 (lit "new").
Proof. repeat split; try (vm_compute; reflexivity). discriminate. Qed.




(** C3.  A lookup for a file identifier without an entry answers [0|];
    a lookup past the expiry of the entry answers [0|] and removes the
    entry; and so an answer that carries a hash is the hash of an entry
    that is there and whose expiry has not passed. *)
Theorem retrieve_not_found (now : float) (store : ChecksumStore)
    (kw file_id : str) :
  (store !! file_id = None ->
   _handle_retrieve_command now store [kw; file_id]
   = (Return NOT_FOUND, store))
  /\ (forall expiry_time checksum,
      store !! file_id = Some (expiry_time, checksum) ->
      float_gt now expiry_time = true ->
      _handle_retrieve_command now store [kw; file_id]
      = (Return NOT_FOUND, delete file_id store)
      /\ delete file_id store !! file_id = None)
  /\ (forall n cb,
      fst (_handle_retrieve_command now store [kw; file_id])
      = Return (found_response n cb) ->
      cb <> [] ->
      exists expiry_time checksum,
        store !! file_id = Some (expiry_time, checksum)
        /\ float_gt now expiry_time = false
        /\ utf8_encode checksum = Some cb).
Proof.
  split; [apply handle_retrieve_missing|]. split.
  - intros t c Hl Hg. split; [eapply handle_retrieve_expired; eassumption|].
    apply lookup_delete_eq.
  - intros n cb. unfold _handle_retrieve_command.
    destruct (store !! file_id) as [[t c]|] eqn:Hl; cbn [fst].
    + destruct (float_gt now t) eqn:Hg; cbn [fst].
      * rewrite NOT_FOUND_found. intros [= E] Hne.
        apply found_response_inj in E. congruence.
      * unfold encode.
        destruct (utf8_encode (str_of_nat (len c) ++ lit "|" ++ c)) as [b|] eqn:He;
          [|discriminate].
        rewrite utf8_encode_app, (utf8_encode_ascii _ (str_of_nat_ascii _)) in He.
        change (lit "|" ++ c) with (BAR :: c) in He. simpl in He.
        destruct (utf8_encode c) as [cb'|] eqn:Hc; [|discriminate].
        injection He as <-. intros [= E] _.
        change (str_of_nat (len c) ++ 124 :: cb') with (found_response (len c) cb') in E.
        apply found_response_inj in E. subst cb'. eauto.
    + rewrite NOT_FOUND_found. intros [= E] Hne.
      apply found_response_inj in E. congruence.
Qed.

Lemma retrieve_not_found_witness :
  let store : ChecksumStore := <[lit "f1" := (t0, lit "abc")]> ∅ in
  (store !! lit "f2" = None
   /\ store !! lit "f1" = Some (t0, lit "abc") /\ float_gt t60 t0 = true)
  /\ _handle_retrieve_command t60 store [lit "KI"; lit "f2"]
     = (Return NOT_FOUND, store)
  /\ _handle_retrieve_command t60 store [lit "KI"; lit "f1"]
     = (Return NOT_FOUND, delete (lit "f1") store).
Proof.
  intros store.
  assert (H1 : store !! lit "f1" = Some (t0, lit "abc")) by apply lookup_insert_eq.
  assert (H2 : store !! lit "f2" = None).
  { unfold store. rewrite lookup_insert_ne by discriminate. apply lookup_empty. }
  split; [repeat split; assumption || reflexivity|]. split.
  - apply (proj1 (retrieve_not_found t60 store (lit "KI") (lit "f2"))). exact H2.
  - apply (proj1 (proj2 (retrieve_not_found t60 store (lit "KI") (lit "f1")))
             t0 (lit "abc") H1). reflexivity.
Defined.

(** C5, as amended.  A line of text whose command is [BE] but whose field
    count is wrong or whose TTL field is not an integer: [process_data]
    answers [ERR] and returns the store as it was, so every entry keeps
    its hash and expiry; on the connection the line is answered [ERR],
    the connection stays open with an empty buffer, and the next line is
    processed as usual.  A line that is not valid UTF-8 never reaches
    [process_data]: it is not answered, the store stays as it was, and
    the connection is closed. *)
Theorem malformed_BE_rejected (w w' : world) (store : ChecksumStore)
    (line line' : bytes) (data data' : str) :
  utf8_decode line = Some data -> ~ In LF line ->
  is_malformed_BE data = true ->
  sendall_ok w 0 = true ->
  utf8_decode line' = Some data' -> ~ In LF line' ->
  sendall_ok w' 0 = true ->
  process_data (clock w 0) store data = (ERR, store)
  /\ _handle_client_data w store [] (Return (line ++ [LF]))
     = ([ERR], Open [], store)
  /\ _handle_client_data w' store [] (Return (line' ++ [LF]))
     = ([fst (process_data (clock w' 0) store data')], Open [],
        snd (process_data (clock w' 0) store data'))
  /\ (forall bad : bytes, utf8_decode bad = None -> ~ In LF bad ->
      _handle_client_data w store [] (Return (bad ++ [LF]))
      = ([], Closed, store)).
Proof.
  intros Hd Hl Hm Hs Hd' Hl' Hs'.
  pose proof (process_data_malformed_BE (clock w 0) store data Hm) as Hp.
  split; [exact Hp|]. split; [|split].
  - rewrite (handle_client_data_line w store [] (line ++ [LF]) line data);
      try assumption; try reflexivity.
    + rewrite Hp. reflexivity.
    + destruct line; discriminate.
  - apply (handle_client_data_line w' store [] (line' ++ [LF]) line' data');
      try assumption; try reflexivity.
    destruct line'; discriminate.
  - intros bad Hb Hlb.
    apply (handle_client_data_undecodable w store [] (bad ++ [LF]) bad);
      try assumption; try reflexivity.
    destruct bad; discriminate.
Qed.

Lemma malformed_BE_rejected_witness :
  let store : ChecksumStore := <[lit "id" := (t60, lit "abc")]> ∅ in
  let line := lit "BE|id|notanint|3|abc" in
  let line' := lit "KI|id" in
  (utf8_decode line = Some line /\ ~ In LF line
   /\ is_malformed_BE line = true
   /\ sendall_ok registry_world 0 = true
   /\ utf8_decode line' = Some line' /\ ~ In LF line')
  /\ process_data t0 store line = (ERR, store)
  /\ _handle_client_data registry_world store [] (Return (line ++ [LF]))
     = ([ERR], Open [], store)
  /\ _handle_client_data registry_world store [] (Return (line' ++ [LF]))
     = ([fst (process_data t0 store line')], Open [],
        snd (process_data t0 store line')).
Proof.
  intros store line line'.
  assert (Hl : ~ In LF line) by (vm_compute; intuition discriminate).
  assert (Hl' : ~ In LF line') by (vm_compute; intuition discriminate).
  split; [repeat split; try assumption; vm_compute; reflexivity|].
  assert (H : utf8_decode line = Some line /\ is_malformed_BE line = true
              /\ sendall_ok registry_world 0 = true
              /\ utf8_decode line' = Some line')
    by (repeat split; vm_compute; reflexivity).
  destruct H as (H1 & H2 & H3 & H4).
  destruct (malformed_BE_rejected registry_world registry_world store
              line line' line line' H1 Hl H2 H3 H4 Hl' H3) as (R1 & R2 & R3 & _).
  exact (conj R1 (conj R2 R3)).
Defined.

(** C5 as stated fails: a [BE] line whose TTL field holds an octet that is
    not UTF-8, and one with too few fields and such an octet, are
    malformed [BE] commands, yet neither is answered [ERR]: nothing is
    sent and the connection is closed.  The entry for the id is kept. *)
Lemma malformed_BE_rejected_counterexample :
  let store : ChecksumStore := <[lit "id" := (t60, lit "abc")]> ∅ in
  let line := lit "BE|id|" ++ [0xFF] ++ lit "|3|abc" in
  let short := lit "BE|id|" ++ [0xFF] in
  (split BAR line = [lit "BE"; lit "id"; [0xFF]; lit "3"; lit "abc"]
   /\ split BAR short = [lit "BE"; lit "id"; [0xFF]]
   /\ decode line = Raise UnicodeDecodeError
   /\ decode short = Raise UnicodeDecodeError)
  /\ _handle_client_data registry_world store [] (Return (line ++ [LF]))
     = ([], Closed, store)
  /\ _handle_client_data registry_world store [] (Return (short ++ [LF]))
     = ([], Closed, store)
  /\ store !! lit "id" = Some (t60, lit "abc").
Proof. repeat split; vm_compute; reflexivity. Qed.

(** C8, as amended.  In every store the service can reach, a line that is
    valid UTF-8 (empty or of any arity) gets exactly one response from
    [process_data]: [OK], [ERR] or [<int>|<string>], never empty and
    never with a line terminator in it.  [process_data] is a total
    function here, and whatever a handler raises has become [ERR]. *)
Theorem process_data_response (now : float) (store : ChecksumStore)
    (line : bytes) (data : str) :
  reachable store ->
  utf8_decode line = Some data -> ~ In LF line ->
  is_response (fst (process_data now store data))
  /\ fst (process_data now store data) <> []
  /\ ~ In LF (fst (process_data now store data)).
Proof.
  intros Hr Hd Hl.
  assert (Hdata : ~ In LF data).
  { intros Hin. apply Hl. eapply utf8_decode_In; eauto. unfold LF. lia. }
  pose proof (process_data_text now store data Hdata (reachable_single_line _ Hr)).
  tauto.
Qed.

Lemma process_data_response_witness :
  let store := snd (process_data t0 ∅ (lit "BE|f1|60|3|abc")) in
  (reachable store
   /\ utf8_decode (lit "KI|f1") = Some (lit "KI|f1") /\ ~ In LF (lit "KI|f1"))
  /\ is_response (fst (process_data t0 store (lit "KI|f1")))
  /\ fst (process_data t0 store (lit "KI|f1")) <> []
  /\ ~ In LF (fst (process_data t0 store (lit "KI|f1"))).
Proof.
  intros store.
  assert (Hr : reachable store).
  { apply reachable_step; [apply reachable_start|].
    vm_compute; intuition discriminate. }
  assert (Hl : ~ In LF (lit "KI|f1")) by (vm_compute; intuition discriminate).
  split; [repeat split; try assumption; reflexivity|].
  apply (process_data_response t0 store (lit "KI|f1") (lit "KI|f1"));
    try assumption; reflexivity.
Defined.

(** C8 as stated fails for a line that is not valid UTF-8: the line is
    decoded before [process_data] is called, the decoding raises, and the
    connection is closed without any response. *)
Lemma process_data_response_counterexample :
  decode [0xFF] = Raise UnicodeDecodeError
  /\ _handle_client_data registry_world ∅ [] (Return [0xFF; LF])
     = ([], Closed, ∅).
Proof. split; vm_compute; reflexivity. Qed.

(** *** The scenarios of the specification, run *)

Example put_get_scenario :
  let put := lit "BE|f1|60|32|d41d8cd98f00b204e9800998ecf8427e" in
  fst (process_data t0 ∅ put) = OK
  /\ fst (process_data t0 (snd (process_data t0 ∅ put)) (lit "KI|f1"))
     = lit "32|d41d8cd98f00b204e9800998ecf8427e"
  /\ process_data t0 ∅ (lit "KI|unknown") = (NOT_FOUND, ∅).
Proof. repeat split; vm_compute; reflexivity. Qed.

Example malformed_scenario :
  process_data t0 ∅ (lit "BE|id|notanint|3|abc") = (ERR, ∅)
  /\ process_data t0 ∅ (lit "BE|id|60|3") = (ERR, ∅)
  /\ process_data t0 ∅ [] = (ERR, ∅)
  /\ process_data t0 ∅ (lit "XX|id") = (ERR, ∅).
Proof. repeat split; vm_compute; reflexivity. Qed.

(** The largest TTL the store accepts is 2^1024 - 2^970 - 1. *)
Example float_of_int_limit :
  float_of_int (2 ^ 1024 - 2 ^ 970 - 1)
  = Return (S754_finite false 9007199254740991 971)
  /\ float_of_int (2 ^ 1024 - 2 ^ 970) = Raise OverflowError.
Proof. split; vm_compute; reflexivity. Qed.

(** Several lines in one read are answered in order, and the rest of the
    chunk waits in the buffer. *)
Example pipelined_scenario :
  let chunk := lit "BE|f1|60|3|abc" ++ [LF] ++ lit "KI|f1" ++ [LF] ++ lit "KI|f" in
  fst (_handle_client_data registry_world ∅ [] (Return chunk))
  = ([OK; lit "3|abc"], Open (lit "KI|f")).
Proof. vm_compute. reflexivity. Qed.

End RegistryClaims.

(** ** Hashing *)

Section HashingFacts.
Import IO.
Context {md5 : HashAlgorithm}.

Lemma chunks_concat n l : (0 < n)%nat -> concat (chunks n l) = l.
Proof.
  funelim (chunks n l); intros Hn; simp chunks; simpl.
  - lia.
  - reflexivity.
  - f_equal. rewrite H by lia. apply firstn_skipn.
Qed.

Lemma fold_update_concat cs h :
  fold_left hash_update cs h = hash_update h (concat cs).
Proof.
  revert h. induction cs as [|c cs IH]; intros h; simpl.
  - symmetry. apply hash_update_nil.
  - rewrite IH. apply hash_update_app.
Qed.

Lemma md5_loop_ok f k cs h :
  read_error_at f = None ->
  fst (md5_loop f k cs h) = Return (fold_left hash_update cs h).
Proof.
  intros Hf. revert k h. induction cs as [|c cs IH]; intros k h; simpl;
    rewrite Hf; simpl; [reflexivity|].
  specialize (IH (S k) (hash_update h c)).
  destruct (md5_loop f (S k) cs (hash_update h c)). exact IH.
Qed.

Lemma calculate_md5_chunked_ok n f :
  (0 < n)%nat -> read_error_at f = None ->
  fst (calculate_md5_chunked n true (Return f))
  = Return (hash_hexdigest (hash_update hash_new (content f))).
Proof.
  intros Hn Hf. unfold calculate_md5_chunked. simpl.
  pose proof (md5_loop_ok f 0 (chunks n (content f)) hash_new Hf) as H.
  destruct (md5_loop f 0 (chunks n (content f)) hash_new) as [r t].
  simpl in H. subst r. simpl.
  rewrite fold_update_concat, chunks_concat by assumption. reflexivity.
Qed.

Lemma updates_app a b :
  Lifecycle.updates (a ++ b) = Lifecycle.updates a ++ Lifecycle.updates b.
Proof.
  induction a as [|e a IH]; simpl; [reflexivity|].
  destruct e; try assumption. simpl. rewrite IH. reflexivity.
Qed.

(** A loop that ends without an error has fed the accumulator the chunks
    it read, in order, and has done nothing else. *)
Lemma md5_loop_trace f k cs h h' :
  fst (md5_loop f k cs h) = Return h' ->
  h' = fold_left hash_update cs h
  /\ Lifecycle.updates (snd (md5_loop f k cs h)) = cs
  /\ quiet Lifecycle.is_network (snd (md5_loop f k cs h)) = true.
Proof.
  revert k h. induction cs as [|c cs IH]; intros k h; simpl;
    destruct (bool_decide _); cbn [fst snd]; try discriminate.
  - intros [= <-]. repeat split; reflexivity.
  - specialize (IH (S k) (hash_update h c)).
    destruct (md5_loop f (S k) cs (hash_update h c)) as [r t].
    cbn [fst snd] in *. intros H. destruct (IH H) as (A & B & C).
    split; [exact A|]. split; [simpl; rewrite B; reflexivity|exact C].
Qed.

(** A digest that [calculate_md5] returns: the file was there and could
    be opened, the digest is the last thing that happened, before it the
    chunks of the file were fed to the accumulator, and the network was
    not touched. *)
Lemma calculate_md5_chunked_trace n found opened d :
  (0 < n)%nat -> fst (calculate_md5_chunked n found opened) = Return d ->
  exists f t1,
    found = true /\ opened = Return f
    /\ snd (calculate_md5_chunked n found opened) = t1 ++ [HexDigest d]
    /\ quiet Lifecycle.is_network t1 = true
    /\ concat (Lifecycle.updates t1) = content f
    /\ d = hash_hexdigest (hash_update hash_new (content f)).
Proof.
  intros Hn. unfold calculate_md5_chunked.
  destruct found; cbn [negb fst snd]; [|discriminate].
  destruct opened as [f|e]; cbn [fst snd]; [|discriminate].
  pose proof (md5_loop_trace f 0 (chunks n (content f)) hash_new) as H.
  destruct (md5_loop f 0 (chunks n (content f)) hash_new) as [[h|e] t];
    cbn [fst snd] in *; [|discriminate].
  intros [= <-]. destruct (H h eq_refl) as (A & B & C).
  exists f, ([Exists true; OpenRead true] ++ t ++ [CloseFile]).
  split; [reflexivity|]. split; [reflexivity|]. split.
  { simpl. rewrite <- app_assoc. reflexivity. }
  split.
  { unfold quiet in *. simpl. rewrite forallb_app, C. reflexivity. }
  split.
  { simpl. rewrite updates_app, B. simpl. rewrite app_nil_r.
    apply chunks_concat, Hn. }
  rewrite A, fold_update_concat, chunks_concat by assumption. reflexivity.
Qed.

End HashingFacts.

Section HashingClaims.
Import IO Samples.

(** C9.  For every content and every positive chunk size, the digest that
    [calculate_md5] accumulates chunk by chunk is the digest of the whole
    content; so it is the same for any two positive chunk sizes, and the
    sender and the receiver, who run the same loop, get the same digest
    for the same octets. *)
Theorem chunk_size_irrelevant (md5 : HashAlgorithm) (n m : nat) (f f' : file)
    (w : FileTransferClient.world) :
  (0 < n)%nat -> (0 < m)%nat ->
  read_error_at f = None -> read_error_at f' = None ->
  content f' = content f ->
  FileTransferClient.path_exists w = true ->
  FileTransferClient.hash_open w = Return f ->
  fst (calculate_md5_chunked n true (Return f))
  = Return (hash_hexdigest (hash_update hash_new (content f)))
  /\ fst (calculate_md5_chunked n true (Return f))
     = fst (calculate_md5_chunked m true (Return f))
  /\ fst (FileTransferClient.calculate_md5 w)
     = fst (FileTransferServer.calculate_md5 true (Return f')).
Proof.
  intros Hn Hm Hf Hf' Hc Hw1 Hw2. split; [|split].
  - apply calculate_md5_chunked_ok; assumption.
  - rewrite !(calculate_md5_chunked_ok (md5 := md5)) by assumption. reflexivity.
  - unfold FileTransferClient.calculate_md5, FileTransferServer.calculate_md5.
    rewrite Hw1, Hw2.
    rewrite !(calculate_md5_chunked_ok (md5 := md5))
      by (assumption || (unfold FileTransferClient.CHUNK_SIZE,
                         FileTransferServer.CHUNK_SIZE; lia)).
    rewrite Hc. reflexivity.
Qed.

Lemma chunk_size_irrelevant_witness :
  ((0 < 4)%nat /\ (0 < 4096)%nat
   /\ read_error_at hello = None /\ content hello = content hello
   /\ FileTransferClient.path_exists sender_ok = true
   /\ FileTransferClient.hash_open sender_ok = Return hello)
  /\ fst (calculate_md5_chunked (md5 := sum_hash) 4 true (Return hello))
     = Return (hash_hexdigest (HashAlgorithm := sum_hash)
                 (hash_update hash_new (content hello)))
  /\ fst (calculate_md5_chunked (md5 := sum_hash) 4 true (Return hello))
     = fst (calculate_md5_chunked (md5 := sum_hash) 4096 true (Return hello))
  /\ fst (FileTransferClient.calculate_md5 (md5 := sum_hash) sender_ok)
     = fst (FileTransferServer.calculate_md5 (md5 := sum_hash) true (Return hello)).
Proof.
  split.
  - repeat split; try reflexivity; lia.
  - apply (chunk_size_irrelevant sum_hash 4 4096 hello hello sender_ok);
      try reflexivity; lia.
Defined.

End HashingClaims.

(** ** The sender *)

Section SenderFacts.
Import IO FileTransferClient.
Context {md5 : HashAlgorithm}.

Lemma quiet_app p a b : quiet p (a ++ b) = quiet p a && quiet p b.
Proof. apply forallb_app. Qed.

(** When everything [q] is in the second part and everything [p] in the
    first, [p] comes before [q]. *)
Lemma never_after_app p q a b :
  quiet q a = true -> quiet p b = true -> never_after p q (a ++ b) = true.
Proof.
  intros Ha Hb. induction a as [|e a IH]; simpl in *.
  - clear Ha. induction b as [|e b IH]; simpl in *; [reflexivity|].
    apply andb_true_iff in Hb as [_ Hb]. rewrite (IH Hb), andb_true_r.
    destruct (q e); [exact Hb|reflexivity].
  - apply andb_true_iff in Ha as [He Ha]. rewrite (IH Ha), andb_true_r.
    destruct (q e); [discriminate|reflexivity].
Qed.

Lemma md5_loop_quiet s f k cs h :
  quiet (on_sock s) (snd (md5_loop f k cs h)) = true.
Proof.
  revert k h. induction cs as [|c cs IH]; intros k h; simpl;
    destruct (bool_decide _); try reflexivity.
  specialize (IH (S k) (hash_update h c)).
  destruct (md5_loop f (S k) cs (hash_update h c)). exact IH.
Qed.

Lemma calculate_md5_quiet s w : quiet (on_sock s) (snd (calculate_md5 w)) = true.
Proof.
  unfold calculate_md5, calculate_md5_chunked.
  destruct (path_exists w); [|reflexivity]. simpl.
  destruct (hash_open w) as [f|e]; [|reflexivity].
  pose proof (md5_loop_quiet s f 0 (chunks CHUNK_SIZE (content f)) hash_new) as H.
  destruct (md5_loop f 0 (chunks CHUNK_SIZE (content f)) hash_new) as [[h|e] t];
    simpl in *; rewrite quiet_app, H; reflexivity.
Qed.

Lemma on_sock_stream e : is_stream e = true -> on_sock SrvSock e = true.
Proof. destruct e as [| | | | | |s| | |s| | | | |]; try discriminate. destruct s; try discriminate. reflexivity. Qed.

Lemma quiet_weaken (p p' : event -> bool) t :
  (forall e, p' e = true -> p e = true) -> quiet p t = true -> quiet p' t = true.
Proof.
  intros Hpp. unfold quiet. rewrite !forallb_forall. intros H e He.
  specialize (H e He). destruct (p' e) eqn:E; [|reflexivity].
  rewrite (Hpp e E) in H. exact H.
Qed.

Lemma send_loop_trace w f k cs :
  quiet is_digest (snd (send_loop w f k cs)) = true
  /\ quiet (on_sock ChsumSock) (snd (send_loop w f k cs)) = true
  /\ (fst (send_loop w f k cs) = true ->
      sent_on SrvSock (snd (send_loop w f k cs)) = concat cs).
Proof.
  revert k. induction cs as [|c cs IH]; intros k; simpl;
    destruct (bool_decide _); simpl; try (repeat split; (reflexivity || discriminate)).
  destruct (srv_sendall_ok w k); simpl;
    [|repeat split; (reflexivity || discriminate)].
  specialize (IH (S k)). destruct (send_loop w f (S k) cs) as [ok t].
  simpl in *. destruct IH as (H1 & H2 & H3). repeat split; try assumption.
  intros Hok. rewrite (H3 Hok). reflexivity.
Qed.

Lemma sent_on_app s a b : sent_on s (a ++ b) = sent_on s a ++ sent_on s b.
Proof.
  induction a as [|e a IH]; simpl; [reflexivity|].
  destruct e; try assumption. destruct ok; [|assumption].
  destruct (sock_eqb s0 s); [|assumption]. rewrite IH. apply app_assoc.
Qed.

Lemma sent_on_quiet s t : quiet (on_sock s) t = true -> sent_on s t = [].
Proof.
  induction t as [|e t IH]; simpl; [reflexivity|].
  intros H. apply andb_true_iff in H as [He Ht].
  destruct e; auto. destruct ok; auto. simpl in He.
  destruct (sock_eqb s0 s); [discriminate|auto].
Qed.

(** What [send_file] does: no digest step, nothing on the registry
    socket; when it succeeds the whole file has gone out and the socket
    is closed. *)
Lemma send_file_trace w :
  quiet is_digest (snd (send_file w)) = true
  /\ quiet (on_sock ChsumSock) (snd (send_file w)) = true
  /\ (fst (send_file w) = true ->
      In (Close SrvSock) (snd (send_file w))
      /\ exists f, send_open w = Return f
                   /\ sent_on SrvSock (snd (send_file w)) = content f).
Proof.
  unfold send_file. destruct (srv_connect_ok w); simpl;
    [|repeat split; (reflexivity || discriminate)].
  destruct (send_open w) as [f|e]; [|repeat split; (reflexivity || discriminate)].
  pose proof (send_loop_trace w f 0 (chunks CHUNK_SIZE (content f))) as (H1 & H2 & H3).
  destruct (send_loop w f 0 (chunks CHUNK_SIZE (content f))) as [[|] t];
    cbn [fst snd] in *; unfold quiet in *.
  - split; [simpl; rewrite forallb_app, H1; reflexivity|].
    split; [simpl; rewrite forallb_app, H2; reflexivity|].
    intros _. split.
    + simpl. right. right. apply in_app_iff. right. simpl. auto.
    + exists f. split; [reflexivity|].
      simpl. rewrite sent_on_app, (H3 eq_refl). simpl. rewrite app_nil_r.
      apply chunks_concat. unfold CHUNK_SIZE. lia.
  - split; [simpl; rewrite forallb_app, H1; reflexivity|].
    split; [simpl; rewrite forallb_app, H2; reflexivity|]. discriminate.
Qed.

Lemma send_checksum_quiet w file_id checksum :
  quiet is_digest (snd (send_checksum w file_id checksum)) = true
  /\ quiet (on_sock SrvSock) (snd (send_checksum w file_id checksum)) = true.
Proof.
  unfold send_checksum.
  destruct (chsum_connect_ok w); simpl; [|split; reflexivity].
  destruct (encode _) as [msg|e]; simpl; [|split; reflexivity].
  destruct (chsum_sendall_ok w); simpl; [|split; reflexivity].
  destruct (chsum_recv w) as [r|e]; simpl; [|split; reflexivity].
  destruct (bool_decide _); simpl; split; reflexivity.
Qed.

Lemma existsb_quiet p t : existsb p t = negb (quiet p t).
Proof.
  induction t as [|e t IH]; simpl; [reflexivity|].
  rewrite IH. destruct (p e); reflexivity.
Qed.

Lemma quiet_In p t e : quiet p t = true -> In e t -> p e = false.
Proof.
  unfold quiet. rewrite forallb_forall. intros H Hin. specialize (H e Hin).
  destruct (p e); [discriminate|reflexivity].
Qed.

(** Whatever [send_checksum] sends to the registry, it is the [BE]
    message for the checksum it was given. *)
Lemma send_checksum_message w file_id checksum msg ok :
  In (SendAll ChsumSock msg ok) (snd (send_checksum w file_id checksum)) ->
  encode (store_message file_id checksum) = Return msg.
Proof.
  unfold send_checksum.
  destruct (chsum_connect_ok w); cbn [negb];
    [|simpl; intros H; repeat destruct H as [H|H]; discriminate || destruct H].
  destruct (encode (store_message file_id checksum)) as [m|e];
    [|simpl; intros H; repeat destruct H as [H|H]; discriminate || destruct H].
  destruct (chsum_sendall_ok w); cbn [negb];
    [|simpl; intros H; repeat destruct H as [H|H]; try discriminate;
      [injection H as <- _; reflexivity|destruct H]].
  destruct (chsum_recv w) as [r|e];
    [|simpl; intros H; repeat destruct H as [H|H]; try discriminate;
      [injection H as <- _; reflexivity|destruct H]].
  destruct (bool_decide (r = lit "OK")); simpl; intros H;
    repeat destruct H as [H|H]; try discriminate;
    (injection H as <- _; reflexivity) || destruct H.
Qed.

(** If anything at all happens on the connection to the receiver, the
    digest of the file on disk has been completed before: the run is
    [t1], then the digest, then [t2], where [t1] feeds the accumulator
    the content of the file and does not touch the network, and [t2] has
    no digest step. *)
Lemma transfer_file_digest_first w file_id :
  existsb (on_sock SrvSock) (snd (transfer_file w file_id)) = true ->
  exists d f t1 t2,
    snd (transfer_file w file_id) = t1 ++ HexDigest d :: t2
    /\ hash_open w = Return f
    /\ concat (Lifecycle.updates t1) = content f
    /\ d = hash_hexdigest (hash_update hash_new (content f))
    /\ quiet Lifecycle.is_network t1 = true
    /\ quiet is_digest t2 = true.
Proof.
  unfold transfer_file.
  pose proof (calculate_md5_quiet SrvSock w) as Ha.
  pose proof (calculate_md5_chunked_trace CHUNK_SIZE (path_exists w) (hash_open w))
    as Htr.
  unfold calculate_md5 in *.
  destruct (calculate_md5_chunked CHUNK_SIZE (path_exists w) (hash_open w))
    as [[d|e] t1]; cbn [fst snd] in *.
  2:{ rewrite existsb_quiet, quiet_app, Ha. discriminate. }
  destruct (Htr d (Nat.lt_0_succ _) eq_refl) as (f & t1' & _ & Hopen & -> & Hq & Hu & Hd).
  pose proof (send_file_trace w) as (H1 & _ & _).
  assert (Hgo : forall rest, quiet is_digest rest = true ->
            exists d0 f0 t0 t2,
              (t1' ++ [HexDigest d]) ++ rest = t0 ++ HexDigest d0 :: t2
              /\ hash_open w = Return f0
              /\ concat (Lifecycle.updates t0) = content f0
              /\ d0 = hash_hexdigest (hash_update hash_new (content f0))
              /\ quiet Lifecycle.is_network t0 = true
              /\ quiet is_digest t2 = true).
  { intros rest Hrest. exists d, f, t1', rest.
    rewrite <- app_assoc. repeat split; assumption. }
  destruct (send_file w) as [[|] t2]; cbn [fst snd] in *;
    [|intros _; apply Hgo; exact H1].
  pose proof (send_checksum_quiet w file_id d) as [H4 _].
  destruct (send_checksum w file_id d) as [[|] t3]; cbn [fst snd] in *;
    intros _; apply Hgo; rewrite !quiet_app, H1, H4; reflexivity.
Qed.

(** Whatever goes out to the registry is the [BE] message for the digest
    that [calculate_md5] returned, and that digest is in the trace. *)
Lemma transfer_file_registers_digest w file_id msg ok :
  In (SendAll ChsumSock msg ok) (snd (transfer_file w file_id)) ->
  exists d, In (HexDigest d) (snd (transfer_file w file_id))
            /\ fst (calculate_md5 w) = Return d
            /\ encode (store_message file_id d) = Return msg.
Proof.
  unfold transfer_file.
  pose proof (calculate_md5_quiet ChsumSock w) as Hb.
  pose proof (calculate_md5_chunked_trace CHUNK_SIZE (path_exists w) (hash_open w))
    as Htr.
  assert (Hsend : on_sock ChsumSock (SendAll ChsumSock msg ok) = true) by reflexivity.
  unfold calculate_md5 in *.
  destruct (calculate_md5_chunked CHUNK_SIZE (path_exists w) (hash_open w))
    as [[d|e] t1]; cbn [fst snd] in *.
  2:{ rewrite in_app_iff. intros [H|[H|[]]]; [|discriminate].
      rewrite (quiet_In _ _ _ Hb H) in Hsend. discriminate. }
  destruct (Htr d (Nat.lt_0_succ _) eq_refl) as (f & t1' & _ & _ & E & _).
  assert (Hd : forall rest, In (HexDigest d) (t1 ++ rest)).
  { intros rest. rewrite E, !in_app_iff. left. right. left. reflexivity. }
  pose proof (send_file_trace w) as (_ & H2 & _).
  pose proof (send_checksum_message w file_id d msg ok) as Hmsg.
  destruct (send_file w) as [[|] t2]; cbn [fst snd] in *.
  2:{ rewrite in_app_iff. intros [H|H].
      - rewrite (quiet_In _ _ _ Hb H) in Hsend. discriminate.
      - rewrite (quiet_In _ _ _ H2 H) in Hsend. discriminate. }
  destruct (send_checksum w file_id d) as [[|] t3]; cbn [fst snd] in *;
    rewrite !in_app_iff; intros [H|[H|H]];
    try (rewrite (quiet_In _ _ _ Hb H) in Hsend; discriminate);
    try (rewrite (quiet_In _ _ _ H2 H) in Hsend; discriminate).
  - destruct H as [H|[H|[]]]; [|discriminate].
    exists d. split; [apply Hd|]. split; [reflexivity|apply Hmsg, H].
  - exists d. split; [apply Hd|]. split; [reflexivity|apply Hmsg, H].
Qed.

End SenderFacts.

Section SenderClaims.
Import IO FileTransferClient Samples.

(** C7.  In the trace of [transfer_file]: every digest step comes before
    any chunk goes out to the receiver; nothing happens on the connection
    to the receiver once the registry has been contacted, and the registry
    is contacted only if [send_file] succeeded, in which case the whole
    file has gone out and that connection has been closed; if [send_file]
    fails, nothing at all happens on a connection to the registry.
    Moreover the digest is there before the streaming: if anything
    happens on the connection to the receiver, the trace is [t1], the
    digest [d], [t2], where [t1] feeds the accumulator the content of the
    file on disk and does not touch the network, [d] is the digest of
    that content, and [t2] has no digest step.  And whatever is sent to
    the registry is the [BE] message for the digest that was computed. *)
Theorem sender_ordering (md5 : HashAlgorithm) (w : world) (file_id : str) :
  let t := snd (transfer_file w file_id) in
  never_after is_digest is_stream t = true
  /\ never_after (on_sock SrvSock) (on_sock ChsumSock) t = true
  /\ (existsb (on_sock ChsumSock) t = true ->
      fst (send_file w) = true
      /\ In (Close SrvSock) t
      /\ exists f, send_open w = Return f /\ sent_on SrvSock t = content f)
  /\ (fst (send_file w) = false -> existsb (on_sock ChsumSock) t = false)
  /\ (existsb (on_sock SrvSock) t = true ->
      exists d f t1 t2,
        t = t1 ++ HexDigest d :: t2
        /\ hash_open w = Return f
        /\ concat (Lifecycle.updates t1) = content f
        /\ d = hash_hexdigest (hash_update hash_new (content f))
        /\ quiet Lifecycle.is_network t1 = true
        /\ quiet is_digest t2 = true)
  /\ (forall msg ok, In (SendAll ChsumSock msg ok) t ->
      exists d, In (HexDigest d) t
                /\ fst (calculate_md5 w) = Return d
                /\ encode (store_message file_id d) = Return msg).
Proof.
  assert (Hold :
    let t := snd (transfer_file w file_id) in
  never_after is_digest is_stream t = true
    /\ never_after (on_sock SrvSock) (on_sock ChsumSock) t = true
    /\ (existsb (on_sock ChsumSock) t = true ->
        fst (send_file w) = true
        /\ In (Close SrvSock) t
        /\ exists f, send_open w = Return f /\ sent_on SrvSock t = content f)
    /\ (fst (send_file w) = false -> existsb (on_sock ChsumSock) t = false)).
  {   unfold transfer_file.
      pose proof (calculate_md5_quiet SrvSock w) as Ha.
      pose proof (calculate_md5_quiet ChsumSock w) as Hb.
      pose proof (quiet_weaken _ is_stream _ on_sock_stream Ha) as Hc.
      destruct (calculate_md5 w) as [[checksum|e] t1]; cbn [fst snd] in *.
      2:{ split; [rewrite <- (app_nil_r (_ ++ _)); apply never_after_app;
                  [rewrite quiet_app, Hc|]; reflexivity|].
          split; [rewrite <- (app_nil_r (_ ++ _)); apply never_after_app;
                  [rewrite quiet_app, Hb|]; reflexivity|].
          rewrite existsb_quiet, quiet_app, Hb. split; [discriminate|reflexivity]. }
      pose proof (send_file_trace w) as (H1 & H2 & H3).
      destruct (send_file w) as [[|] t2]; cbn [fst snd] in *.
      2:{ split; [apply never_after_app; assumption|].
          split; [rewrite <- (app_nil_r (_ ++ _)); apply never_after_app;
                  [rewrite quiet_app, Hb, H2|]; reflexivity|].
          rewrite existsb_quiet, quiet_app, Hb, H2. split; [discriminate|reflexivity]. }
      destruct (H3 eq_refl) as (Hclose & f & Hopen & Hsent).
      pose proof (send_checksum_quiet w file_id checksum) as (H4 & H5).
      assert (Hmain : forall t3 tail,
                quiet is_digest (t3 ++ tail) = true ->
                quiet (on_sock SrvSock) (t3 ++ tail) = true ->
                never_after is_digest is_stream (t1 ++ t2 ++ t3 ++ tail) = true
                /\ never_after (on_sock SrvSock) (on_sock ChsumSock)
                     (t1 ++ t2 ++ t3 ++ tail) = true
                /\ (existsb (on_sock ChsumSock) (t1 ++ t2 ++ t3 ++ tail) = true ->
                    true = true
                    /\ In (Close SrvSock) (t1 ++ t2 ++ t3 ++ tail)
                    /\ exists f, send_open w = Return f
                       /\ sent_on SrvSock (t1 ++ t2 ++ t3 ++ tail) = content f)
                /\ (true = false ->
                    existsb (on_sock ChsumSock) (t1 ++ t2 ++ t3 ++ tail) = false)).
      { intros t3 tail Hd Hs.
        split; [apply never_after_app; [assumption|rewrite quiet_app, H1, Hd; reflexivity]|].
        split; [rewrite app_assoc; apply never_after_app;
                [rewrite quiet_app, Hb, H2; reflexivity|assumption]|].
        split; [|discriminate]. intros _. split; [reflexivity|]. split.
        - apply in_app_iff. right. apply in_app_iff. left. assumption.
        - exists f. split; [assumption|].
          rewrite !sent_on_app, (sent_on_quiet _ _ Ha), Hsent. simpl.
          rewrite <- sent_on_app, (sent_on_quiet _ _ Hs). apply app_nil_r. }
      destruct (send_checksum w file_id checksum) as [[|] t3]; cbn [fst snd] in *.
      - apply Hmain; rewrite quiet_app; [rewrite H4|rewrite H5]; reflexivity.
      - rewrite <- (app_nil_r t3). apply Hmain; rewrite app_nil_r; assumption. }
  intros t. destruct Hold as (A & B & C & D).
  split; [exact A|]. split; [exact B|]. split; [exact C|]. split; [exact D|].
  split.
  - apply transfer_file_digest_first.
  - intros msg ok. apply transfer_file_registers_digest.
Qed.

End SenderClaims.

Section SenderWitness.
Import IO FileTransferClient Samples.

Lemma sender_ordering_witness :
  let t := snd (transfer_file (md5 := sum_hash) sender_ok (lit "f1")) in
  let t' := snd (transfer_file (md5 := sum_hash) sender_refused (lit "f1")) in
  (existsb (on_sock ChsumSock) t = true /\ fst (send_file sender_refused) = false
   /\ existsb (on_sock SrvSock) t = true)
  /\ (fst (send_file sender_ok) = true
      /\ In (Close SrvSock) t
      /\ exists f, send_open sender_ok = Return f /\ sent_on SrvSock t = content f)
  /\ existsb (on_sock ChsumSock) t' = false
  /\ (exists d f t1 t2,
        t = t1 ++ HexDigest d :: t2
        /\ hash_open sender_ok = Return f
        /\ concat (Lifecycle.updates t1) = content f
        /\ d = hash_hexdigest (HashAlgorithm := sum_hash)
                 (hash_update hash_new (content f))
        /\ quiet Lifecycle.is_network t1 = true
        /\ quiet is_digest t2 = true).
Proof.
  intros t t'. split; [repeat split; reflexivity|]. split; [|split].
  - apply (proj1 (proj2 (proj2 (sender_ordering sum_hash sender_ok (lit "f1"))))).
    reflexivity.
  - apply (proj1 (proj2 (proj2 (proj2
             (sender_ordering sum_hash sender_refused (lit "f1")))))).
    reflexivity.
  - apply (proj1 (proj2 (proj2 (proj2 (proj2
             (sender_ordering sum_hash sender_ok (lit "f1"))))))).
    reflexivity.
Defined.

End SenderWitness.

(** ** The receiver *)

Section ReceiverClaims.
Import IO FileTransferServer Samples.

(** A failed [receive_file] ends by printing its error. *)
Lemma receive_file_failed w :
  fst (fst (receive_file w)) = false ->
  last (snd (receive_file w)) = Some (Print "Error receiving file: {e}").
Proof.
  unfold receive_file.
  destruct (listen_ok w); simpl; [|reflexivity].
  destruct (accept_ok w); simpl; [|reflexivity].
  destruct (out_open_ok w); simpl; [|reflexivity].
  destruct (recv_loop w 0 (incoming w) []) as [[[|] written] t]; simpl;
    [discriminate|]. intros _.
  change (last ([Listen true; Accept true; Print "Connection from {addr}";
                 OpenWrite true] ++ (t ++ [CloseFile; Close ConnSock; Close ListenSock])
                ++ [Print "Error receiving file: {e}"]) = Some (Print "Error receiving file: {e}")).
  rewrite !app_assoc. apply last_snoc.
Qed.

(** When the registry cannot be reached, cannot be written to, or its
    answer cannot be read, [get_checksum] ends in its [except] clause. *)
Lemma get_checksum_io_failure w file_id :
  chsum_connect_ok w = false \/ chsum_sendall_ok w = false
  \/ (exists e, chsum_recv w = Raise e) ->
  exists t, get_checksum w file_id
            = (None, t ++ [Print "Error retrieving checksum: {e}"]).
Proof.
  intros H. unfold get_checksum.
  destruct (chsum_connect_ok w) eqn:Hc; cbn [negb];
    [|eexists ([_; _]); reflexivity].
  destruct (encode (retrieve_message file_id)) as [msg|e];
    [|eexists ([_; _]); reflexivity].
  destruct (chsum_sendall_ok w) eqn:Hs; cbn [negb];
    [|eexists ([_; _; _]); reflexivity].
  destruct (chsum_recv w) as [r|e] eqn:Hr;
    [|eexists ([_; _; _; _]); reflexivity].
  destruct H as [H|[H|[e H]]]; discriminate.
Qed.

(** When the registry answers [0|], [get_checksum] says so and returns
    [None]. *)
Lemma get_checksum_not_found w file_id :
  chsum_connect_ok w = true -> chsum_sendall_ok w = true ->
  (exists msg, encode (retrieve_message file_id) = Return msg) ->
  chsum_recv w = Return ChecksumServer.NOT_FOUND ->
  exists t, get_checksum w file_id
            = (None, t ++ [Print "Checksum not found or expired"]).
Proof.
  intros Hc Hs [msg Hm] Hr. unfold get_checksum. rewrite Hc, Hs, Hm, Hr.
  eexists ([_; _; _; _]). reflexivity.
Qed.

(** C4, as amended.  [receive_and_validate] returns one boolean.  It is
    [True] exactly when the file was received, the registry gave a
    checksum, and the digest of the file equals it.  A failed reception, a
    missing or expired registry entry, a registry that cannot be reached,
    a failure to read the file back and a mismatch all return [False].
    The message printed last tells a failed reception, a failure to read
    the file back and a mismatch apart from each other and from the
    rest; but it is the same, [Could not retrieve expected checksum],
    whenever [get_checksum] gave nothing, so a registry that has no live
    entry and a registry that cannot be reached differ only in the
    message printed before that one. *)
Theorem receive_and_validate_verdict (md5 : HashAlgorithm) (w : world)
    (file_id : str) :
  let received := receive_file w in
  let looked_up := get_checksum w file_id in
  let disk := on_disk w (snd (fst received)) in
  let hashed := calculate_md5 (fst disk) (snd disk) in
  let result := receive_and_validate w file_id in
  (fst result = true <->
   fst (fst received) = true
   /\ exists c, fst looked_up = Some c /\ fst hashed = Return c)
  /\ (fst (fst received) = false ->
      fst result = false
      /\ last (snd result) = Some (Print "Error receiving file: {e}"))
  /\ (fst (fst received) = true -> fst looked_up = None ->
      fst result = false
      /\ last (snd result) = Some (Print "Could not retrieve expected checksum"))
  /\ (fst (fst received) = true ->
      forall c e, fst looked_up = Some c -> fst hashed = Raise e ->
      fst result = false
      /\ last (snd result) = Some (Print "Error in receive_and_validate: {e}"))
  /\ (fst (fst received) = true ->
      forall c a, fst looked_up = Some c -> fst hashed = Return a -> c <> a ->
      fst result = false
      /\ last (snd result) = Some (Print "CSUM CORRUPTED"))
  /\ (fst (fst received) = true ->
      chsum_connect_ok w = false \/ chsum_sendall_ok w = false
      \/ (exists e, chsum_recv w = Raise e) ->
      fst result = false
      /\ exists t, snd result
                   = t ++ [Print "Error retrieving checksum: {e}";
                           Print "Could not retrieve expected checksum"])
  /\ (fst (fst received) = true ->
      chsum_connect_ok w = true -> chsum_sendall_ok w = true ->
      (exists msg, encode (retrieve_message file_id) = Return msg) ->
      chsum_recv w = Return ChecksumServer.NOT_FOUND ->
      fst result = false
      /\ exists t, snd result
                   = t ++ [Print "Checksum not found or expired";
                           Print "Could not retrieve expected checksum"]).
Proof.
  unfold receive_and_validate.
  pose proof (receive_file_failed w) as Hfail.
  pose proof (get_checksum_io_failure w file_id) as Hio.
  pose proof (get_checksum_not_found w file_id) as Hnf.
  destruct (receive_file w) as [[ok written] t1]; cbn [fst snd] in *.
  destruct ok.
  2:{ cbn [fst snd]. split; [split; [discriminate|intros [H _]; discriminate]|].
      split; [auto|]. repeat split; discriminate. }
  destruct (get_checksum w file_id) as [[expected|] t2]; cbn [fst snd].
  2:{ split; [split; [discriminate|intros [_ (c & H & _)]; discriminate]|].
      split; [discriminate|]. split.
      - intros _ _. split; [reflexivity|]. rewrite !app_assoc. apply last_snoc.
      - split; [intros _ c x H; discriminate|].
        split; [intros _ c x H; discriminate|]. split.
        + intros _ H. destruct (Hio H) as [t [= ->]]. split; [reflexivity|].
          exists (t1 ++ t). rewrite <- !app_assoc. reflexivity.
        + intros _ Hc Hs Hm Hr. destruct (Hnf Hc Hs Hm Hr) as [t [= ->]].
          split; [reflexivity|].
          exists (t1 ++ t). rewrite <- !app_assoc. reflexivity. }
  assert (Hlast : (chsum_connect_ok w = false \/ chsum_sendall_ok w = false
                   \/ (exists e, chsum_recv w = Raise e) -> False)
                  /\ (chsum_connect_ok w = true -> chsum_sendall_ok w = true ->
                      (exists msg, encode (retrieve_message file_id) = Return msg) ->
                      chsum_recv w = Return ChecksumServer.NOT_FOUND -> False)).
  { split.
    - intros H. destruct (Hio H) as [t E]. discriminate E.
    - intros Hc Hs Hm Hr. destruct (Hnf Hc Hs Hm Hr) as [t E]. discriminate E. }
  destruct Hlast as [Hno1 Hno2].
  destruct (on_disk w written) as [found opened]; cbn [fst snd].
  destruct (calculate_md5 found opened) as [[actual|e] t3]; cbn [fst snd].
  2:{ split; [split; [discriminate|intros [_ (c & _ & H)]; discriminate]|].
      split; [discriminate|]. split; [discriminate|]. split.
      - intros _ c e' _ _. split; [reflexivity|]. rewrite !app_assoc. apply last_snoc.
      - split; [intros _ c a _ H; discriminate|].
        split; [intros _ H; destruct (Hno1 H)|].
        intros _ Hc Hs Hm Hr. destruct (Hno2 Hc Hs Hm Hr). }
  destruct (bool_decide (expected = actual)) eqn:Heq; cbn [fst snd].
  - apply bool_decide_eq_true in Heq. subst actual.
    split; [split; [intros _; split; [reflexivity|eauto]|reflexivity]|].
    split; [discriminate|]. split; [discriminate|]. split.
    + intros _ c e _ H. discriminate.
    + split; [intros _ c a [= <-] [= <-] Hne; congruence|].
      split; [intros _ H; destruct (Hno1 H)|].
      intros _ Hc Hs Hm Hr. destruct (Hno2 Hc Hs Hm Hr).
  - apply bool_decide_eq_false in Heq.
    split; [split; [discriminate|intros [_ (c & [= <-] & [= <-])]; congruence]|].
    split; [discriminate|]. split; [discriminate|]. split.
    + intros _ c e _ H. discriminate.
    + split; [intros _ c a _ _ _; split; [reflexivity|];
              rewrite !app_assoc; apply last_snoc|].
      split; [intros _ H; destruct (Hno1 H)|].
      intros _ Hc Hs Hm Hr. destruct (Hno2 Hc Hs Hm Hr).
Qed.

Lemma receive_and_validate_verdict_witness :
  let result := receive_and_validate (md5 := sum_hash) receiver_valid (lit "f1") in
  let result' := receive_and_validate (md5 := sum_hash) receiver_unavailable (lit "f1") in
  let result'' := receive_and_validate (md5 := sum_hash) receiver_registry_down (lit "f1") in
  (fst (fst (receive_file receiver_valid)) = true
   /\ (exists c, fst (get_checksum receiver_valid (lit "f1")) = Some c
       /\ fst (calculate_md5 (md5 := sum_hash) true
                 (Return {| content := lit "hello world"; read_error_at := None |}))
          = Return c)
   /\ fst (fst (receive_file receiver_unavailable)) = true
   /\ fst (get_checksum receiver_unavailable (lit "f1")) = None
   /\ fst (fst (receive_file receiver_registry_down)) = true
   /\ chsum_connect_ok receiver_registry_down = false)
  /\ fst result = true
  /\ (fst result' = false
      /\ last (snd result') = Some (Print "Could not retrieve expected checksum"))
  /\ (fst result'' = false
      /\ exists t, snd result''
                   = t ++ [Print "Error retrieving checksum: {e}";
                           Print "Could not retrieve expected checksum"]).
Proof.
  intros result result' result''.
  assert (H1 : fst (fst (receive_file receiver_valid)) = true) by reflexivity.
  assert (H2 : exists c, fst (get_checksum receiver_valid (lit "f1")) = Some c
       /\ fst (calculate_md5 (md5 := sum_hash) true
                 (Return {| content := lit "hello world"; read_error_at := None |}))
          = Return c) by (exists (lit "1116"); split; reflexivity).
  split; [repeat split; try assumption; reflexivity|]. split; [|split].
  - apply (proj2 (proj1 (receive_and_validate_verdict sum_hash receiver_valid (lit "f1")))).
    split; assumption.
  - apply (proj1 (proj2 (proj2 (receive_and_validate_verdict sum_hash
                                  receiver_unavailable (lit "f1")))));
      reflexivity.
  - apply (proj1 (proj2 (proj2 (proj2 (proj2 (proj2
             (receive_and_validate_verdict sum_hash receiver_registry_down
                (lit "f1")))))))); [reflexivity|left; reflexivity].
Defined.

(** C4 as stated fails: a run that ends Unavailable, one that ends
    Corrupted and one that ends in an I/O failure, be it of the reception
    or of the connection to the registry, all return the same value,
    [False].  The last of these even ends with the same message as the
    Unavailable run. *)
Lemma receive_and_validate_counterexample :
  let unavailable := receive_and_validate (md5 := sum_hash) receiver_unavailable (lit "f1") in
  let corrupted := receive_and_validate (md5 := sum_hash) receiver_corrupted (lit "f1") in
  let io_failure := receive_and_validate (md5 := sum_hash) receiver_io_failure (lit "f1") in
  let registry_down :=
    receive_and_validate (md5 := sum_hash) receiver_registry_down (lit "f1") in
  (last (snd unavailable) = Some (Print "Could not retrieve expected checksum")
   /\ last (snd corrupted) = Some (Print "CSUM CORRUPTED")
   /\ last (snd io_failure) = Some (Print "Error receiving file: {e}")
   /\ last (snd registry_down) = Some (Print "Could not retrieve expected checksum"))
  /\ fst unavailable = fst corrupted
  /\ fst corrupted = fst io_failure
  /\ fst io_failure = fst registry_down
  /\ fst unavailable = false.
Proof. repeat split; vm_compute; reflexivity. Qed.

End ReceiverClaims.

(** ** Loading the modules *)

Section LoadingClaims.
Import Loading.
Local Open Scope string_scope.

(** C10.  [netcopy_srv.py] imports [socket], [hashlib], [sys] and [os]
    and nothing from [typing]; the signature of [get_checksum] looks up
    [Optional]; so executing the module raises [NameError] while the
    class body runs, the module has no namespace, and the class that
    holds [receive_file], [get_checksum] and [receive_and_validate] is
    never bound.  Everything before the class statement does execute, and
    the two sibling modules load. *)
Theorem netcopy_srv_does_not_load :
  load netcopy_srv = Raise (NameError "Optional")
  /\ (forall namespace, load netcopy_srv <> Return namespace)
  /\ load (firstn 6 netcopy_srv)
     = Return ["RECEIVE_TIMEOUT"; "CHUNK_SIZE"; "os"; "sys"; "hashlib"; "socket"]
  /\ bound "Optional" [["RECEIVE_TIMEOUT"; "CHUNK_SIZE"; "os"; "sys"; "hashlib"; "socket"];
                       builtins] = false
  /\ (exists namespace, load checksum_srv = Return namespace
                        /\ In "ChecksumServer" namespace)
  /\ (exists namespace, load netcopy_cli = Return namespace
                        /\ In "FileTransferClient" namespace).
Proof.
  split; [reflexivity|]. split; [intros ns; discriminate|].
  split; [reflexivity|]. split; [reflexivity|]. split.
  - eexists. split; [reflexivity|]. simpl. tauto.
  - eexists. split; [reflexivity|]. simpl. tauto.
Qed.

End LoadingClaims.

(** * More properties of the code *)

(** ** The registry: state changes *)

Section RegistryMore.
Import ChecksumServer Samples.
Local Open Scope N_scope.

Lemma found_response_BAR n cb : In BAR (found_response n cb).
Proof. unfold found_response. apply in_app_iff. right. left. reflexivity. Qed.

Lemma ERR_not_found n cb : ERR <> found_response n cb.
Proof.
  intros E. pose proof (found_response_BAR n cb) as H. rewrite <- E in H.
  unfold ERR, BAR in H. simpl in H. intuition discriminate.
Qed.

Lemma OK_not_found n cb : OK <> found_response n cb.
Proof.
  intros E. pose proof (found_response_BAR n cb) as H. rewrite <- E in H.
  unfold OK, BAR in H. simpl in H. intuition discriminate.
Qed.

(** What a retrieve command can do, for any store. *)
Lemma handle_retrieve_cases (now : float) (store : ChecksumStore) parts r store' :
  _handle_retrieve_command now store parts = (r, store') ->
  (store' = store
   /\ ((exists e, r = Raise e) \/ exists n cb, r = Return (found_response n cb)))
  \/ (r = Return NOT_FOUND /\ store' = delete (nth 1 parts []) store).
Proof.
  unfold _handle_retrieve_command. intros H.
  destruct parts as [|kw [|file_id [|x r']]];
    try (injection H as <- <-; left; split; eauto).
  destruct (store !! file_id) as [[t checksum]|] eqn:Hl.
  - destruct (float_gt now t).
    + injection H as <- <-. right. split; reflexivity.
    + unfold encode in H.
      destruct (utf8_encode (str_of_nat (len checksum) ++ lit "|" ++ checksum))
        as [b|] eqn:He; injection H as <- <-; left; split; eauto.
      right. rewrite utf8_encode_app, (utf8_encode_ascii _ (str_of_nat_ascii _)) in He.
      change (lit "|" ++ checksum) with (BAR :: checksum) in He. simpl in He.
      destruct (utf8_encode checksum) as [cb|] eqn:Hc; [|discriminate].
      injection He as <-. exists (len checksum), cb. reflexivity.
  - injection H as <- <-. left. split; [reflexivity|]. right.
    exists 0%nat, []. reflexivity.
Qed.

(** What a store command can do, with the key it binds. *)
Lemma handle_store_cases (now : float) (store : ChecksumStore) parts r store' :
  _handle_store_command now store parts = (r, store') ->
  (r = Return OK /\ exists t checksum,
      store' = <[nth 1 parts [] := (t, checksum)]> store)
  \/ ((r = Return ERR \/ exists e, r = Raise e) /\ store' = store).
Proof.
  unfold _handle_store_command.
  destruct parts as [|kw [|file_id [|expiry [|length [|checksum [|x r']]]]]];
    simpl; try (intros [= <- <-]; right; eauto).
  destruct (int expiry) as [ttl|]; simpl; [|intros [= <- <-]; right; eauto].
  destruct (float_add_int now ttl) as [t|e] eqn:Ha; simpl.
  - intros [= <- <-]. left. eauto.
  - destruct (is_ValueError e); intros [= <- <-]; right; eauto.
Qed.

(** X1.  A command that is answered [ERR] has changed nothing. *)
Theorem ERR_leaves_store (now : float) (store : ChecksumStore) (data : str) :
  fst (process_data now store data) = ERR ->
  snd (process_data now store data) = store.
Proof.
  unfold process_data.
  destruct (split BAR (strip data)) as [|command rest]; [reflexivity|].
  destruct (bool_decide (command = lit "BE")
            && bool_decide (len (command :: rest) = 5%nat)).
  { destruct (_handle_store_command now store (command :: rest)) as [r store'] eqn:H.
    apply handle_store_cases in H
      as [[-> (t & c & ->)]|[[->|[e ->]] ->]]; cbn [fst snd]; try reflexivity.
    discriminate. }
  destruct (bool_decide (command = lit "KI")
            && bool_decide (len (command :: rest) = 2%nat)); [|reflexivity].
  destruct (_handle_retrieve_command now store (command :: rest)) as [r store'] eqn:H.
  apply handle_retrieve_cases in H
    as [[-> [[e ->]|(n & cb & ->)]]|[-> ->]]; cbn [fst snd]; try reflexivity.
  discriminate.
Qed.

Lemma ERR_leaves_store_witness :
  let store : ChecksumStore := <[lit "id" := (t60, lit "abc")]> ∅ in
  fst (process_data t0 store (lit "BE|id|soon|3|xyz")) = ERR
  /\ snd (process_data t0 store (lit "BE|id|soon|3|xyz")) = store.
Proof.
  intros store.
  assert (H : fst (process_data t0 store (lit "BE|id|soon|3|xyz")) = ERR)
    by (vm_compute; reflexivity).
  split; [exact H|].
  exact (ERR_leaves_store t0 store (lit "BE|id|soon|3|xyz") H).
Defined.

(** X2.  A command touches no entry but that of the file identifier in
    its second field. *)
Theorem other_entries_untouched (now : float) (store : ChecksumStore)
    (data k : str) :
  nth 1 (split BAR (strip data)) [] <> k ->
  snd (process_data now store data) !! k = store !! k.
Proof.
  unfold process_data. intros Hk.
  destruct (split BAR (strip data)) as [|command rest]; [reflexivity|].
  destruct (bool_decide (command = lit "BE")
            && bool_decide (len (command :: rest) = 5%nat)).
  { destruct (_handle_store_command now store (command :: rest)) as [r store'] eqn:H.
    apply handle_store_cases in H
      as [[-> (t & c & ->)]|[[->|[e ->]] ->]]; cbn [fst snd]; try reflexivity.
    apply lookup_insert_ne. assumption. }
  destruct (bool_decide (command = lit "KI")
            && bool_decide (len (command :: rest) = 2%nat)); [|reflexivity].
  destruct (_handle_retrieve_command now store (command :: rest)) as [r store'] eqn:H.
  apply handle_retrieve_cases in H
    as [[-> [[e ->]|(n & cb & ->)]]|[-> ->]]; cbn [fst snd]; try reflexivity.
  apply lookup_delete_ne. assumption.
Qed.

Lemma other_entries_untouched_witness :
  let store : ChecksumStore := <[lit "a" := (t0, lit "abc")]> ∅ in
  nth 1 (split BAR (strip (lit "BE|b|60|3|xyz"))) [] <> lit "a"
  /\ snd (process_data t0 store (lit "BE|b|60|3|xyz")) !! lit "a"
     = store !! lit "a".
Proof.
  intros store.
  assert (H : nth 1 (split BAR (strip (lit "BE|b|60|3|xyz"))) [] <> lit "a")
    by (vm_compute; discriminate).
  split; [exact H|].
  exact (other_entries_untouched t0 store (lit "BE|b|60|3|xyz") (lit "a") H).
Defined.

Lemma process_data_store_ok (now : float) (store : ChecksumStore) (data : str)
    file_id expiry length checksum ttl d :
  split BAR (strip data) = [lit "BE"; file_id; expiry; length; checksum] ->
  int expiry = Some ttl -> float_of_int ttl = Return d ->
  process_data now store data
  = (OK, <[file_id := (float_add now d, checksum)]> store).
Proof.
  intros Hp Hi Hf. unfold process_data. rewrite Hp.
  rewrite (bool_decide_eq_true_2 _ eq_refl). simpl andb. cbv iota.
  rewrite (handle_store_ok now store _ file_id expiry length checksum ttl d Hi Hf).
  reflexivity.
Qed.

Lemma ERR_neq_OK : ERR <> OK.
Proof. vm_compute. discriminate. Qed.

Lemma NOT_FOUND_neq_OK : NOT_FOUND <> OK.
Proof. vm_compute. discriminate. Qed.

Local Ltac absurd_eq :=
  cbv beta iota; cbn [fst]; let E := fresh in
  intros E; first [destruct (ERR_neq_OK E) | destruct (NOT_FOUND_neq_OK E)].

(** X3.  The lines that are answered [OK] are exactly the lines of five
    fields that begin with [BE] and whose third field is an integer that
    fits in a float; such a line binds the second field to the fifth, with
    the expiry [now + ttl]. *)
Theorem OK_iff_stored (now : float) (store : ChecksumStore) (data : str) :
  (fst (process_data now store data) = OK <->
   exists file_id expiry length checksum ttl d,
     split BAR (strip data) = [lit "BE"; file_id; expiry; length; checksum]
     /\ int expiry = Some ttl /\ float_of_int ttl = Return d)
  /\ (forall file_id expiry length checksum ttl d,
      split BAR (strip data) = [lit "BE"; file_id; expiry; length; checksum] ->
      int expiry = Some ttl -> float_of_int ttl = Return d ->
      process_data now store data
      = (OK, <[file_id := (float_add now d, checksum)]> store)).
Proof.
  pose proof (process_data_store_ok now store data) as Hfwd.
  split; [|exact Hfwd]. split.
  - unfold process_data.
    destruct (split BAR (strip data)) as [|command rest] eqn:Hp; [absurd_eq|].
    destruct (bool_decide (command = lit "BE")
              && bool_decide (len (command :: rest) = 5%nat)) eqn:Hbe.
    + apply andb_true_iff in Hbe as [Hc Hl].
      apply bool_decide_eq_true in Hc, Hl. subst command.
      destruct rest as [|file_id [|expiry [|length [|checksum [|x r]]]]];
        try discriminate Hl.
      unfold _handle_store_command.
      destruct (int expiry) as [ttl|] eqn:Hi; simpl; [|absurd_eq].
      unfold float_add_int. destruct (float_of_int ttl) as [d|e] eqn:Hf; simpl.
      * intros _. exists file_id, expiry, length, checksum, ttl, d. auto.
      * pose proof (float_of_int_error _ _ Hf) as ->. simpl. absurd_eq.
    + destruct (bool_decide (command = lit "KI")
                && bool_decide (len (command :: rest) = 2%nat)); [|absurd_eq].
      destruct (_handle_retrieve_command now store (command :: rest)) as [r s'] eqn:H.
      apply handle_retrieve_cases in H
        as [[-> [[e ->]|(n & cb & ->)]]|[-> ->]]; try absurd_eq.
      cbn [fst]. intros E. symmetry in E. apply OK_not_found in E. destruct E.
  - intros (file_id & expiry & length & checksum & ttl & d & Hp & Hi & Hf).
    rewrite (Hfwd _ _ _ _ _ _ Hp Hi Hf). reflexivity.
Qed.

Lemma OK_iff_stored_witness :
  (split BAR (strip (lit " BE|f1|60|3|abc ")) = [lit "BE"; lit "f1"; lit "60"; lit "3"; lit "abc"]
   /\ int (lit "60") = Some 60%Z /\ float_of_int 60 = Return d60)
  /\ process_data t0 ∅ (lit " BE|f1|60|3|abc ")
     = (OK, <[lit "f1" := (float_add t0 d60, lit "abc")]> ∅).
Proof.
  assert (H1 : split BAR (strip (lit " BE|f1|60|3|abc "))
               = [lit "BE"; lit "f1"; lit "60"; lit "3"; lit "abc"]) by reflexivity.
  assert (H2 : int (lit "60") = Some 60%Z) by reflexivity.
  assert (H3 : float_of_int 60 = Return d60) by (vm_compute; reflexivity).
  split; [auto|].
  exact (proj2 (OK_iff_stored t0 ∅ (lit " BE|f1|60|3|abc ")) _ _ _ _ _ _ H1 H2 H3).
Defined.

(** X4.  Expiry is final: once a lookup has found the entry expired and
    removed it, every later lookup for that file identifier answers [0|],
    whatever the clock reads then, and changes nothing more. *)
Theorem expired_stays_gone (now now' : float) (store : ChecksumStore)
    (kw kw' file_id : str) (expiry_time : float) (checksum : str) :
  store !! file_id = Some (expiry_time, checksum) ->
  float_gt now expiry_time = true ->
  let store' := snd (_handle_retrieve_command now store [kw; file_id]) in
  store' = delete file_id store
  /\ _handle_retrieve_command now' store' [kw'; file_id]
     = (Return NOT_FOUND, store').
Proof.
  intros Hl Hg store'. subst store'.
  rewrite (handle_retrieve_expired now store kw file_id _ _ Hl Hg). cbn [snd].
  split; [reflexivity|]. apply handle_retrieve_missing, lookup_delete_eq.
Qed.

Lemma expired_stays_gone_witness :
  let store : ChecksumStore := <[lit "f1" := (t0, lit "abc")]> ∅ in
  let store' := snd (_handle_retrieve_command t60 store [lit "KI"; lit "f1"]) in
  (store !! lit "f1" = Some (t0, lit "abc") /\ float_gt t60 t0 = true)
  /\ store' = delete (lit "f1") store
  /\ _handle_retrieve_command t0 store' [lit "KI"; lit "f1"]
     = (Return NOT_FOUND, store').
Proof.
  intros store store'.
  assert (H1 : store !! lit "f1" = Some (t0, lit "abc")) by apply lookup_insert_eq.
  assert (H2 : float_gt t60 t0 = true) by reflexivity.
  split; [auto|].
  exact (expired_stays_gone t60 t0 store (lit "KI") (lit "KI") (lit "f1") t0 (lit "abc") H1 H2).
Defined.

Lemma float_add_zero_not_gt (now : float) :
  float_gt now (float_add now (S754_zero false)) = false.
Proof.
  destruct now as [s|s| |s m e]; try apply float_gt_irrefl.
  destruct s; reflexivity.
Qed.

(** X5.  A TTL of zero does not make an entry expired at the clock
    reading at which it was stored: the guard is the strict [>], so a
    lookup at that very reading still returns the hash. *)
Theorem zero_ttl_served (now : float) (store : ChecksumStore)
    (kw kw' file_id expiry length checksum : str) :
  int expiry = Some 0%Z -> is_text checksum = true ->
  let store' :=
    snd (_handle_store_command now store [kw; file_id; expiry; length; checksum]) in
  exists cb, utf8_encode checksum = Some cb
  /\ _handle_retrieve_command now store' [kw'; file_id]
     = (Return (found_response (len checksum) cb), store').
Proof.
  intros Hi Ht store'. subst store'.
  rewrite (handle_store_ok now store kw file_id expiry length checksum 0%Z
             (S754_zero false) Hi eq_refl). cbn [snd].
  destruct (is_text_encode _ Ht) as [cb Hcb]. exists cb. split; [assumption|].
  eapply handle_retrieve_live; [apply lookup_insert_eq| |assumption].
  apply float_add_zero_not_gt.
Qed.

Lemma zero_ttl_served_witness :
  let store' :=
    snd (_handle_store_command t0 ∅ [lit "BE"; lit "f1"; lit "0"; lit "3"; lit "abc"]) in
  (int (lit "0") = Some 0%Z /\ is_text (lit "abc") = true)
  /\ exists cb, utf8_encode (lit "abc") = Some cb
     /\ _handle_retrieve_command t0 store' [lit "KI"; lit "f1"]
        = (Return (found_response (len (lit "abc")) cb), store').
Proof.
  intros store'. split; [split; reflexivity|].
  exact (zero_ttl_served t0 ∅ (lit "BE") (lit "KI") (lit "f1") (lit "0") (lit "3")
           (lit "abc") eq_refl eq_refl).
Defined.

End RegistryMore.

(** ** The registry: lines and fields *)

Section LineFacts.
Import ChecksumServer Lifecycle Samples.
Local Open Scope N_scope.

Lemma lstrip_app_nonspace l x r :
  isspace x = false -> lstrip (l ++ x :: r) = lstrip l ++ x :: r.
Proof.
  intros Hx. induction l as [|c l IH]; simpl.
  - rewrite Hx. reflexivity.
  - destruct (isspace c); [exact IH|reflexivity].
Qed.

Lemma rstrip_app_nonspace a x b :
  isspace x = false -> rstrip (a ++ x :: b) = a ++ x :: rstrip b.
Proof.
  intros Hx. unfold rstrip.
  assert (E : rev (a ++ x :: b) = rev b ++ x :: rev a).
  { rewrite rev_app_distr. simpl. rewrite <- app_assoc. reflexivity. }
  rewrite E, lstrip_app_nonspace by assumption.
  rewrite rev_app_distr. simpl. rewrite rev_involutive, <- app_assoc. reflexivity.
Qed.

Lemma rstrip_In x s : In x (rstrip s) -> In x s.
Proof.
  unfold rstrip. intros H. apply in_rev, lstrip_In, in_rev in H. exact H.
Qed.

Lemma rstrip_nil : rstrip [] = [].
Proof. reflexivity. Qed.

Lemma rstrip_id s : no_trailing_space s -> rstrip s = s.
Proof.
  intros H. destruct (rev s) as [|c r] eqn:E.
  - apply (f_equal (@rev N)) in E. rewrite rev_involutive in E. subst s. reflexivity.
  - apply (f_equal (@rev N)) in E. rewrite rev_involutive in E. simpl in E.
    subst s. rewrite <- (app_nil_r (rev r ++ [c])), <- app_assoc. simpl app.
    rewrite rstrip_app_nonspace by (eapply H; reflexivity).
    rewrite rstrip_nil. reflexivity.
Qed.


Lemma lstrip_nonspace c r : isspace c = false -> lstrip (c :: r) = c :: r.
Proof. intros H. simpl. rewrite H. reflexivity. Qed.

Lemma strip_KI file_id : strip (lit "KI|" ++ file_id) = lit "KI|" ++ rstrip file_id.
Proof.
  unfold strip. change (lit "KI|" ++ file_id) with (75 :: 73 :: 124 :: file_id).
  rewrite lstrip_nonspace by reflexivity.
  apply (rstrip_app_nonspace [75; 73] 124 file_id). reflexivity.
Qed.

Lemma process_data_KI_line (now : float) (store : ChecksumStore) (file_id : str) :
  ~ In BAR file_id ->
  process_data now store (lit "KI|" ++ file_id)
  = (match fst (_handle_retrieve_command now store [lit "KI"; rstrip file_id]) with
     | Return response => response
     | Raise _ => ERR
     end,
     snd (_handle_retrieve_command now store [lit "KI"; rstrip file_id])).
Proof.
  intros Hb. unfold process_data. rewrite strip_KI.
  change (lit "KI|" ++ rstrip file_id) with (lit "KI" ++ BAR :: rstrip file_id).
  rewrite split_app by (unfold BAR; simpl; intuition discriminate).
  rewrite split_notin by (intros H; apply Hb, rstrip_In, H).
  change (bool_decide (lit "KI" = lit "BE")) with false.
  change (bool_decide (lit "KI" = lit "KI")) with true.
  change (bool_decide (len [lit "KI"; rstrip file_id] = 2%nat)) with true.
  cbv beta iota zeta. simpl andb. cbv iota.
  destruct (_handle_retrieve_command now store [lit "KI"; rstrip file_id]) as [[b|e] s'];
    reflexivity.
Qed.

(** X6.  A [KI] line is answered for the file identifier without the white
    space at its end: the whole line is stripped before it is split. *)
Theorem KI_line_key (now : float) (store : ChecksumStore) (file_id : str) :
  ~ In BAR file_id ->
  process_data now store (lit "KI|" ++ file_id)
  = (match fst (_handle_retrieve_command now store [lit "KI"; rstrip file_id]) with
     | Return response => response
     | Raise _ => ERR
     end,
     snd (_handle_retrieve_command now store [lit "KI"; rstrip file_id])).
Proof.
  intros Hb. unfold process_data. rewrite strip_KI.
  change (lit "KI|" ++ rstrip file_id) with (lit "KI" ++ BAR :: rstrip file_id).
  rewrite split_app by (unfold BAR; simpl; intuition discriminate).
  rewrite split_notin by (intros H; apply Hb, rstrip_In, H).
  change (bool_decide (lit "KI" = lit "BE")) with false.
  change (bool_decide (lit "KI" = lit "KI")) with true.
  change (bool_decide (len [lit "KI"; rstrip file_id] = 2%nat)) with true.
  cbv beta iota zeta. simpl andb. cbv iota.
  destruct (_handle_retrieve_command now store [lit "KI"; rstrip file_id]) as [[b|e] s'];
    reflexivity.
Qed.

Lemma KI_line_key_witness :
  ~ In BAR (lit "f1  ")
  /\ process_data t0 ∅ (lit "KI|f1  ")
     = (match fst (_handle_retrieve_command t0 ∅ [lit "KI"; rstrip (lit "f1  ")]) with
        | Return response => response
        | Raise _ => ERR
        end,
        snd (_handle_retrieve_command t0 ∅ [lit "KI"; rstrip (lit "f1  ")])).
Proof.
  assert (H : ~ In BAR (lit "f1  ")) by (vm_compute; intuition discriminate).
  split; [exact H|]. exact (KI_line_key t0 ∅ (lit "f1  ") H).
Defined.

Lemma strip_BE rest checksum :
  strip (lit "BE|" ++ rest ++ BAR :: checksum)
  = lit "BE|" ++ rest ++ BAR :: rstrip checksum.
Proof.
  unfold strip.
  change (lit "BE|" ++ rest ++ BAR :: checksum)
    with (66 :: 69 :: 124 :: rest ++ BAR :: checksum).
  rewrite lstrip_nonspace by reflexivity.
  apply (rstrip_app_nonspace (66 :: 69 :: 124 :: rest) BAR checksum). reflexivity.
Qed.

Lemma split_BE file_id expiry length checksum :
  ~ In BAR file_id -> ~ In BAR expiry -> ~ In BAR length -> ~ In BAR checksum ->
  split BAR (lit "BE" ++ BAR :: file_id ++ BAR :: expiry ++ BAR :: length
             ++ BAR :: checksum)
  = [lit "BE"; file_id; expiry; length; checksum].
Proof.
  intros H1 H2 H3 H4.
  rewrite (split_app BAR (lit "BE")) by (unfold BAR; simpl; intuition discriminate).
  rewrite (split_app BAR file_id) by assumption.
  rewrite (split_app BAR expiry) by assumption.
  rewrite (split_app BAR length) by assumption.
  rewrite split_notin by assumption. reflexivity.
Qed.

Lemma process_data_BE_line (now : float) (store : ChecksumStore)
    (file_id expiry length checksum : str) (ttl : Z) (d : float) :
  ~ In BAR file_id -> ~ In BAR expiry -> ~ In BAR length -> ~ In BAR checksum ->
  int expiry = Some ttl -> float_of_int ttl = Return d ->
  process_data now store
    (lit "BE|" ++ file_id ++ lit "|" ++ expiry ++ lit "|" ++ length
     ++ lit "|" ++ checksum)
  = (OK, <[file_id := (float_add now d, rstrip checksum)]> store).
Proof.
  intros H1 H2 H3 H4 Hi Hf.
  apply (process_data_store_ok now store _) with (expiry := expiry)
    (length := length) (ttl := ttl); try assumption.
  replace (lit "BE|" ++ file_id ++ lit "|" ++ expiry ++ lit "|" ++ length
           ++ lit "|" ++ checksum)
    with (lit "BE|" ++ (file_id ++ BAR :: expiry ++ BAR :: length) ++ BAR :: checksum)
    by (unfold BAR; simpl; repeat (rewrite <- app_assoc; simpl); reflexivity).
  rewrite strip_BE.
  replace (lit "BE|" ++ (file_id ++ BAR :: expiry ++ BAR :: length)
           ++ BAR :: rstrip checksum)
    with (lit "BE" ++ BAR :: file_id ++ BAR :: expiry ++ BAR :: length
          ++ BAR :: rstrip checksum)
    by (unfold BAR; simpl; repeat (rewrite <- app_assoc; simpl); reflexivity).
  apply split_BE; try assumption.
  intros H; apply H4, rstrip_In, H.
Qed.

(** X7.  A [BE] line whose four fields contain no bar and whose TTL is an
    integer that fits in a float is answered [OK]; it binds the file
    identifier as written to the hash without the white space at its
    end. *)
Theorem BE_line_stored (now : float) (store : ChecksumStore)
    (file_id expiry length checksum : str) (ttl : Z) (d : float) :
  ~ In BAR file_id -> ~ In BAR expiry -> ~ In BAR length -> ~ In BAR checksum ->
  int expiry = Some ttl -> float_of_int ttl = Return d ->
  process_data now store
    (lit "BE|" ++ file_id ++ lit "|" ++ expiry ++ lit "|" ++ length
     ++ lit "|" ++ checksum)
  = (OK, <[file_id := (float_add now d, rstrip checksum)]> store).
Proof.
  intros H1 H2 H3 H4 Hi Hf.
  apply (process_data_store_ok now store _) with (expiry := expiry)
    (length := length) (ttl := ttl); try assumption.
  replace (lit "BE|" ++ file_id ++ lit "|" ++ expiry ++ lit "|" ++ length
           ++ lit "|" ++ checksum)
    with (lit "BE|" ++ (file_id ++ BAR :: expiry ++ BAR :: length) ++ BAR :: checksum)
    by (unfold BAR; simpl; repeat (rewrite <- app_assoc; simpl); reflexivity).
  rewrite strip_BE.
  replace (lit "BE|" ++ (file_id ++ BAR :: expiry ++ BAR :: length)
           ++ BAR :: rstrip checksum)
    with (lit "BE" ++ BAR :: file_id ++ BAR :: expiry ++ BAR :: length
          ++ BAR :: rstrip checksum)
    by (unfold BAR; simpl; repeat (rewrite <- app_assoc; simpl); reflexivity).
  apply split_BE; try assumption.
  intros H; apply H4, rstrip_In, H.
Qed.

Lemma BE_line_stored_witness :
  (~ In BAR (lit "f1") /\ ~ In BAR (lit "60") /\ ~ In BAR (lit "3")
   /\ ~ In BAR (lit "abc ")
   /\ int (lit "60") = Some 60%Z /\ float_of_int 60 = Return d60)
  /\ process_data t0 ∅ (lit "BE|" ++ lit "f1" ++ lit "|" ++ lit "60" ++ lit "|"
                        ++ lit "3" ++ lit "|" ++ lit "abc ")
     = (OK, <[lit "f1" := (float_add t0 d60, rstrip (lit "abc "))]> ∅).
Proof.
  assert (H1 : ~ In BAR (lit "f1")) by (vm_compute; intuition discriminate).
  assert (H2 : ~ In BAR (lit "60")) by (vm_compute; intuition discriminate).
  assert (H3 : ~ In BAR (lit "3")) by (vm_compute; intuition discriminate).
  assert (H4 : ~ In BAR (lit "abc ")) by (vm_compute; intuition discriminate).
  assert (H5 : int (lit "60") = Some 60%Z) by reflexivity.
  assert (H6 : float_of_int 60 = Return d60) by (vm_compute; reflexivity).
  split; [auto 10|].
  exact (BE_line_stored t0 ∅ (lit "f1") (lit "60") (lit "3") (lit "abc ")
           60%Z d60 H1 H2 H3 H4 H5 H6).
Defined.

(** X8.  A file identifier that ends in white space can be stored but not
    retrieved: [BE] binds it as written, [KI] looks up the stripped
    name. *)
Theorem trailing_space_id_lost (now now' : float) (store : ChecksumStore)
    (file_id expiry length checksum : str) (ttl : Z) (d : float) :
  ~ In BAR file_id -> ~ In BAR expiry -> ~ In BAR length -> ~ In BAR checksum ->
  int expiry = Some ttl -> float_of_int ttl = Return d ->
  rstrip file_id <> file_id ->
  store !! rstrip file_id = None ->
  let store' :=
    snd (process_data now store
           (lit "BE|" ++ file_id ++ lit "|" ++ expiry ++ lit "|" ++ length
            ++ lit "|" ++ checksum)) in
  store' !! file_id = Some (float_add now d, rstrip checksum)
  /\ process_data now' store' (lit "KI|" ++ file_id) = (NOT_FOUND, store').
Proof.
  intros H1 H2 H3 H4 Hi Hf Hne Hnone store'. subst store'.
  rewrite (process_data_BE_line now store file_id expiry length checksum ttl d)
    by assumption.
  cbn [snd]. split; [apply lookup_insert_eq|].
  rewrite process_data_KI_line by assumption.
  rewrite handle_retrieve_missing; [reflexivity|].
  rewrite lookup_insert_ne by (intros E; apply Hne; symmetry; exact E).
  assumption.
Qed.

Lemma trailing_space_id_lost_witness :
  let put := lit "BE|" ++ lit "f1 " ++ lit "|" ++ lit "60" ++ lit "|" ++ lit "3"
             ++ lit "|" ++ lit "abc" in
  let store' := snd (process_data t0 ∅ put) in
  (rstrip (lit "f1 ") <> lit "f1 " /\ int (lit "60") = Some 60%Z)
  /\ store' !! lit "f1 " = Some (float_add t0 d60, rstrip (lit "abc"))
  /\ process_data t0 store' (lit "KI|" ++ lit "f1 ") = (NOT_FOUND, store').
Proof.
  intros put store'.
  assert (H1 : ~ In BAR (lit "f1 ")) by (vm_compute; intuition discriminate).
  assert (H2 : ~ In BAR (lit "60")) by (vm_compute; intuition discriminate).
  assert (H3 : ~ In BAR (lit "3")) by (vm_compute; intuition discriminate).
  assert (H4 : ~ In BAR (lit "abc")) by (vm_compute; intuition discriminate).
  assert (H5 : int (lit "60") = Some 60%Z) by reflexivity.
  assert (H6 : float_of_int 60 = Return d60) by (vm_compute; reflexivity).
  assert (H7 : rstrip (lit "f1 ") <> lit "f1 ") by (vm_compute; discriminate).
  split; [auto|].
  exact (trailing_space_id_lost t0 t0 ∅ (lit "f1 ") (lit "60") (lit "3") (lit "abc")
           60%Z d60 H1 H2 H3 H4 H5 H6 H7 (lookup_empty _)).
Defined.

End LineFacts.

(** ** The registry: one connection *)

Section ConnectionFacts.
Import ChecksumServer Samples.
Local Open Scope N_scope.

(** Joining what [split] gives back restores the text: the fields but the
    last, each with its separator, then the last. *)
Lemma split_join sep s :
  s = concat (List.map (fun l => l ++ [sep]) (removelast (split sep s)))
      ++ List.last (split sep s) [].
Proof.
  induction s as [|c s IH]; [reflexivity|].
  simpl split. destruct (N.eqb_spec c sep) as [->|Hne].
  - pose proof (split_nonempty sep s) as Hn.
    destruct (split sep s) as [|f fs] eqn:E; [congruence|].
    change (removelast ([] :: f :: fs)) with ([] :: removelast (f :: fs)).
    change (List.last ([] :: f :: fs) []) with (List.last (f :: fs) []).
    simpl. f_equal. exact IH.
  - pose proof (split_nonempty sep s) as Hn.
    destruct (split sep s) as [|f fs] eqn:E; [congruence|].
    destruct fs as [|g gs].
    + simpl in *. f_equal. exact IH.
    + change (removelast ((c :: f) :: g :: gs)) with ((c :: f) :: removelast (g :: gs)).
      change (List.last ((c :: f) :: g :: gs) []) with (List.last (g :: gs) []).
      change (removelast (f :: g :: gs)) with (f :: removelast (g :: gs)) in IH.
      change (List.last (f :: g :: gs) []) with (List.last (g :: gs) []) in IH.
      simpl in *. f_equal. exact IH.
Qed.

Lemma split_fields sep s f : In f (split sep s) -> ~ In sep f.
Proof.
  revert f. induction s as [|c s IH]; simpl; intros f.
  - intros [<-|[]] [].
  - destruct (N.eqb_spec c sep) as [->|Hne].
    + intros [<-|H]; [intros []|auto].
    + destruct (split sep s) as [|g gs] eqn:E.
      * intros [<-|[]] [->|[]]. congruence.
      * intros [<-|H].
        -- intros [->|Hin]; [congruence|]. apply (IH g); simpl; auto.
        -- apply IH. simpl. auto.
Qed.

Lemma in_removelast {A} (x : A) l : In x (removelast l) -> In x l.
Proof.
  induction l as [|a l IH]; simpl; [tauto|].
  destruct l as [|b l]; [intros []|]. intros [->|H]; [left; reflexivity|].
  right. apply IH. exact H.
Qed.

Lemma last_in {A} (l : list A) d : l <> [] -> In (List.last l d) l.
Proof.
  induction l as [|a l IH]; [congruence|]. intros _.
  destruct l as [|b l]; [left; reflexivity|]. right. apply IH. discriminate.
Qed.

(** The loop over the lines, when it runs to its end, has answered every
    line. *)
Lemma process_lines_length w i store lines sent store' :
  process_lines w i store lines = (sent, store', true) ->
  length sent = length lines.
Proof.
  revert i store sent store'. induction lines as [|line rest IH];
    intros i store sent store'; simpl.
  - intros [= <- <-]. reflexivity.
  - destruct (decode line) as [data|e]; [|discriminate].
    destruct (process_data (clock w i) store data) as [r s1].
    destruct (sendall_ok w i); [|discriminate].
    destruct (process_lines w (S i) s1 rest) as [[sent1 s2] ok] eqn:E.
    intros [= <- <- ->]. simpl. f_equal. eapply IH. exact E.
Qed.

(** X9.  Octets leave the buffer of a connection in whole lines only.
    When a read leaves the connection open, what is buffered plus what
    was read is a number of complete lines followed by the new buffer,
    the new buffer holds no complete line, and every one of those lines
    got exactly one response. *)
Theorem buffer_holds_partial_line (w : world) (store store' : ChecksumStore)
    (buffer data buffer' : bytes) (sent : list bytes) :
  _handle_client_data w store buffer (Return data) = (sent, Open buffer', store') ->
  ~ In LF buffer'
  /\ exists lines,
       buffer ++ data
       = concat (List.map (fun l => l ++ [LF]) lines) ++ buffer'
       /\ Forall (fun l => ~ In LF l) lines
       /\ length sent = length lines.
Proof.
  unfold _handle_client_data. destruct data as [|c data]; [discriminate|].
  destruct (contains LF (buffer ++ c :: data)) eqn:Hc.
  - destruct (process_lines w 0 store (removelast (split LF (buffer ++ c :: data))))
      as [[sent1 s1] [|]] eqn:E; [|discriminate].
    intros [= <- <- <-]. split.
    + apply (split_fields LF (buffer ++ c :: data)), last_in, split_nonempty.
    + exists (removelast (split LF (buffer ++ c :: data))).
      split; [apply split_join|]. split.
      * apply List.Forall_forall. intros l Hl.
        apply (split_fields LF (buffer ++ c :: data)), in_removelast, Hl.
      * eapply process_lines_length. exact E.
  - intros [= <- <- <-]. split.
    + intros Hin. apply contains_In in Hin. congruence.
    + exists []. split; [reflexivity|]. split; [constructor|reflexivity].
Qed.

Lemma buffer_holds_partial_line_witness :
  let chunk := lit "BE|f1|60|3|abc" ++ [LF] ++ lit "KI|f1" ++ [LF] ++ lit "KI|f" in
  let out := _handle_client_data registry_world ∅ [] (Return chunk) in
  out = (fst (fst out), Open (lit "KI|f"), snd out)
  /\ ~ In LF (lit "KI|f")
  /\ exists lines,
       [] ++ chunk = concat (List.map (fun l => l ++ [LF]) lines) ++ lit "KI|f"
       /\ Forall (fun l => ~ In LF l) lines
       /\ length (fst (fst out)) = length lines.
Proof.
  intros chunk out.
  assert (H : out = (fst (fst out), Open (lit "KI|f"), snd out))
    by (vm_compute; reflexivity).
  split; [exact H|].
  exact (buffer_holds_partial_line registry_world ∅ (snd out) [] chunk
           (lit "KI|f") (fst (fst out)) H).
Defined.

(** X10.  A line that arrives in two reads is answered as if it had
    arrived in one: the first read sends nothing, changes nothing and
    buffers the fragment; the second gives what the whole line gives. *)
Theorem fragmented_line (w w1 : world) (store : ChecksumStore)
    (frag1 frag2 line : bytes) :
  frag1 <> [] -> frag2 <> [] ->
  frag1 ++ frag2 = line ++ [LF] -> ~ In LF line ->
  _handle_client_data w1 store [] (Return frag1) = ([], Open frag1, store)
  /\ _handle_client_data w store frag1 (Return frag2)
     = _handle_client_data w store [] (Return (line ++ [LF])).
Proof.
  intros H1 H2 E Hl.
  destruct (exists_last H2) as (f2 & y & ->).
  rewrite app_assoc in E. apply app_inj_tail in E as [E ->].
  assert (Hf1 : ~ In LF frag1).
  { intros Hin. apply Hl. rewrite <- E. apply in_app_iff. auto. }
  split.
  - unfold _handle_client_data. destruct frag1 as [|c frag1]; [congruence|].
    simpl app.
    destruct (contains LF (c :: frag1)) eqn:Hc; [|reflexivity].
    apply contains_In in Hc. tauto.
  - unfold _handle_client_data.
    destruct (f2 ++ [LF]) as [|c r] eqn:E2; [destruct f2; discriminate|].
    rewrite <- E2, app_assoc, E. simpl app.
    destruct (line ++ [LF]) as [|c' r'] eqn:E3; [destruct line; discriminate|].
    reflexivity.
Qed.

Lemma fragmented_line_witness :
  let store : ChecksumStore := <[lit "f1" := (t60, lit "abc")]> ∅ in
  (lit "KI" <> [] /\ lit "|f1" ++ [LF] <> []
   /\ lit "KI" ++ (lit "|f1" ++ [LF]) = lit "KI|f1" ++ [LF]
   /\ ~ In LF (lit "KI|f1"))
  /\ _handle_client_data registry_world store [] (Return (lit "KI"))
     = ([], Open (lit "KI"), store)
  /\ _handle_client_data registry_world store (lit "KI") (Return (lit "|f1" ++ [LF]))
     = _handle_client_data registry_world store [] (Return (lit "KI|f1" ++ [LF])).
Proof.
  intros store.
  assert (H1 : lit "KI" <> []) by discriminate.
  assert (H2 : lit "|f1" ++ [LF] <> []) by discriminate.
  assert (H3 : lit "KI" ++ (lit "|f1" ++ [LF]) = lit "KI|f1" ++ [LF]) by reflexivity.
  assert (H4 : ~ In LF (lit "KI|f1")) by (vm_compute; intuition discriminate).
  split; [auto|].
  exact (fragmented_line registry_world registry_world store (lit "KI")
           (lit "|f1" ++ [LF]) (lit "KI|f1") H1 H2 H3 H4).
Defined.

Lemma process_lines_good w i store lines :
  reachable store -> Forall (fun l => ~ In LF l) lines ->
  Forall (fun r => is_response r /\ r <> [] /\ ~ In LF r)
         (fst (fst (process_lines w i store lines)))
  /\ reachable (snd (fst (process_lines w i store lines))).
Proof.
  intros Hr Hl. revert i store Hr.
  induction Hl as [|line rest Hline _ IH]; intros i store Hr; simpl.
  - split; [constructor|assumption].
  - unfold decode. destruct (utf8_decode line) as [data|] eqn:Hd; simpl;
      [|split; [constructor|assumption]].
    assert (Hdata : ~ In LF data).
    { intros Hin. apply Hline. eapply utf8_decode_In; eauto. unfold LF. lia. }
    pose proof (process_data_text (clock w i) store data Hdata
                  (reachable_single_line _ Hr)) as (Hr1 & Hr2 & Hr3 & _).
    assert (Hresp := conj Hr1 (conj Hr2 Hr3)). clear Hr1 Hr2 Hr3.
    pose proof (reachable_step (clock w i) store data Hr Hdata) as Hr'.
    destruct (process_data (clock w i) store data) as [r s1]. cbn [fst snd] in *.
    destruct (sendall_ok w i); simpl; [|split; [constructor|assumption]].
    specialize (IH (S i) s1 Hr').
    destruct (process_lines w (S i) s1 rest) as [[sent s2] ok]. cbn [fst snd] in *.
    destruct IH as [IH1 IH2]. split; [constructor; assumption|assumption].
Qed.

(** X11.  Whatever arrives on a connection, and whatever the network
    does, every response that is sent is [OK], [ERR] or [<int>|<string>],
    is not empty and has no line terminator in it; and the store stays
    one the service can reach by processing lines. *)
Theorem connection_responses (w : world) (store : ChecksumStore)
    (buffer : bytes) (recv : result bytes) :
  reachable store ->
  Forall (fun r => is_response r /\ r <> [] /\ ~ In LF r)
         (fst (fst (_handle_client_data w store buffer recv)))
  /\ reachable (snd (_handle_client_data w store buffer recv)).
Proof.
  intros Hr. unfold _handle_client_data.
  destruct recv as [[|c data]|e]; try (split; [constructor|assumption]).
  destruct (contains LF (buffer ++ c :: data)); [|split; [constructor|assumption]].
  assert (Hl : Forall (fun l => ~ In LF l)
                 (removelast (split LF (buffer ++ c :: data)))).
  { apply List.Forall_forall. intros l Hin.
    apply (split_fields LF (buffer ++ c :: data)), in_removelast, Hin. }
  pose proof (process_lines_good w 0 store _ Hr Hl) as [H1 H2].
  destruct (process_lines w 0 store (removelast (split LF (buffer ++ c :: data))))
    as [[sent s1] [|]]; cbn [fst snd] in *; split; assumption.
Qed.

Lemma connection_responses_witness :
  let chunk := lit "BE|f1|60|3|abc" ++ [LF] ++ lit "KI|f1" ++ [LF] in
  reachable ∅
  /\ Forall (fun r => is_response r /\ r <> [] /\ ~ In LF r)
       (fst (fst (_handle_client_data registry_world ∅ [] (Return chunk))))
  /\ reachable (snd (_handle_client_data registry_world ∅ [] (Return chunk))).
Proof.
  intros chunk. split; [apply reachable_start|].
  exact (connection_responses registry_world ∅ [] (Return chunk) reachable_start).
Defined.

Lemma process_lines_stops w store good bad rest :
  utf8_decode bad = None ->
  forall i sent store',
  process_lines w i store good = (sent, store', true) ->
  process_lines w i store (good ++ bad :: rest) = (sent, store', false).
Proof.
  intros Hb. revert store. induction good as [|line good IH];
    intros store i sent store'; simpl.
  - intros [= <- <-]. unfold decode. rewrite Hb. reflexivity.
  - destruct (decode line) as [data|e]; [|discriminate].
    destruct (process_data (clock w i) store data) as [r s1].
    destruct (sendall_ok w i); [|discriminate].
    destruct (process_lines w (S i) s1 good) as [[sent1 s2] ok] eqn:E.
    intros [= <- <- ->]. rewrite (IH s1 (S i) sent1 s2 E). reflexivity.
Qed.

(** X12.  A line that is not valid UTF-8 closes the connection, but what
    the lines before it in the same read did stays done: their responses
    have been sent and their changes to the store are kept; the lines
    after it are never looked at. *)
Theorem undecodable_line_closes (w : world) (store store' : ChecksumStore)
    (buffer data : bytes) (good rest : list bytes) (bad : bytes)
    (sent : list bytes) :
  data <> [] ->
  removelast (split LF (buffer ++ data)) = good ++ bad :: rest ->
  utf8_decode bad = None ->
  process_lines w 0 store good = (sent, store', true) ->
  _handle_client_data w store buffer (Return data) = (sent, Closed, store').
Proof.
  intros Hd Hs Hb Hg. unfold _handle_client_data.
  destruct data as [|c data]; [congruence|].
  destruct (contains LF (buffer ++ c :: data)) eqn:Hc.
  - rewrite Hs, (process_lines_stops w store good bad rest Hb 0 sent store' Hg).
    reflexivity.
  - assert (Hn : ~ In LF (buffer ++ c :: data)).
    { intros Hin. apply contains_In in Hin. congruence. }
    rewrite (split_notin _ _ Hn) in Hs. simpl in Hs. destruct good; discriminate.
Qed.

Lemma undecodable_line_closes_witness :
  let data := lit "BE|f1|60|3|abc" ++ [LF] ++ [0xFF] ++ [LF] ++ lit "KI|f1" ++ [LF] in
  let store' := snd (process_data t0 ∅ (lit "BE|f1|60|3|abc")) in
  (data <> []
   /\ removelast (split LF ([] ++ data))
      = [lit "BE|f1|60|3|abc"] ++ [0xFF] :: [lit "KI|f1"]
   /\ utf8_decode [0xFF] = None
   /\ process_lines registry_world 0 ∅ [lit "BE|f1|60|3|abc"] = ([OK], store', true))
  /\ _handle_client_data registry_world ∅ [] (Return data) = ([OK], Closed, store').
Proof.
  intros data store'.
  assert (H1 : data <> []) by discriminate.
  assert (H2 : removelast (split LF ([] ++ data))
               = [lit "BE|f1|60|3|abc"] ++ [0xFF] :: [lit "KI|f1"]) by reflexivity.
  assert (H3 : utf8_decode [0xFF] = None) by reflexivity.
  assert (H4 : process_lines registry_world 0 ∅ [lit "BE|f1|60|3|abc"]
               = ([OK], store', true)) by (vm_compute; reflexivity).
  split; [auto|].
  exact (undecodable_line_closes registry_world ∅ store' [] data
           [lit "BE|f1|60|3|abc"] [lit "KI|f1"] [0xFF] [OK] H1 H2 H3 H4).
Defined.

End ConnectionFacts.

(** ** [int] and [str] of a length *)

Section IntFacts.
Import Lifecycle.
Local Open Scope N_scope.

Lemma is_digit_range c : 48 <= c <= 57 -> is_digit c = true.
Proof. unfold is_digit. lia. Qed.


Lemma scan_digits_all l : forall acc n,
  l <> [] -> Forall (fun c => 48 <= c <= 57) l ->
  scan_digits l acc n
  = Some (fold_left digit_step l acc, (n + length l)%nat, []).
Proof.
  induction l as [|c l IH]; intros acc n Hne Hd; [congruence|].
  inversion Hd as [|? ? Hc Hl]; subst.
  destruct l as [|d l'].
  - simpl. rewrite (is_digit_range c Hc). simpl. repeat f_equal. lia.
  - inversion Hl as [|? ? Hd' _]; subst.
    change (scan_digits (c :: d :: l') acc n)
      with (if is_digit c then
              let acc' := (10 * acc + Z.of_N (c - 48))%Z in
              if is_digit d then scan_digits (d :: l') acc' (S n)
              else if d =? 95 then
                match l' with
                | d' :: _ => if is_digit d' then scan_digits l' acc' (S n) else None
                | [] => None
                end
              else Some (acc', S n, d :: l')
            else None).
    rewrite (is_digit_range c Hc), (is_digit_range d Hd'). cbv zeta.
    rewrite IH by (congruence || assumption).
    simpl. repeat f_equal. lia.
Qed.

Lemma fold_uint_digits u : forall acc,
  fold_left digit_step (uint_digits u) (Z.of_nat acc)
  = Z.of_nat (Nat.of_uint_acc u acc).
Proof.
  induction u; intros acc; simpl; [reflexivity|..];
    rewrite <- IHu; f_equal; unfold digit_step;
    rewrite Nat.tail_mul_spec; lia.
Qed.

Lemma uint_digits_nil u : uint_digits u = [] -> u = Decimal.Nil.
Proof. destruct u; simpl; congruence. Qed.

Lemma map_to_ascii_digits l :
  Forall (fun c => 48 <= c <= 57) l -> List.map to_ascii l = l.
Proof.
  induction 1 as [|c l Hc _ IH]; simpl; [reflexivity|].
  rewrite IH. unfold to_ascii. replace (c <? 128) with true by lia. reflexivity.
Qed.

Lemma str_of_nat_digits n : Forall (fun c => 48 <= c <= 57) (str_of_nat n).
Proof. apply List.Forall_forall. intros x. apply str_of_nat_In. Qed.

Lemma str_of_nat_nonempty n : str_of_nat n <> [].
Proof.
  unfold str_of_nat. intros H. apply uint_digits_nil in H.
  pose proof (Unsigned.to_of (Nat.to_uint n)) as E.
  rewrite Unsigned.of_to, H in E. discriminate E.
Qed.

(** [int(str(n)) == n], as long as [n] has no more digits than [int]
    accepts. *)
Lemma int_str_of_nat n :
  (length (str_of_nat n) <= int_max_str_digits)%nat ->
  int (str_of_nat n) = Some (Z.of_nat n).
Proof.
  intros Hlen. pose proof (str_of_nat_digits n) as Hd.
  pose proof (str_of_nat_nonempty n) as Hne.
  assert (Hv : fold_left digit_step (str_of_nat n) 0%Z = Z.of_nat n).
  { unfold str_of_nat. change 0%Z with (Z.of_nat 0).
    rewrite (fold_uint_digits (Nat.to_uint n) 0).
    change (Nat.of_uint_acc (Nat.to_uint n) 0) with (Nat.of_uint (Nat.to_uint n)).
    rewrite Unsigned.of_to. reflexivity. }
  unfold int. rewrite (map_to_ascii_digits _ Hd).
  destruct (str_of_nat n) as [|c l] eqn:E; [congruence|].
  inversion Hd as [|? ? Hc Hl]; subst.
  assert (Hsp : skip_space (c :: l) = c :: l).
  { simpl. unfold c_isspace. replace ((9 <=? c) && (c <=? 13) || (c =? 32)) with false by lia.
    reflexivity. }
  rewrite Hsp.
  assert (Hsign : (match c :: l with
                   | 43 :: r => (false, r)
                   | 45 :: r => (true, r)
                   | _ => (false, c :: l)
                   end) = (false, c :: l)).
  { destruct (N.eq_dec c 43) as [->|H43]; [lia|].
    destruct (N.eq_dec c 45) as [->|H45]; [lia|].
    destruct c as [|p]; [reflexivity|].
    do 6 (destruct p as [p|p|]; try reflexivity); try lia; destruct p; reflexivity. }
  rewrite Hsign.
  rewrite (scan_digits_all (c :: l) 0%Z 0%nat) by (congruence || assumption).
  rewrite Hv. simpl skip_space. cbv iota.
  replace ((0 + length (c :: l) <=? int_max_str_digits)%nat) with true
    by (symmetry; apply Nat.leb_le; simpl in *; lia).
  reflexivity.
Qed.

End IntFacts.

(** ** The registry: many connections *)

Section MultiplexerFacts.
Import ChecksumServer Multiplexer Samples.

Lemma list_remove_In x l : In x l -> exists l', list_remove x l = Some l'.
Proof.
  induction l as [|y l IH]; simpl; [tauto|].
  destruct (Nat.eqb_spec y x) as [->|Hne]; [eauto|].
  intros [->|H]; [congruence|]. destruct (IH H) as [l' ->]. eauto.
Qed.

Lemma list_remove_other x l l' y :
  list_remove x l = Some l' -> y <> x -> (In y l' <-> In y l).
Proof.
  revert l'. induction l as [|z l IH]; simpl; intros l'; [discriminate|].
  destruct (Nat.eqb_spec z x) as [->|Hne].
  - intros [= <-] Hy. simpl. intuition congruence.
  - destruct (list_remove x l) as [r|]; [|discriminate].
    intros [= <-] Hy. simpl. rewrite (IH r eq_refl Hy). reflexivity.
Qed.

Lemma list_remove_NoDup x l l' :
  list_remove x l = Some l' -> List.NoDup l -> List.NoDup l' /\ ~ In x l'.
Proof.
  revert l'. induction l as [|z l IH]; simpl; intros l'; [discriminate|].
  destruct (Nat.eqb_spec z x) as [->|Hne].
  - intros [= <-] Hn. apply List.NoDup_cons_iff in Hn. tauto.
  - destruct (list_remove x l) as [r|] eqn:E; [|discriminate].
    intros [= <-] Hn. apply List.NoDup_cons_iff in Hn as [Hz Hn].
    destruct (IH r eq_refl Hn) as [Hr Hx]. split.
    + apply List.NoDup_cons_iff. split; [|assumption].
      intros Hin. apply Hz. apply (list_remove_other x l r z E); congruence.
    + simpl. intuition congruence.
Qed.

Lemma close_other srv sock other :
  other <> sock ->
  connections (_close_connection srv sock) !! other = connections srv !! other
  /\ (In other (inputs (_close_connection srv sock)) <-> In other (inputs srv)).
Proof.
  intros Hne. unfold _close_connection.
  destruct (list_remove sock (inputs srv)) as [l'|] eqn:E; simpl; [|tauto].
  split; [apply lookup_delete_ne; congruence|].
  apply (list_remove_other sock _ _ other E Hne).
Qed.

(** X13.  What happens on one connection leaves the others alone: their
    buffers are as they were, and they stay among the sockets that are
    watched. *)
Theorem other_connections_untouched (w : world) (srv : server)
    (sock other : nat) (recv : result bytes) :
  other <> sock ->
  let srv' := snd (_handle_client_data w srv sock recv) in
  connections srv' !! other = connections srv !! other
  /\ (In other (inputs srv') <-> In other (inputs srv))
  /\ socket srv' = socket srv.
Proof.
  intros Hne srv'. subst srv'. unfold _handle_client_data.
  assert (Hclose : forall s : server,
             socket (_close_connection s sock) = socket s).
  { intros s. unfold _close_connection.
    destruct (list_remove sock (inputs s)); reflexivity. }
  destruct recv as [[|c data]|e]; cbn [snd];
    try (destruct (close_other srv sock other Hne) as [H1 H2];
         split; [exact H1|split; [exact H2|apply Hclose]]).
  destruct (connections srv !! sock) as [buffer|] eqn:Hb; cbn [snd];
    [|destruct (close_other srv sock other Hne) as [H1 H2];
      split; [exact H1|split; [exact H2|apply Hclose]]].
  destruct (ChecksumServer._handle_client_data w (checksums_store srv) buffer
              (Return (c :: data))) as [[sent [b|]] store']; cbn [snd].
  - simpl. split; [apply lookup_insert_ne; congruence|]. split; [tauto|reflexivity].
  - match goal with
    | |- context [_close_connection ?s sock] =>
      destruct (close_other s sock other Hne) as [H1 H2];
      rewrite H1, H2, (Hclose s)
    end. simpl.
    split; [apply lookup_insert_ne; congruence|]. split; [tauto|reflexivity].
Qed.

Lemma other_connections_untouched_witness :
  let srv := _handle_new_connection
               (_handle_new_connection (started 0) (Return 1%nat)) (Return 2%nat) in
  let srv' := snd (_handle_client_data registry_world srv 1 (Return (lit "KI|f"))) in
  2%nat <> 1%nat
  /\ connections srv' !! 2%nat = connections srv !! 2%nat
  /\ (In 2%nat (inputs srv') <-> In 2%nat (inputs srv))
  /\ socket srv' = socket srv.
Proof.
  intros srv srv'.
  assert (H : 2%nat <> 1%nat) by discriminate.
  split; [exact H|].
  exact (other_connections_untouched registry_world srv 1 2 (Return (lit "KI|f")) H).
Defined.

Lemma close_consistent srv sock :
  List.NoDup (inputs srv) -> In (socket srv) (inputs srv) ->
  In sock (inputs srv) -> sock <> socket srv ->
  (forall s, s <> sock ->
     (is_Some (connections srv !! s) <-> In s (inputs srv) /\ s <> socket srv)) ->
  consistent (_close_connection srv sock)
  /\ ~ In sock (inputs (_close_connection srv sock))
  /\ connections (_close_connection srv sock) !! sock = None.
Proof.
  intros Hn Hl Hin Hne Hb. unfold _close_connection.
  destruct (list_remove_In sock _ Hin) as [l' E]. rewrite E.
  destruct (list_remove_NoDup _ _ _ E Hn) as [Hn' Hx].
  unfold consistent. simpl. split; [|split; [assumption|apply lookup_delete_eq]].
  split; [assumption|]. split.
  - apply (list_remove_other sock _ _ (socket srv) E); congruence.
  - intros s. destruct (Nat.eq_dec s sock) as [->|Hs].
    + rewrite lookup_delete_eq. split; [intros [x Hx']; discriminate|tauto].
    + rewrite lookup_delete_ne by congruence.
      rewrite (list_remove_other sock _ _ s E Hs). apply Hb. assumption.
Qed.

(** X14.  One step of the loop keeps the books in order: as long as
    [accept] hands out a socket that is not already watched, the watched
    sockets stay free of duplicates, the listening socket stays among
    them, and the sockets with a buffer are exactly the watched clients. *)
Theorem serve_one_consistent (srv : server) (sock : nat) (o : outside) :
  consistent srv -> In sock (inputs srv) ->
  (forall conn, accepted o = Return conn -> ~ In conn (inputs srv)) ->
  consistent (snd (serve_one srv sock o)).
Proof.
  intros (Hn & Hl & Hb) Hin Hfresh. unfold serve_one.
  destruct (Nat.eqb_spec sock (socket srv)) as [->|Hne]; cbn [snd].
  - unfold _handle_new_connection.
    destruct (accepted o) as [conn|e] eqn:Ha; [|exact (conj Hn (conj Hl Hb))].
    specialize (Hfresh conn eq_refl).
    unfold consistent. simpl. split; [|split].
    + apply List.NoDup_app; [assumption| |].
      * apply List.NoDup_cons_iff. split; [simpl; tauto|constructor].
      * intros x Hx [->|[]]. tauto.
    + apply in_app_iff. auto.
    + intros s. rewrite in_app_iff. simpl.
      destruct (Nat.eq_dec conn s) as [->|Hs].
      * rewrite lookup_insert_eq. split; [|eauto].
        intros _. split; [auto|]. intros ->. tauto.
      * rewrite lookup_insert_ne by assumption. rewrite Hb. intuition congruence.
  - unfold _handle_client_data.
    assert (Hclose : forall s : server,
               inputs s = inputs srv -> socket s = socket srv ->
               (forall x, x <> sock -> connections s !! x = connections srv !! x) ->
               consistent (_close_connection s sock)).
    { intros s Hi Hs Hc. apply close_consistent.
      - rewrite Hi. assumption.
      - rewrite Hi, Hs. assumption.
      - rewrite Hi. assumption.
      - rewrite Hs. assumption.
      - intros x Hx. rewrite Hi, Hs, (Hc x Hx). apply Hb. }
    destruct (received o) as [[|c data]|e]; cbn [snd];
      try (apply Hclose; reflexivity).
    destruct (connections srv !! sock) as [buffer|] eqn:Hbuf; cbn [snd];
      [|apply Hclose; reflexivity].
    destruct (ChecksumServer._handle_client_data (conn_world o) (checksums_store srv)
                buffer (Return (c :: data))) as [[sent [b|]] store']; cbn [snd].
    + unfold consistent. simpl. split; [assumption|]. split; [assumption|].
      intros s. destruct (Nat.eq_dec sock s) as [->|Hs].
      * rewrite lookup_insert_eq. split; [intros _; auto|eauto].
      * rewrite lookup_insert_ne by assumption. apply Hb.
    + apply Hclose; try reflexivity.
      intros x Hx. simpl. apply lookup_insert_ne. congruence.
Qed.

Lemma serve_one_consistent_witness :
  let srv := _handle_new_connection (started 0) (Return 1%nat) in
  let o := {| accepted := Return 2%nat; conn_world := registry_world;
              received := Return [] |} in
  consistent srv
  /\ consistent (snd (serve_one srv 0 o))
  /\ consistent (snd (serve_one srv 1 o)).
Proof.
  intros srv o.
  assert (H0 : consistent (started 0)).
  { unfold consistent, started. simpl. split; [repeat constructor; simpl; tauto|].
    split; [auto|]. intros s. rewrite lookup_empty.
    split; [intros [x Hx]; discriminate|intros [[->|[]] H]; congruence]. }
  assert (H1 : consistent srv).
  { apply (serve_one_consistent (started 0) 0
             {| accepted := Return 1%nat; conn_world := registry_world;
                received := Return [] |} H0).
    - simpl. auto.
    - intros conn [= <-]. simpl. intuition discriminate. }
  split; [exact H1|]. split.
  - apply (serve_one_consistent srv 0 o H1); [simpl; auto|].
    intros conn [= <-]. simpl. intuition discriminate.
  - apply (serve_one_consistent srv 1 o H1); [simpl; auto|].
    intros conn [= <-]. simpl. intuition discriminate.
Defined.

(** X15.  When the peer closes (a zero-length read) or the read fails,
    the connection leaves nothing behind: it is no longer watched, its
    buffer is gone with whatever partial line was in it, nothing is sent,
    and the store is as it was. *)
Theorem closed_connection_forgotten (w : world) (srv : server) (sock : nat)
    (recv : result bytes) :
  consistent srv -> In sock (inputs srv) -> sock <> socket srv ->
  recv = Return [] \/ (exists e, recv = Raise e) ->
  let out := _handle_client_data w srv sock recv in
  fst out = []
  /\ ~ In sock (inputs (snd out))
  /\ connections (snd out) !! sock = None
  /\ checksums_store (snd out) = checksums_store srv
  /\ consistent (snd out).
Proof.
  intros (Hn & Hl & Hb) Hin Hne Hrecv out. subst out.
  assert (E : _handle_client_data w srv sock recv = ([], _close_connection srv sock)).
  { destruct Hrecv as [->|[e ->]]; reflexivity. }
  rewrite E. cbn [fst snd].
  destruct (close_consistent srv sock Hn Hl Hin Hne (fun s _ => Hb s)) as (H1 & H2 & H3).
  split; [reflexivity|]. split; [assumption|]. split; [assumption|].
  split; [|assumption].
  unfold _close_connection. destruct (list_remove sock (inputs srv)); reflexivity.
Qed.

Lemma closed_connection_forgotten_witness :
  let srv := with_buffer (_handle_new_connection (started 0) (Return 1%nat))
               1 (lit "KI|f") in
  let out := _handle_client_data registry_world srv 1 (Return []) in
  (In 1%nat (inputs srv) /\ 1%nat <> socket srv)
  /\ fst out = []
  /\ ~ In 1%nat (inputs (snd out))
  /\ connections (snd out) !! 1%nat = None
  /\ checksums_store (snd out) = checksums_store srv
  /\ consistent (snd out).
Proof.
  intros srv out.
  assert (Hc : consistent srv).
  { unfold consistent, srv. simpl. split; [repeat constructor; simpl; intuition discriminate|].
    split; [auto|]. intros s. rewrite insert_insert_eq.
    destruct (Nat.eq_dec 1 s) as [<-|Hs].
    - rewrite lookup_insert_eq. split; [intros _; split; [auto|discriminate]|eauto].
    - rewrite lookup_insert_ne, lookup_empty by assumption.
      split; [intros [x Hx]; discriminate|intros [[<-|[<-|[]]] H]; congruence]. }
  assert (H1 : In 1%nat (inputs srv)) by (simpl; auto).
  assert (H2 : 1%nat <> socket srv) by discriminate.
  split; [auto|].
  exact (closed_connection_forgotten registry_world srv 1 (Return []) Hc H1 H2
           (or_introl eq_refl)).
Defined.

End MultiplexerFacts.

(** ** The sender and the receiver: what their runs leave behind *)

Section TraceFacts.
Import IO Lifecycle.

Lemma count_app p a b : count p (a ++ b) = (count p a + count p b)%nat.
Proof. unfold count. rewrite List.filter_app, length_app. reflexivity. Qed.

Lemma count_cons p e t :
  count p (e :: t) = ((if p e then 1 else 0) + count p t)%nat.
Proof. unfold count. simpl. destruct (p e); reflexivity. Qed.

Lemma count_nil p : count p [] = 0%nat.
Proof. reflexivity. Qed.

(** A trace is balanced when every socket and every file that came into
    being in it was closed in it. *)
Lemma quiet_count p t : quiet p t = true -> count p t = 0%nat.
Proof.
  induction t as [|e t IH]; [reflexivity|]. simpl. rewrite count_cons.
  intros H. apply andb_true_iff in H as [He Ht].
  destruct (p e); [discriminate|]. rewrite (IH Ht). reflexivity.
Qed.

Lemma balanced_app a b : balanced a -> balanced b -> balanced (a ++ b).
Proof.
  intros [Ha1 Ha2] [Hb1 Hb2]. split; [intros s|]; rewrite !count_app; auto.
Qed.

Lemma balanced_print x : balanced [Print x].
Proof. split; [intros s|]; reflexivity. Qed.

End TraceFacts.

Section SenderMore.
Import IO FileTransferClient Lifecycle Samples.
Context {md5 : HashAlgorithm}.

Lemma md5_loop_count p f k cs h :
  (forall c, p (Read c) = false) -> (forall c, p (Update c) = false) ->
  count p (snd (md5_loop f k cs h)) = 0%nat.
Proof.
  intros H1 H2. revert k h. induction cs as [|c cs IH]; intros k h; simpl;
    destruct (bool_decide _); simpl; try (rewrite count_cons, H1; reflexivity).
  specialize (IH (S k) (hash_update h c)).
  destruct (md5_loop f (S k) cs (hash_update h c)) as [r t]. simpl in *.
  rewrite !count_cons, H1, H2, IH. reflexivity.
Qed.

Lemma send_loop_count p w f k cs :
  (forall c, p (Read c) = false) -> (forall s c ok, p (SendAll s c ok) = false) ->
  count p (snd (send_loop w f k cs)) = 0%nat.
Proof.
  intros H1 H2. revert k. induction cs as [|c cs IH]; intros k; simpl;
    destruct (bool_decide _); simpl; try (rewrite count_cons, H1; reflexivity).
  destruct (srv_sendall_ok w k); simpl;
    [|rewrite !count_cons, H1, H2; reflexivity].
  specialize (IH (S k)). destruct (send_loop w f (S k) cs) as [ok t]. simpl in *.
  rewrite !count_cons, H1, H2, IH. reflexivity.
Qed.

Lemma send_loop_prefix w f k cs :
  exists rest, concat cs = sent_on SrvSock (snd (send_loop w f k cs)) ++ rest.
Proof.
  revert k. induction cs as [|c cs IH]; intros k; simpl;
    destruct (bool_decide _); simpl; try (eexists; reflexivity).
  destruct (srv_sendall_ok w k); simpl; [|eexists; reflexivity].
  destruct (IH (S k)) as [rest Hrest].
  destruct (send_loop w f (S k) cs) as [ok t]. simpl in *.
  exists rest. rewrite Hrest, app_assoc. reflexivity.
Qed.

Lemma send_file_prefix w :
  (forall f, send_open w = Return f ->
     exists rest, content f = sent_on SrvSock (snd (send_file w)) ++ rest)
  /\ (forall e, send_open w = Raise e -> sent_on SrvSock (snd (send_file w)) = []).
Proof.
  unfold send_file. destruct (srv_connect_ok w); simpl.
  2:{ split; [intros f _; eexists; reflexivity|reflexivity]. }
  destruct (send_open w) as [f|e]; [|split; [discriminate|reflexivity]].
  split; [|discriminate]. intros f' [= <-].
  destruct (send_loop_prefix w f 0 (chunks CHUNK_SIZE (content f))) as [rest Hrest].
  rewrite chunks_concat in Hrest by (unfold CHUNK_SIZE; lia).
  destruct (send_loop w f 0 (chunks CHUNK_SIZE (content f))) as [[|] t];
    simpl in *; exists rest; rewrite sent_on_app; simpl; rewrite app_nil_r;
    exact Hrest.
Qed.


Lemma calculate_md5_chunked_count p n found opened :
  (forall c, p (Read c) = false) -> (forall c, p (Update c) = false) ->
  (forall b, p (Exists b) = false) -> (forall d, p (HexDigest d) = false) ->
  count p (snd (calculate_md5_chunked n found opened))
  = match found, opened with
    | true, Return _ => ((if p (OpenRead true) then 1 else 0)
                         + (if p CloseFile then 1 else 0))%nat
    | true, Raise _ => if p (OpenRead false) then 1%nat else 0%nat
    | false, _ => 0%nat
    end.
Proof.
  intros H1 H2 H3 H4. unfold calculate_md5_chunked.
  destruct found; cbn [negb fst snd];
    [|rewrite count_cons, H3; reflexivity].
  destruct opened as [f|e]; cbn [fst snd];
    [|rewrite !count_cons, H3, count_nil; lia].
  pose proof (md5_loop_count p f 0 (chunks n (content f)) hash_new H1 H2) as H.
  destruct (md5_loop f 0 (chunks n (content f)) hash_new) as [[h|e] t];
    cbn [fst snd] in *;
    rewrite !count_app, H, !count_cons, ?H3, ?H4, count_nil; lia.
Qed.

Lemma balanced_calculate_md5_chunked n found opened :
  balanced (snd (calculate_md5_chunked n found opened)).
Proof.
  split; [intros s|];
    rewrite !calculate_md5_chunked_count by reflexivity;
    destruct found; [destruct opened| |destruct opened|]; reflexivity.
Qed.

Lemma balanced_send_file w : balanced (snd (send_file w)).
Proof.
  unfold send_file.
  destruct (srv_connect_ok w); cbn [negb];
    [|split; [intros []|]; reflexivity].
  destruct (send_open w) as [f|e]; [|split; [intros []|]; reflexivity].
  pose proof (fun p => send_loop_count p w f 0 (chunks CHUNK_SIZE (content f))) as H.
  destruct (send_loop w f 0 (chunks CHUNK_SIZE (content f))) as [[|] t];
    cbn [fst snd] in *;
    (split; [intros s|]; rewrite !count_app, !H by reflexivity;
     [destruct s|]; reflexivity).
Qed.

Lemma balanced_send_checksum w file_id checksum :
  balanced (snd (send_checksum w file_id checksum)).
Proof.
  unfold send_checksum.
  destruct (chsum_connect_ok w); cbn [negb];
    [|split; [intros []|]; reflexivity].
  destruct (encode _) as [msg|e]; [|split; [intros []|]; reflexivity].
  destruct (chsum_sendall_ok w); cbn [negb];
    [|split; [intros []|]; reflexivity].
  destruct (chsum_recv w) as [r|e]; [|split; [intros []|]; reflexivity].
  destruct (bool_decide _); split; try intros []; reflexivity.
Qed.

End SenderMore.

Section SenderMoreClaims.
Import IO FileTransferClient Lifecycle Samples.

(** X16.  What the sender has put on the connection to the receiver when
    its run ends, however it ends, is a beginning of the file it opened:
    it sends no octet that is not in the file and none out of order.  If
    the file cannot be opened, it sends nothing. *)
Theorem sent_is_prefix (md5 : HashAlgorithm) (w : world) (file_id : str) :
  let t := snd (transfer_file w file_id) in
  (forall f, send_open w = Return f ->
     exists rest, content f = sent_on SrvSock t ++ rest)
  /\ (forall e, send_open w = Raise e -> sent_on SrvSock t = []).
Proof.
  intros t. subst t. unfold transfer_file.
  pose proof (calculate_md5_quiet SrvSock w) as Ha.
  destruct (calculate_md5 w) as [[checksum|e] t1]; cbn [fst snd] in *.
  2:{ rewrite sent_on_app, (sent_on_quiet _ _ Ha). simpl.
      split; [intros f _; eexists; reflexivity|reflexivity]. }
  pose proof (send_file_prefix w) as [H1 H2].
  destruct (send_file w) as [[|] t2]; cbn [fst snd] in *.
  2:{ rewrite sent_on_app, (sent_on_quiet _ _ Ha). simpl. split; assumption. }
  pose proof (send_checksum_quiet w file_id checksum) as [_ H5].
  assert (E : forall t3 tail, quiet (on_sock SrvSock) (t3 ++ tail) = true ->
              sent_on SrvSock (t1 ++ t2 ++ t3 ++ tail) = sent_on SrvSock t2).
  { intros t3 tail H. rewrite sent_on_app, (sent_on_quiet _ _ Ha). simpl.
    rewrite sent_on_app, (sent_on_quiet _ _ H). apply app_nil_r. }
  destruct (send_checksum w file_id checksum) as [[|] t3]; cbn [fst snd] in *.
  - rewrite E by (rewrite quiet_app, H5; reflexivity). split; assumption.
  - rewrite <- (app_nil_r t3), E by (rewrite app_nil_r; assumption).
    split; assumption.
Qed.

Lemma sent_is_prefix_witness :
  let t := snd (transfer_file (md5 := sum_hash) sender_ok (lit "f1")) in
  send_open sender_ok = Return hello
  /\ exists rest, content hello = sent_on SrvSock t ++ rest.
Proof.
  intros t. split; [reflexivity|].
  exact (proj1 (sent_is_prefix sum_hash sender_ok (lit "f1")) hello eq_refl).
Defined.

(** X17.  The sender leaks nothing: in every run, however it ends, each
    socket is closed as often as it was connected, and files are closed
    as often as they were opened. *)
Theorem sender_releases (md5 : HashAlgorithm) (w : world) (file_id : str) :
  balanced (snd (transfer_file w file_id)).
Proof.
  unfold transfer_file.
  pose proof (balanced_calculate_md5_chunked CHUNK_SIZE (path_exists w) (hash_open w)) as H1.
  fold (calculate_md5 w) in H1.
  destruct (calculate_md5 w) as [[checksum|e] t1]; cbn [fst snd] in *;
    [|apply balanced_app; [assumption|apply balanced_print]].
  pose proof (balanced_send_file w) as H2.
  destruct (send_file w) as [[|] t2]; cbn [fst snd] in *;
    [|apply balanced_app; assumption].
  pose proof (balanced_send_checksum w file_id checksum) as H3.
  destruct (send_checksum w file_id checksum) as [[|] t3]; cbn [fst snd] in *;
    repeat (apply balanced_app; try assumption). apply balanced_print.
Qed.

(** X18.  [transfer_file] reports success exactly when the digest was
    computed, the file was sent and the registration was acknowledged.
    In particular, when the registry does not acknowledge, the result is
    a failure although the whole file has gone out to the receiver. *)
Theorem transfer_succeeds_iff (md5 : HashAlgorithm) (w : world) (file_id : str) :
  (fst (transfer_file w file_id) = true <->
   exists checksum, fst (calculate_md5 w) = Return checksum
                    /\ fst (send_file w) = true
                    /\ fst (send_checksum w file_id checksum) = true)
  /\ (forall checksum f,
      fst (calculate_md5 w) = Return checksum ->
      fst (send_file w) = true -> send_open w = Return f ->
      fst (send_checksum w file_id checksum) = false ->
      fst (transfer_file w file_id) = false
      /\ sent_on SrvSock (snd (transfer_file w file_id)) = content f).
Proof.
  pose proof (send_file_trace w) as Hsf.
  pose proof (calculate_md5_quiet SrvSock w) as Ha.
  pose proof (fun c => proj2 (send_checksum_quiet w file_id c)) as H5.
  unfold transfer_file.
  destruct (calculate_md5 w) as [[checksum|e] t1]; cbn [fst snd] in *.
  2:{ split; [split; [discriminate|intros (c & H & _); discriminate]|].
      intros c f H. discriminate. }
  destruct Hsf as (_ & _ & H3).
  destruct (send_file w) as [[|] t2]; cbn [fst snd] in *.
  2:{ split; [split; [discriminate|intros (c & _ & H & _); discriminate]|].
      intros c f _ H. discriminate. }
  destruct (H3 eq_refl) as (_ & f0 & Hopen & Hsent).
  specialize (H5 checksum).
  destruct (send_checksum w file_id checksum) as [[|] t3] eqn:E; cbn [fst snd] in *.
  - split.
    + split; [intros _; exists checksum; rewrite E; auto|reflexivity].
    + intros c f [= <-] _ _. rewrite E. discriminate.
  - split.
    + split; [discriminate|]. intros (c & [= <-] & _ & H). rewrite E in H. discriminate.
    + intros c f [= <-] _ Hf _. split; [reflexivity|].
      rewrite Hopen in Hf. injection Hf as <-.
      rewrite sent_on_app, (sent_on_quiet _ _ Ha). simpl.
      rewrite sent_on_app, (sent_on_quiet _ _ H5), app_nil_r. exact Hsent.
Qed.

Lemma transfer_succeeds_iff_witness :
  let w := {| path_exists := true; hash_open := Return hello;
              send_open := Return hello; srv_connect_ok := true;
              srv_sendall_ok := fun _ => true; chsum_connect_ok := true;
              chsum_sendall_ok := true; chsum_recv := Return (lit "ERR") |} in
  (fst (calculate_md5 (md5 := sum_hash) w) = Return (lit "1116")
   /\ fst (send_file w) = true /\ send_open w = Return hello
   /\ fst (send_checksum w (lit "f1") (lit "1116")) = false)
  /\ fst (transfer_file (md5 := sum_hash) w (lit "f1")) = false
  /\ sent_on SrvSock (snd (transfer_file (md5 := sum_hash) w (lit "f1")))
     = content hello.
Proof.
  intros w. split; [repeat split; reflexivity|].
  exact (proj2 (transfer_succeeds_iff sum_hash w (lit "f1")) (lit "1116") hello
           eq_refl eq_refl eq_refl eq_refl).
Defined.

(** X19.  The registration counts as done only if the registry's answer
    is exactly the two octets [OK]: [send_checksum] succeeds exactly when
    the connection was made, the message could be encoded and was sent,
    and the answer read was [OK]; it then has sent that one message and
    nothing else. *)
Theorem send_checksum_iff (w : world) (file_id checksum : str) :
  (fst (send_checksum w file_id checksum) = true <->
   chsum_connect_ok w = true
   /\ (exists msg, encode (store_message file_id checksum) = Return msg)
   /\ chsum_sendall_ok w = true
   /\ chsum_recv w = Return (lit "OK"))
  /\ (fst (send_checksum w file_id checksum) = true ->
      encode (store_message file_id checksum)
      = Return (sent_on ChsumSock (snd (send_checksum w file_id checksum)))).
Proof.
  unfold send_checksum.
  destruct (chsum_connect_ok w); simpl.
  2:{ split; [split; [discriminate|intros [H _]; discriminate]|discriminate]. }
  destruct (encode (store_message file_id checksum)) as [msg|e]; simpl.
  2:{ split; [split; [discriminate|intros (_ & [m H] & _); discriminate]|discriminate]. }
  destruct (chsum_sendall_ok w); simpl.
  2:{ split; [split; [discriminate|intros (_ & _ & H & _); discriminate]|discriminate]. }
  destruct (chsum_recv w) as [r|e]; simpl.
  2:{ split; [split; [discriminate|intros (_ & _ & _ & H); discriminate]|discriminate]. }
  destruct (bool_decide (r = lit "OK")) eqn:Hr; simpl.
  - apply bool_decide_eq_true in Hr. subst r. rewrite app_nil_r.
    split; [split; [intros _; eauto 6|reflexivity]|reflexivity].
  - apply bool_decide_eq_false in Hr.
    split; [split; [discriminate|intros (_ & _ & _ & [= H]); congruence]|discriminate].
Qed.

Lemma send_checksum_iff_witness :
  (chsum_connect_ok sender_ok = true
   /\ (exists msg, encode (store_message (lit "f1") (lit "1116")) = Return msg)
   /\ chsum_sendall_ok sender_ok = true
   /\ chsum_recv sender_ok = Return (lit "OK"))
  /\ fst (send_checksum sender_ok (lit "f1") (lit "1116")) = true.
Proof.
  assert (H : chsum_connect_ok sender_ok = true
   /\ (exists msg, encode (store_message (lit "f1") (lit "1116")) = Return msg)
   /\ chsum_sendall_ok sender_ok = true
   /\ chsum_recv sender_ok = Return (lit "OK")).
  { repeat split; try reflexivity. eexists. reflexivity. }
  split; [exact H|].
  exact (proj2 (proj1 (send_checksum_iff sender_ok (lit "f1") (lit "1116"))) H).
Defined.

(** X20.  If the file cannot be hashed (it is missing, cannot be opened,
    or a read fails), the transfer fails before the network is touched:
    nothing is sent to the receiver and nothing is registered. *)
Theorem unreadable_file_sends_nothing (md5 : HashAlgorithm) (w : world)
    (file_id : str) (e : exn) :
  fst (calculate_md5 w) = Raise e ->
  fst (transfer_file w file_id) = false
  /\ count is_network (snd (transfer_file w file_id)) = 0%nat.
Proof.
  intros H. unfold transfer_file.
  pose proof (calculate_md5_chunked_count is_network CHUNK_SIZE (path_exists w)
                (hash_open w)) as Hc.
  fold (calculate_md5 w) in Hc.
  destruct (calculate_md5 w) as [[c|e'] t1]; cbn [fst snd] in *; [discriminate|].
  split; [reflexivity|].
  rewrite count_app, Hc, count_cons, count_nil by reflexivity. simpl.
  destruct (path_exists w); [destruct (hash_open w)|]; reflexivity.
Qed.

Lemma unreadable_file_sends_nothing_witness :
  let w := {| path_exists := true;
              hash_open := Return {| content := lit "hello"; read_error_at := Some 0%nat |};
              send_open := Return hello; srv_connect_ok := true;
              srv_sendall_ok := fun _ => true; chsum_connect_ok := true;
              chsum_sendall_ok := true; chsum_recv := Return (lit "OK") |} in
  fst (calculate_md5 (md5 := sum_hash) w) = Raise IOError
  /\ fst (transfer_file (md5 := sum_hash) w (lit "f1")) = false
  /\ count is_network (snd (transfer_file (md5 := sum_hash) w (lit "f1"))) = 0%nat.
Proof.
  intros w.
  assert (H : fst (calculate_md5 (md5 := sum_hash) w) = Raise IOError) by reflexivity.
  split; [exact H|].
  exact (unreadable_file_sends_nothing sum_hash w (lit "f1") IOError H).
Defined.

End SenderMoreClaims.

Section ReceiverMore.
Import IO FileTransferServer Lifecycle Samples.
Local Open Scope N_scope.

Lemma split1_notin sep l : ~ In sep l -> split1 sep l = [l].
Proof.
  induction l as [|c l IH]; intros H; simpl; [reflexivity|].
  destruct (N.eqb_spec c sep) as [->|Hc]; [destruct H; left; reflexivity|].
  rewrite IH by (intros Hin; apply H; right; exact Hin). reflexivity.
Qed.

Lemma split1_app sep l r : ~ In sep l -> split1 sep (l ++ sep :: r) = [l; r].
Proof.
  induction l as [|c l IH]; intros H; simpl.
  - rewrite N.eqb_refl. reflexivity.
  - destruct (N.eqb_spec c sep) as [->|Hc]; [destruct H; left; reflexivity|].
    rewrite IH by (intros Hin; apply H; right; exact Hin). reflexivity.
Qed.

Lemma In_first (sep : N) l :
  In sep l -> exists a b, l = a ++ sep :: b /\ ~ In sep a.
Proof.
  induction l as [|c l IH]; [intros []|]. intros H.
  destruct (N.eq_dec c sep) as [->|Hc].
  - exists [], l. split; [reflexivity|intros []].
  - destruct H as [H|H]; [congruence|].
    destruct (IH H) as (a & b & -> & Ha). exists (c :: a), b.
    split; [reflexivity|]. intros [E|E]; [congruence|auto].
Qed.

Lemma parse_response_found length_str checksum n :
  ~ In 124 length_str -> int length_str = Some n -> (0 < n)%Z ->
  parse_response (length_str ++ lit "|" ++ checksum) = (Some checksum, []).
Proof.
  intros Hb Hi Hn. unfold parse_response.
  change (lit "|" ++ checksum) with (124 :: checksum).
  assert (Hc : contains 124 (length_str ++ 124 :: checksum) = true).
  { apply contains_In, in_app_iff. right. left. reflexivity. }
  rewrite Hc, split1_app, Hi by assumption. cbn [negb].
  replace (0 <? n)%Z with true by lia. reflexivity.
Qed.

Lemma recv_loop_written w k cs written :
  fst (fst (recv_loop w k cs written)) = true ->
  snd (fst (recv_loop w k cs written)) = written ++ concat (before_close cs).
Proof.
  revert k written. induction cs as [|c cs IH]; intros k written; simpl;
    destruct (bool_decide _); cbn [fst snd]; try discriminate;
    [intros _; symmetry; apply app_nil_r|].
  destruct c as [|x c]; cbv iota; cbn [fst snd];
    [intros _; symmetry; apply app_nil_r|].
  destruct (write_ok w k); cbn [fst snd]; [|discriminate].
  specialize (IH (S k) (written ++ x :: c)).
  destruct (recv_loop w (S k) cs (written ++ x :: c)) as [[ok written'] t].
  cbn [fst snd] in *. intros Hok. rewrite (IH Hok), <- app_assoc. reflexivity.
Qed.

Lemma recv_loop_count p w k cs written :
  (forall s r, p (Recv s r) = false) -> (forall c ok, p (Write c ok) = false) ->
  count p (snd (recv_loop w k cs written)) = 0%nat.
Proof.
  intros H1 H2. revert k written.
  induction cs as [|c cs IH]; intros k written; simpl;
    destruct (bool_decide _); cbn [fst snd];
    try (rewrite count_cons, H1; reflexivity).
  destruct c as [|x c]; cbv iota; cbn [fst snd];
    [rewrite count_cons, H1; reflexivity|].
  destruct (write_ok w k); cbn [fst snd];
    [|rewrite !count_cons, H1, H2; reflexivity].
  specialize (IH (S k) (written ++ x :: c)).
  destruct (recv_loop w (S k) cs (written ++ x :: c)) as [[ok written'] t].
  cbn [fst snd] in *. rewrite !count_cons, H1, H2, IH. reflexivity.
Qed.

Lemma balanced_receive_file w : balanced (snd (receive_file w)).
Proof.
  unfold receive_file.
  destruct (listen_ok w); cbn [negb]; [|split; [intros []|]; reflexivity].
  destruct (accept_ok w); cbn [negb]; [|split; [intros []|]; reflexivity].
  destruct (out_open_ok w); cbn [negb]; [|split; [intros []|]; reflexivity].
  pose proof (fun p => recv_loop_count p w 0 (incoming w) []) as H.
  destruct (recv_loop w 0 (incoming w) []) as [[[|] written] t];
    cbn [fst snd] in *;
    (split; [intros s|]; rewrite !count_app, !H by reflexivity;
     [destruct s|]; reflexivity).
Qed.

Lemma balanced_parse_response data : balanced (snd (parse_response data)).
Proof.
  unfold parse_response.
  destruct (contains 124 data); cbn [negb]; [|apply balanced_print].
  destruct (split1 124 data) as [|a [|b [|c l]]]; try apply balanced_print.
  destruct (int a) as [n|]; [|apply balanced_print].
  destruct (0 <? n)%Z; [|apply balanced_print].
  split; [intros s|]; reflexivity.
Qed.

Lemma balanced_get_checksum w file_id : balanced (snd (get_checksum w file_id)).
Proof.
  unfold get_checksum.
  destruct (chsum_connect_ok w); cbn [negb];
    [|split; [intros []|]; reflexivity].
  destruct (encode _) as [msg|e]; [|split; [intros []|]; reflexivity].
  destruct (chsum_sendall_ok w); cbn [negb];
    [|split; [intros []|]; reflexivity].
  destruct (chsum_recv w) as [r|e]; [|split; [intros []|]; reflexivity].
  destruct (decode r) as [data|e]; [|split; [intros []|]; reflexivity].
  pose proof (balanced_parse_response data) as H.
  destruct (parse_response data) as [c t]. cbn [fst snd] in *.
  apply (balanced_app [_; _; _; _]); [|assumption].
  split; [intros []|]; reflexivity.
Qed.

End ReceiverMore.

Section ReceiverMoreClaims.
Import IO FileTransferServer Lifecycle Samples.
Local Open Scope N_scope.

(** X21.  The receiver takes an answer of the registry for a checksum
    exactly when the answer has a bar and what stands before the first
    bar reads as an integer greater than zero; the checksum is then
    everything after that bar.  The number is not compared with the
    length of the checksum. *)
Theorem parse_response_iff (data checksum : str) :
  fst (parse_response data) = Some checksum <->
  exists length_str n,
    data = length_str ++ lit "|" ++ checksum /\ ~ In 124 length_str
    /\ int length_str = Some n /\ (0 < n)%Z.
Proof.
  split.
  - unfold parse_response. destruct (contains 124 data) eqn:Hc; [|discriminate].
    apply contains_In, In_first in Hc as (a & b & -> & Ha).
    rewrite split1_app by assumption. cbn [negb].
    destruct (int a) as [n|] eqn:Hi; [|discriminate].
    destruct (0 <? n)%Z eqn:Hn; [|discriminate].
    intros [= <-]. exists a, n. repeat split; (assumption || lia).
  - intros (l & n & -> & Hb & Hi & Hn).
    rewrite (parse_response_found l checksum n Hb Hi Hn). reflexivity.
Qed.

Lemma parse_response_iff_witness :
  (exists length_str n,
     lit " 32 |ab" = length_str ++ lit "|" ++ lit "ab" /\ ~ In 124 length_str
     /\ int length_str = Some n /\ (0 < n)%Z)
  /\ fst (parse_response (lit " 32 |ab")) = Some (lit "ab").
Proof.
  assert (H : exists length_str n,
     lit " 32 |ab" = length_str ++ lit "|" ++ lit "ab" /\ ~ In 124 length_str
     /\ int length_str = Some n /\ (0 < n)%Z).
  { exists (lit " 32 "), 32%Z. split; [reflexivity|].
    split; [vm_compute; intuition discriminate|]. split; [reflexivity|lia]. }
  split; [exact H|].
  exact (proj2 (parse_response_iff (lit " 32 |ab") (lit "ab")) H).
Defined.

(** X22.  When [receive_file] succeeds, the file holds exactly what
    arrived on the connection before the peer closed it, in the order of
    arrival; nothing that follows the first zero-length read is
    looked at. *)
Theorem received_is_what_arrived (w : world) :
  fst (fst (receive_file w)) = true ->
  snd (fst (receive_file w)) = concat (before_close (incoming w))
  /\ listen_ok w = true /\ accept_ok w = true /\ out_open_ok w = true.
Proof.
  unfold receive_file.
  destruct (listen_ok w); cbn [negb fst snd]; [|discriminate].
  destruct (accept_ok w); cbn [negb fst snd]; [|discriminate].
  destruct (out_open_ok w); cbn [negb fst snd]; [|discriminate].
  pose proof (recv_loop_written w 0 (incoming w) []) as H.
  destruct (recv_loop w 0 (incoming w) []) as [[[|] written] t];
    cbn [fst snd] in *; [|discriminate].
  intros _. rewrite (H eq_refl). auto.
Qed.

Lemma received_is_what_arrived_witness :
  let w := receiver_run true (lit "4|1116") in
  fst (fst (receive_file w)) = true
  /\ snd (fst (receive_file w)) = concat (before_close (incoming w)).
Proof.
  intros w. assert (H : fst (fst (receive_file w)) = true) by reflexivity.
  split; [exact H|]. exact (proj1 (received_is_what_arrived w H)).
Defined.

(** X23.  The receiver leaks nothing: in every run of
    [receive_and_validate], however it ends, each socket is closed as
    often as it came into being, and files are closed as often as they
    were opened. *)
Theorem receiver_releases (md5 : HashAlgorithm) (w : world) (file_id : str) :
  balanced (snd (receive_and_validate w file_id)).
Proof.
  unfold receive_and_validate.
  pose proof (balanced_receive_file w) as H1.
  destruct (receive_file w) as [[[|] written] t1]; cbn [fst snd] in *;
    [|assumption].
  pose proof (balanced_get_checksum w file_id) as H2.
  destruct (get_checksum w file_id) as [[expected|] t2]; cbn [fst snd] in *;
    [|repeat (apply balanced_app; try assumption); apply balanced_print].
  destruct (on_disk w written) as [found opened].
  pose proof (balanced_calculate_md5_chunked (md5 := md5) CHUNK_SIZE found opened) as H3.
  fold (calculate_md5 found opened) in H3.
  destruct (calculate_md5 found opened) as [[actual|e] t3]; cbn [fst snd] in *;
    [destruct (bool_decide _)|];
    repeat (apply balanced_app; try assumption); apply balanced_print.
Qed.

End ReceiverMoreClaims.

(** ** The three programs together *)

Section ProtocolFacts.
Import ChecksumServer IO Lifecycle Samples.
Local Open Scope N_scope.

Lemma length_uint_digits u : length (uint_digits u) = Decimal.nb_digits u.
Proof. induction u; simpl; congruence. Qed.

Lemma nb_digits_succ d :
  (Decimal.nb_digits (Decimal.Little.succ d) <= S (Decimal.nb_digits d))%nat.
Proof. induction d; simpl; lia. Qed.

Lemma nb_digits_to_little n : forall acc,
  (Decimal.nb_digits (Nat.to_little_uint n acc) <= n + Decimal.nb_digits acc)%nat.
Proof.
  induction n as [|n IH]; intros acc; simpl; [lia|].
  specialize (IH (Decimal.Little.succ acc)).
  pose proof (nb_digits_succ acc). lia.
Qed.

Lemma str_of_nat_length n : (length (str_of_nat n) <= S n)%nat.
Proof.
  unfold str_of_nat, Nat.to_uint.
  rewrite length_uint_digits, nb_digits_rev.
  pose proof (nb_digits_to_little n Decimal.zero) as H. simpl in H. lia.
Qed.

Lemma plain_spec s :
  plain s = true -> Forall (fun c => 33 <= c < 127 /\ c <> 124) s.
Proof.
  unfold plain. rewrite forallb_forall, List.Forall_forall.
  intros H c Hc. specialize (H c Hc). lia.
Qed.

Lemma plain_ascii s : plain s = true -> Forall (fun c => c < 128) s.
Proof.
  intros H. apply plain_spec in H. revert H. apply List.Forall_impl. lia.
Qed.

Lemma plain_no_BAR s : plain s = true -> ~ In BAR s.
Proof.
  intros H Hin. apply plain_spec in H. rewrite List.Forall_forall in H.
  specialize (H _ Hin). unfold BAR in H. lia.
Qed.

Lemma plain_no_LF s : plain s = true -> ~ In LF s.
Proof.
  intros H Hin. apply plain_spec in H. rewrite List.Forall_forall in H.
  specialize (H _ Hin). unfold LF in H. lia.
Qed.

Lemma plain_rstrip s : plain s = true -> rstrip s = s.
Proof.
  intros H. apply rstrip_id. intros s' c ->.
  apply plain_spec in H. rewrite List.Forall_forall in H.
  specialize (H c). rewrite in_app_iff in H. specialize (H (or_intror (or_introl eq_refl))).
  unfold isspace. lia.
Qed.

Lemma encode_ascii s : Forall (fun c => c < 128) s -> encode s = Return s.
Proof. intros H. unfold encode. rewrite (utf8_encode_ascii s H). reflexivity. Qed.

Lemma decode_ascii s : Forall (fun c => c < 128) s -> decode s = Return s.
Proof.
  intros H. unfold decode.
  rewrite (utf8_roundtrip s s (utf8_encode_ascii s H)). reflexivity.
Qed.

Lemma str_of_nat_no sep n : ~ (48 <= sep <= 57) -> ~ In sep (str_of_nat n).
Proof. intros H Hin. apply str_of_nat_In in Hin. lia. Qed.


(** *** The registry, fed the two messages *)

Lemma store_line_ascii file_id checksum :
  plain file_id = true -> plain checksum = true ->
  Forall (fun c => c < 128)
    (lit "BE|" ++ file_id ++ lit "|" ++ str_of_nat FileTransferClient.CHECKSUM_EXPIRY
     ++ lit "|" ++ str_of_nat (len checksum) ++ lit "|" ++ checksum).
Proof.
  intros H1 H2. repeat apply Forall_app_2;
    try apply str_of_nat_ascii; try (apply plain_ascii; assumption);
    repeat constructor.
Qed.

Lemma store_line_no_LF file_id checksum :
  plain file_id = true -> plain checksum = true ->
  ~ In LF
    (lit "BE|" ++ file_id ++ lit "|" ++ str_of_nat FileTransferClient.CHECKSUM_EXPIRY
     ++ lit "|" ++ str_of_nat (len checksum) ++ lit "|" ++ checksum).
Proof.
  intros H1 H2. rewrite !in_app_iff.
  pose proof (plain_no_LF _ H1). pose proof (plain_no_LF _ H2).
  pose proof (str_of_nat_no LF FileTransferClient.CHECKSUM_EXPIRY).
  pose proof (str_of_nat_no LF (len checksum)).
  unfold LF in *. simpl. intuition (discriminate || lia).
Qed.

Lemma registry_stores_line (w : world) (store : ChecksumStore) file_id checksum :
  plain file_id = true -> plain checksum = true -> sendall_ok w 0 = true ->
  _handle_client_data w store []
    (Return (FileTransferClient.store_message file_id checksum))
  = ([OK], Open [], <[file_id := (float_add (clock w 0) d60, checksum)]> store).
Proof.
  intros H1 H2 Hs.
  pose proof (store_line_ascii _ _ H1 H2) as Ha.
  pose proof (store_line_no_LF _ _ H1 H2) as Hl.
  rewrite (handle_client_data_line w store [] _
             (lit "BE|" ++ file_id ++ lit "|"
              ++ str_of_nat FileTransferClient.CHECKSUM_EXPIRY
              ++ lit "|" ++ str_of_nat (len checksum) ++ lit "|" ++ checksum)
             (lit "BE|" ++ file_id ++ lit "|"
              ++ str_of_nat FileTransferClient.CHECKSUM_EXPIRY
              ++ lit "|" ++ str_of_nat (len checksum) ++ lit "|" ++ checksum)).
  - rewrite (process_data_BE_line (clock w 0) store file_id _ _ checksum 60%Z d60).
    + rewrite (plain_rstrip _ H2). reflexivity.
    + apply plain_no_BAR, H1.
    + apply str_of_nat_no. unfold BAR. lia.
    + apply str_of_nat_no. unfold BAR. lia.
    + apply plain_no_BAR, H2.
    + reflexivity.
    + vm_compute. reflexivity.
  - discriminate.
  - unfold FileTransferClient.store_message, LF. simpl.
    repeat (rewrite <- app_assoc; simpl). reflexivity.
  - assumption.
  - apply (utf8_roundtrip _ _ (utf8_encode_ascii _ Ha)).
  - assumption.
Qed.

Lemma registry_answers_line (w : world) (store : ChecksumStore) file_id t checksum :
  plain file_id = true -> plain checksum = true -> sendall_ok w 0 = true ->
  store !! file_id = Some (t, checksum) -> float_gt (clock w 0) t = false ->
  _handle_client_data w store []
    (Return (FileTransferServer.retrieve_message file_id))
  = ([found_response (len checksum) checksum], Open [], store).
Proof.
  intros H1 H2 Hs Hin Hlive.
  assert (Ha : Forall (fun c => c < 128) (lit "KI|" ++ file_id)).
  { apply Forall_app_2; [repeat constructor|apply plain_ascii, H1]. }
  rewrite (handle_client_data_line w store [] _ (lit "KI|" ++ file_id)
             (lit "KI|" ++ file_id)).
  - rewrite (process_data_KI_line (clock w 0) store file_id (plain_no_BAR _ H1)).
    rewrite (plain_rstrip _ H1).
    rewrite (handle_retrieve_live (clock w 0) store _ file_id t checksum checksum
               Hin Hlive (utf8_encode_ascii _ (plain_ascii _ H2))).
    reflexivity.
  - discriminate.
  - unfold FileTransferServer.retrieve_message, LF. simpl. reflexivity.
  - rewrite in_app_iff. pose proof (plain_no_LF _ H1).
    unfold LF in *. simpl. intuition discriminate.
  - apply (utf8_roundtrip _ _ (utf8_encode_ascii _ Ha)).
  - assumption.
Qed.

End ProtocolFacts.

Section SenderProtocol.
Import IO FileTransferClient Lifecycle Samples.
Context {md5 : HashAlgorithm}.

Lemma md5_loop_result f k cs h h' :
  fst (md5_loop f k cs h) = Return h' -> h' = fold_left hash_update cs h.
Proof.
  revert k h. induction cs as [|c cs IH]; intros k h; simpl;
    destruct (bool_decide _); cbn [fst]; try discriminate; [congruence|].
  specialize (IH (S k) (hash_update h c)).
  destruct (md5_loop f (S k) cs (hash_update h c)). exact IH.
Qed.

Lemma calculate_md5_chunked_result n found f c :
  (0 < n)%nat -> fst (calculate_md5_chunked n found (Return f)) = Return c ->
  c = hash_hexdigest (hash_update hash_new (content f)).
Proof.
  intros Hn. unfold calculate_md5_chunked.
  destruct found; cbn [negb fst]; [|discriminate].
  pose proof (md5_loop_result f 0 (chunks n (content f)) hash_new) as H.
  destruct (md5_loop f 0 (chunks n (content f)) hash_new) as [[h|e] t];
    cbn [fst] in *; [|discriminate].
  intros [= <-]. rewrite (H h eq_refl), fold_update_concat, chunks_concat by assumption.
  reflexivity.
Qed.

Lemma calculate_md5_chunked_quiet s n found opened :
  quiet (on_sock s) (snd (calculate_md5_chunked n found opened)) = true.
Proof.
  unfold calculate_md5_chunked.
  destruct found; [|reflexivity]. cbn [negb].
  destruct opened as [f|e]; [|reflexivity].
  pose proof (md5_loop_quiet s f 0 (chunks n (content f)) hash_new) as H.
  destruct (md5_loop f 0 (chunks n (content f)) hash_new) as [[h|e] t];
    cbn [fst snd] in *; rewrite !quiet_app, H; reflexivity.
Qed.

(** What a successful sender run has put on its two connections. *)
Lemma transfer_file_sent w file_id f f' :
  fst (transfer_file w file_id) = true ->
  hash_open w = Return f -> send_open w = Return f' ->
  sent_on SrvSock (snd (transfer_file w file_id)) = content f'
  /\ encode (store_message file_id
               (hash_hexdigest (hash_update hash_new (content f))))
     = Return (sent_on ChsumSock (snd (transfer_file w file_id))).
Proof.
  unfold transfer_file. intros Hok Hf Hf'.
  pose proof (calculate_md5_quiet SrvSock w) as Ha.
  pose proof (calculate_md5_quiet ChsumSock w) as Hb.
  pose proof (calculate_md5_chunked_result CHUNK_SIZE (path_exists w) f) as Hd.
  unfold calculate_md5 in *. rewrite Hf in *.
  destruct (calculate_md5_chunked CHUNK_SIZE (path_exists w) (Return f))
    as [[checksum|e] t1]; cbn [fst snd] in *; [|discriminate].
  rewrite <- (Hd checksum) by (reflexivity || (unfold CHUNK_SIZE; lia)).
  pose proof (send_file_trace w) as (_ & H2 & H3).
  destruct (send_file w) as [[|] t2]; cbn [fst snd] in *; [|discriminate].
  destruct (H3 eq_refl) as (_ & f0 & Hopen & Hsent).
  rewrite Hf' in Hopen. injection Hopen as <-.
  pose proof (send_checksum_quiet w file_id checksum) as [_ H5].
  assert (H6 : fst (send_checksum w file_id checksum) = true ->
               encode (store_message file_id checksum)
               = Return (sent_on ChsumSock (snd (send_checksum w file_id checksum)))).
  { clear. unfold send_checksum.
    destruct (chsum_connect_ok w); cbn [negb fst snd]; [|discriminate].
    destruct (encode (store_message file_id checksum)) as [msg|e];
      cbn [fst snd]; [|discriminate].
    destruct (chsum_sendall_ok w); cbn [negb fst snd]; [|discriminate].
    destruct (chsum_recv w) as [r|e]; cbn [fst snd]; [|discriminate].
    destruct (bool_decide (r = lit "OK")); cbn [fst snd]; [|discriminate].
    intros _. simpl. rewrite app_nil_r. reflexivity. }
  destruct (send_checksum w file_id checksum) as [[|] t3]; cbn [fst snd] in *;
    [|discriminate].
  rewrite !sent_on_app, (sent_on_quiet _ _ Ha), (sent_on_quiet _ _ Hb),
    (sent_on_quiet _ _ H2), (sent_on_quiet _ _ H5), Hsent, (H6 eq_refl).
  simpl. rewrite !app_nil_r. split; reflexivity.
Qed.

End SenderProtocol.

Section ReceiverProtocol.
Import IO FileTransferServer Lifecycle Samples.
Context {md5 : HashAlgorithm}.
Local Open Scope N_scope.

Lemma is_text_encodes s : is_text s = true -> exists b, encode s = Return b.
Proof.
  intros H. destruct (is_text_encode s H) as [b Hb]. exists b.
  unfold encode. rewrite Hb. reflexivity.
Qed.

Lemma retrieve_message_text file_id :
  is_text file_id = true -> is_text (retrieve_message file_id) = true.
Proof.
  intros H. unfold retrieve_message, is_text in *.
  rewrite !forallb_app, H. reflexivity.
Qed.

(** The receiver, given the registry's answer for a live entry. *)
Lemma get_checksum_answer w file_id checksum cb :
  chsum_connect_ok w = true -> chsum_sendall_ok w = true ->
  is_text file_id = true -> utf8_encode checksum = Some cb ->
  (length (str_of_nat (len checksum)) <= int_max_str_digits)%nat ->
  chsum_recv w = Return (ChecksumServer.found_response (len checksum) cb) ->
  fst (get_checksum w file_id)
  = match checksum with [] => None | _ => Some checksum end
  /\ encode (retrieve_message file_id)
     = Return (sent_on ChsumSock (snd (get_checksum w file_id))).
Proof.
  intros Hc Hs Ht He Hlen Hr. unfold get_checksum. rewrite Hc, Hs, Hr.
  destruct (is_text_encodes _ (retrieve_message_text _ Ht)) as [msg ->].
  cbn [negb].
  pose proof (encode_found_response (len checksum) checksum cb He) as Hf.
  unfold encode in Hf.
  destruct (utf8_encode (str_of_nat (len checksum) ++ lit "|" ++ checksum))
    as [b|] eqn:Hu; [|discriminate].
  injection Hf as ->. unfold decode. rewrite (utf8_roundtrip _ _ Hu).
  assert (Hp : parse_response (str_of_nat (len checksum) ++ lit "|" ++ checksum)
               = match checksum with
                 | [] => (None, [Print "Checksum not found or expired"])
                 | _ => (Some checksum, [])
                 end).
  { destruct checksum as [|c r]; [reflexivity|].
    apply (parse_response_found _ _ (Z.of_nat (len (c :: r)))).
    - intros Hin. apply str_of_nat_In in Hin. lia.
    - apply int_str_of_nat, Hlen.
    - simpl. lia. }
  rewrite Hp. destruct checksum; cbn [fst snd]; simpl;
    rewrite ?app_nil_r; split; reflexivity.
Qed.

Lemma recv_loop_ok w k cs written :
  recv_error_at w = None -> (forall i, write_ok w i = true) ->
  fst (fst (recv_loop w k cs written)) = true.
Proof.
  intros He Hw. revert k written.
  induction cs as [|c cs IH]; intros k written; simpl; rewrite He;
    cbn [fst]; [reflexivity|].
  destruct c as [|x c]; [reflexivity|]. rewrite Hw.
  specialize (IH (S k) (written ++ x :: c)).
  destruct (recv_loop w (S k) cs (written ++ x :: c)) as [[ok written'] t].
  exact IH.
Qed.

Lemma receive_file_ok w :
  listen_ok w = true -> accept_ok w = true -> out_open_ok w = true ->
  recv_error_at w = None -> (forall i, write_ok w i = true) ->
  fst (receive_file w) = (true, concat (before_close (incoming w))).
Proof.
  intros H1 H2 H3 He Hw. unfold receive_file. rewrite H1, H2, H3. cbn [negb].
  pose proof (recv_loop_ok w 0 (incoming w) [] He Hw) as Hok.
  pose proof (recv_loop_written w 0 (incoming w) []) as Hwr.
  destruct (recv_loop w 0 (incoming w) []) as [[ok written] t].
  cbn [fst snd] in *. subst ok. rewrite (Hwr eq_refl). reflexivity.
Qed.

End ReceiverProtocol.

Section ProtocolClaims.
Import IO FileTransferServer Lifecycle Samples.
Local Open Scope N_scope.

Lemma ascii_is_text s : Forall (fun c => c < 128) s -> is_text s = true.
Proof.
  intros H. unfold is_text. apply forallb_forall. intros c Hc.
  rewrite List.Forall_forall in H. specialize (H c Hc). unfold is_scalar. lia.
Qed.

(** X24.  The receiver understands what the registry serves: for a live
    entry whose checksum is well-formed text and not empty,
    [get_checksum] returns that checksum, whatever characters it is made
    of.  An entry with an empty checksum is served as [0|], which the
    receiver reads as no entry. *)
Theorem registry_answer_accepted (now : float)
    (store : ChecksumServer.ChecksumStore) (w : world) (kw key file_id : str)
    (t : float) (checksum : str) :
  store !! key = Some (t, checksum) -> float_gt now t = false ->
  is_text checksum = true ->
  (length (str_of_nat (len checksum)) <= int_max_str_digits)%nat ->
  chsum_connect_ok w = true -> chsum_sendall_ok w = true ->
  is_text file_id = true ->
  chsum_recv w = fst (ChecksumServer._handle_retrieve_command now store [kw; key]) ->
  fst (get_checksum w file_id)
  = match checksum with [] => None | _ => Some checksum end.
Proof.
  intros Hin Hlive Ht Hlen Hc Hs Hid Hr.
  destruct (is_text_encode _ Ht) as [cb Hcb].
  rewrite (handle_retrieve_live now store kw key t checksum cb Hin Hlive Hcb) in Hr.
  exact (proj1 (get_checksum_answer w file_id checksum cb Hc Hs Hid Hcb Hlen Hr)).
Qed.

Lemma registry_answer_accepted_witness :
  let store : ChecksumServer.ChecksumStore := <[lit "f1" := (t60, lit "1116")]> ∅ in
  chsum_recv receiver_valid
  = fst (ChecksumServer._handle_retrieve_command t0 store [lit "KI"; lit "f1"])
  /\ fst (get_checksum receiver_valid (lit "f1")) = Some (lit "1116").
Proof.
  intros store.
  assert (H : chsum_recv receiver_valid
              = fst (ChecksumServer._handle_retrieve_command t0 store
                       [lit "KI"; lit "f1"])) by (vm_compute; reflexivity).
  split; [exact H|].
  refine (registry_answer_accepted t0 store receiver_valid (lit "KI") (lit "f1")
            (lit "f1") t60 (lit "1116") _ _ _ _ _ _ _ H).
  - vm_compute; reflexivity.
  - vm_compute; reflexivity.
  - reflexivity.
  - vm_compute. lia.
  - reflexivity.
  - reflexivity.
  - reflexivity.
Defined.

(** X25.  The three programs together.  A sender run that succeeded on
    one file, a registry that took the sender's message and is asked by
    the receiver before the sixty seconds are over, and a receiver that
    gets on its connection what the sender sent and reads back what it
    wrote: then the registry answered the sender [OK] and
    [receive_and_validate] returns [True].  The file identifier and the
    digest are plain words (printable ASCII, no blank, no bar). *)
Theorem transfer_validates (md5 : HashAlgorithm)
    (cw : FileTransferClient.world) (rw rw' : ChecksumServer.world)
    (sw : world) (store : ChecksumServer.ChecksumStore)
    (file_id : str) (f : file) :
  let sender := FileTransferClient.transfer_file cw file_id in
  let digest := hash_hexdigest (hash_update hash_new (content f)) in
  let registered :=
    ChecksumServer._handle_client_data rw store []
      (Return (sent_on ChsumSock (snd sender))) in
  let asked :=
    ChecksumServer._handle_client_data rw' (snd registered) []
      (Return (sent_on ChsumSock (snd (get_checksum sw file_id)))) in
  fst sender = true ->
  FileTransferClient.hash_open cw = Return f ->
  FileTransferClient.send_open cw = Return f ->
  plain file_id = true -> plain digest = true -> digest <> [] ->
  (len digest < int_max_str_digits)%nat ->
  ChecksumServer.sendall_ok rw 0 = true ->
  ChecksumServer.sendall_ok rw' 0 = true ->
  float_gt (ChecksumServer.clock rw' 0)
           (float_add (ChecksumServer.clock rw 0) d60) = false ->
  listen_ok sw = true -> accept_ok sw = true -> out_open_ok sw = true ->
  recv_error_at sw = None -> (forall i, write_ok sw i = true) ->
  concat (before_close (incoming sw)) = sent_on SrvSock (snd sender) ->
  on_disk sw (content f)
  = (true, Return {| content := content f; read_error_at := None |}) ->
  chsum_connect_ok sw = true -> chsum_sendall_ok sw = true ->
  List.map Return (fst (fst asked)) = [chsum_recv sw] ->
  fst (fst registered) = [ChecksumServer.OK]
  /\ fst (receive_and_validate sw file_id) = true.
Proof.
  intros sender digest registered asked Hok Hf Hf' Hid Hdg Hne Hlen Hs Hs'
    Hlive H1 H2 H3 He Hw Hin Hdisk Hc Hsa Hasked.
  destruct (transfer_file_sent cw file_id f f Hok Hf Hf')
    as [Hsrv Hput].
  fold sender in Hsrv, Hput. fold digest in Hput.
  assert (Hmsg : sent_on ChsumSock (snd sender)
                 = FileTransferClient.store_message file_id digest).
  { rewrite encode_ascii in Hput; [congruence|].
    pose proof (store_line_ascii _ _ Hid Hdg) as Ha.
    unfold FileTransferClient.store_message.
    repeat (apply Forall_app in Ha as [? Ha]).
    repeat apply Forall_app_2; try assumption. repeat constructor. }
  assert (Hreg : registered
                 = ([ChecksumServer.OK], ChecksumServer.Open [],
                    <[file_id := (float_add (ChecksumServer.clock rw 0) d60, digest)]>
                      store)).
  { unfold registered. rewrite Hmsg. apply registry_stores_line; assumption. }
  split; [rewrite Hreg; reflexivity|].
  assert (Hask : ChecksumServer._handle_client_data rw' (snd registered) []
                   (Return (retrieve_message file_id))
                 = ([ChecksumServer.found_response (len digest) digest],
                    ChecksumServer.Open [], snd registered)).
  { apply (registry_answers_line rw' _ file_id
             (float_add (ChecksumServer.clock rw 0) d60) digest); try assumption.
    rewrite Hreg. apply lookup_insert_eq. }
  assert (Hlen' : (length (str_of_nat (len digest)) <= int_max_str_digits)%nat).
  { apply Nat.le_trans with (S (len digest)); [apply str_of_nat_length|exact Hlen]. }
  assert (Hget : chsum_recv sw
                 = Return (ChecksumServer.found_response (len digest) digest) ->
                 fst (get_checksum sw file_id) = Some digest).
  { intros Hr.
    destruct (get_checksum_answer sw file_id digest digest Hc Hsa
                (ascii_is_text _ (plain_ascii _ Hid))
                (utf8_encode_ascii _ (plain_ascii _ Hdg)) Hlen' Hr) as [Hg _].
    destruct digest; [congruence|exact Hg]. }
  assert (Hsent : sent_on ChsumSock (snd (get_checksum sw file_id))
                  = retrieve_message file_id).
  { clear - Hc Hsa Hid. unfold get_checksum. rewrite Hc, Hsa. cbn [negb].
    rewrite encode_ascii
      by (unfold retrieve_message; repeat apply Forall_app_2;
          try (apply plain_ascii; assumption); repeat constructor).
    assert (Hq : forall data, sent_on ChsumSock (snd (parse_response data)) = []).
    { intros data. unfold parse_response.
      destruct (contains 124 data); [|reflexivity]. cbn [negb].
      destruct (split1 124 data) as [|a [|b [|c l]]]; try reflexivity.
      destruct (int a) as [n|]; [|reflexivity].
      destruct (0 <? n)%Z; reflexivity. }
    destruct (chsum_recv sw) as [r|e];
      [destruct (decode r) as [data|e];
       [specialize (Hq data); destruct (parse_response data) as [c t]|]|];
      cbv beta zeta; cbn [fst snd] in *; rewrite ?sent_on_app, ?Hq;
      cbn [sent_on sock_eqb]; rewrite ?app_nil_r; reflexivity. }
  unfold asked in Hasked. rewrite Hsent, Hask in Hasked. cbn [fst List.map] in Hasked.
  injection Hasked as Hr. symmetry in Hr. pose proof (Hget Hr) as Hg.
  pose proof (receive_file_ok sw H1 H2 H3 He Hw) as Hrecv.
  rewrite Hin, Hsrv in Hrecv.
  unfold receive_and_validate.
  destruct (receive_file sw) as [[ok written] t1]. cbn [fst] in Hrecv.
  injection Hrecv as -> ->.
  destruct (get_checksum sw file_id) as [expected t2]. cbn [fst] in Hg. subst expected.
  rewrite Hdisk.
  pose proof (calculate_md5_chunked_ok (md5 := md5) CHUNK_SIZE
                {| content := content f; read_error_at := None |}) as Hmd5.
  unfold calculate_md5.
  destruct (calculate_md5_chunked CHUNK_SIZE true _) as [r t3].
  cbn [fst content] in Hmd5.
  specialize (Hmd5 (Nat.lt_0_succ _) eq_refl). subst r.
  fold digest. rewrite (bool_decide_eq_true_2 _ eq_refl). reflexivity.
Qed.

Lemma transfer_validates_witness :
  fst (FileTransferClient.transfer_file (md5 := sum_hash) sender_ok (lit "f1")) = true
  /\ fst (receive_and_validate (md5 := sum_hash) receiver_valid (lit "f1")) = true.
Proof.
  split; [reflexivity|].
  refine (proj2 (transfer_validates sum_hash sender_ok registry_world registry_world
                   receiver_valid ∅ (lit "f1") hello _ _ _ _ _ _ _ _ _ _ _ _ _ _ _
                   _ _ _ _ _)).
  all: intros; vm_compute; first [reflexivity | discriminate | lia].
Defined.

End ProtocolClaims.

Section SharedStore.
Import ChecksumServer Multiplexer Lifecycle Samples.

Lemma mux_handle_open (w : world) (srv : server) sock buffer data sent buffer' store' :
  connections srv !! sock = Some buffer -> data <> [] ->
  ChecksumServer._handle_client_data w (checksums_store srv) buffer (Return data)
  = (sent, Open buffer', store') ->
  Multiplexer._handle_client_data w srv sock (Return data)
  = (sent, with_buffer (with_store srv store') sock buffer').
Proof.
  intros Hc Hne H. unfold Multiplexer._handle_client_data.
  destruct data as [|c r]; [congruence|]. rewrite Hc, H. reflexivity.
Qed.

(** X26.  The store is one for all connections: what one client
    registers, another client is served, already in the same turn of the
    loop.  Each gets its answer on its own connection, and both
    connections stay open with empty buffers. *)
Theorem registered_on_one_served_on_other (srv : server) (a b : nat)
    (oa ob : outside) (file_id checksum : str) :
  a <> b -> a <> socket srv -> b <> socket srv ->
  connections srv !! a = Some [] -> connections srv !! b = Some [] ->
  plain file_id = true -> plain checksum = true ->
  received oa = Return (FileTransferClient.store_message file_id checksum) ->
  received ob = Return (FileTransferServer.retrieve_message file_id) ->
  sendall_ok (conn_world oa) 0 = true -> sendall_ok (conn_world ob) 0 = true ->
  float_gt (clock (conn_world ob) 0)
           (float_add (clock (conn_world oa) 0) d60) = false ->
  let out := serve srv [(a, oa); (b, ob)] in
  fst out = [(a, OK); (b, found_response (len checksum) checksum)]
  /\ connections (snd out) !! a = Some []
  /\ connections (snd out) !! b = Some []
  /\ inputs (snd out) = inputs srv.
Proof.
  intros Hab Ha Hb Hca Hcb Hid Hck Hra Hrb Hsa Hsb Hlive out. subst out.
  set (store1 := <[file_id := (float_add (clock (conn_world oa) 0) d60, checksum)]>
                   (checksums_store srv)).
  set (srv1 := with_buffer (with_store srv store1) a []).
  assert (E1 : serve_one srv a oa = ([OK], srv1)).
  { unfold serve_one. rewrite (proj2 (Nat.eqb_neq a (socket srv)) Ha), Hra.
    apply (mux_handle_open _ _ _ [] _ _ _ _ Hca); [discriminate|].
    apply registry_stores_line; assumption. }
  assert (E2 : serve_one srv1 b ob
               = ([found_response (len checksum) checksum],
                  with_buffer (with_store srv1 store1) b [])).
  { unfold serve_one. change (socket srv1) with (socket srv).
    rewrite (proj2 (Nat.eqb_neq b (socket srv)) Hb), Hrb.
    apply (mux_handle_open _ _ _ [] _ _ _ _).
    - change (connections srv1) with (<[a := []]> (connections srv)).
      rewrite lookup_insert_ne by exact Hab. exact Hcb.
    - discriminate.
    - apply (registry_answers_line (conn_world ob) _ file_id
               (float_add (clock (conn_world oa) 0) d60) checksum);
        try assumption.
      apply lookup_insert_eq. }
  unfold serve. rewrite E1, E2.
  cbn [fst snd List.map app with_buffer with_store connections inputs
       checksums_store socket srv1].
  split; [reflexivity|]. split.
  - rewrite lookup_insert_ne by (intros E; apply Hab; symmetry; exact E).
    apply lookup_insert_eq.
  - split; [apply lookup_insert_eq|reflexivity].
Qed.

Lemma registered_on_one_served_on_other_witness :
  let srv := {| checksums_store := ∅; socket := 0%nat; inputs := [0; 1; 2]%nat;
                connections := <[1%nat := []]> (<[2%nat := []]> ∅) |} in
  let oa := {| accepted := Raise IOError; conn_world := registry_world;
               received := Return (FileTransferClient.store_message (lit "f1") (lit "1116")) |} in
  let ob := {| accepted := Raise IOError; conn_world := registry_world;
               received := Return (FileTransferServer.retrieve_message (lit "f1")) |} in
  (connections srv !! 1%nat = Some [] /\ connections srv !! 2%nat = Some [])
  /\ fst (serve srv [(1%nat, oa); (2%nat, ob)])
     = [(1%nat, OK); (2%nat, found_response 4 (lit "1116"))].
Proof.
  intros srv oa ob.
  assert (H1 : connections srv !! 1%nat = Some []) by (vm_compute; reflexivity).
  assert (H2 : connections srv !! 2%nat = Some []) by (vm_compute; reflexivity).
  split; [split; assumption|].
  refine (proj1 (registered_on_one_served_on_other srv 1 2 oa ob (lit "f1") (lit "1116")
                   _ _ _ H1 H2 _ _ _ _ _ _ _)).
  all: try (vm_compute; first [reflexivity | discriminate | lia]).
Defined.

End SharedStore.

Section ReceiverOrder.
Import IO FileTransferServer Lifecycle Samples.
Context {md5 : HashAlgorithm}.
Local Open Scope N_scope.

Lemma recv_loop_quiet w k cs written :
  quiet (on_sock ChsumSock) (snd (recv_loop w k cs written)) = true
  /\ quiet is_digest (snd (recv_loop w k cs written)) = true.
Proof.
  revert k written. induction cs as [|c cs IH]; intros k written; simpl;
    destruct (bool_decide _); cbn [fst snd]; try (split; reflexivity).
  destruct c as [|x c]; cbv iota; cbn [fst snd]; [split; reflexivity|].
  destruct (write_ok w k); cbn [fst snd]; [|split; reflexivity].
  specialize (IH (S k) (written ++ x :: c)).
  destruct (recv_loop w (S k) cs (written ++ x :: c)) as [[ok written'] t].
  exact IH.
Qed.

Lemma receive_file_quiet w :
  quiet (on_sock ChsumSock) (snd (receive_file w)) = true
  /\ quiet is_digest (snd (receive_file w)) = true.
Proof.
  unfold receive_file.
  destruct (listen_ok w); cbn [negb]; [|split; reflexivity].
  destruct (accept_ok w); cbn [negb]; [|split; reflexivity].
  destruct (out_open_ok w); cbn [negb]; [|split; reflexivity].
  pose proof (recv_loop_quiet w 0 (incoming w) []) as [H1 H2].
  destruct (recv_loop w 0 (incoming w) []) as [[[|] written] t];
    cbn [fst snd] in *; rewrite !quiet_app, H1, H2; split; reflexivity.
Qed.

Lemma parse_response_quiet p data :
  (forall x, p (Print x) = false) -> quiet p (snd (parse_response data)) = true.
Proof.
  intros Hp. unfold parse_response.
  assert (H : forall x, quiet p [Print x] = true)
    by (intros x; unfold quiet; simpl; rewrite Hp; reflexivity).
  destruct (contains 124 data); cbn [negb]; [|apply H].
  destruct (split1 124 data) as [|a [|b [|c l]]]; try apply H.
  destruct (int a) as [n|]; [|apply H].
  destruct (0 <? n)%Z; [reflexivity|apply H].
Qed.

Lemma get_checksum_quiet w file_id :
  quiet (on_sock ConnSock) (snd (get_checksum w file_id)) = true
  /\ quiet (on_sock ListenSock) (snd (get_checksum w file_id)) = true
  /\ quiet is_digest (snd (get_checksum w file_id)) = true.
Proof.
  unfold get_checksum.
  destruct (chsum_connect_ok w); cbn [negb]; [|repeat split; reflexivity].
  destruct (encode _) as [msg|e]; [|repeat split; reflexivity].
  destruct (chsum_sendall_ok w); cbn [negb]; [|repeat split; reflexivity].
  destruct (chsum_recv w) as [r|e]; [|repeat split; reflexivity].
  destruct (decode r) as [data|e]; [|repeat split; reflexivity].
  pose proof (fun p => parse_response_quiet p data) as H.
  destruct (parse_response data) as [c t]. cbn [fst snd] in *.
  rewrite !quiet_app, !H by reflexivity. repeat split; reflexivity.
Qed.

End ReceiverOrder.

Section ReceiverOrderClaims.
Import IO FileTransferServer Lifecycle Samples.

(** X27.  The receiver does things in order and no more than needed.  If
    the reception fails, the registry is not contacted and nothing is
    hashed; if the registry gives no checksum, nothing is hashed; and
    once the registry has been contacted, nothing happens any more on the
    connection from the sender or on the listening socket. *)
Theorem receiver_ordering (md5 : HashAlgorithm) (w : world) (file_id : str) :
  let t := snd (receive_and_validate w file_id) in
  (fst (fst (receive_file w)) = false ->
   quiet (on_sock ChsumSock) t = true /\ quiet is_digest t = true)
  /\ (fst (get_checksum w file_id) = None -> quiet is_digest t = true)
  /\ never_after (on_sock ConnSock) (on_sock ChsumSock) t = true
  /\ never_after (on_sock ListenSock) (on_sock ChsumSock) t = true.
Proof.
  intros t. subst t. unfold receive_and_validate.
  pose proof (receive_file_quiet w) as [Ha Hb].
  destruct (receive_file w) as [[ok written] t1]; cbn [fst snd] in *.
  destruct ok.
  2:{ split; [auto|]. split; [intros _; assumption|].
      split; rewrite <- (app_nil_r t1); apply never_after_app;
        (assumption || reflexivity). }
  split; [discriminate|].
  pose proof (get_checksum_quiet w file_id) as (Hc & Hl & Hd).
  assert (Hp : forall x p, (forall y, p (Print y) = false) -> quiet p [Print x] = true)
    by (intros x p Hp; unfold quiet; simpl; rewrite Hp; reflexivity).
  destruct (get_checksum w file_id) as [[expected|] t2]; cbn [fst snd] in *.
  2:{ split; [intros _; rewrite !quiet_app, Hb, Hd; reflexivity|].
      split; apply never_after_app; try assumption;
        rewrite quiet_app; [rewrite Hc|rewrite Hl]; reflexivity. }
  split; [discriminate|].
  destruct (on_disk w written) as [found opened].
  pose proof (calculate_md5_chunked_quiet (md5 := md5) ConnSock CHUNK_SIZE found opened) as H1.
  pose proof (calculate_md5_chunked_quiet (md5 := md5) ListenSock CHUNK_SIZE found opened) as H2.
  unfold calculate_md5.
  destruct (calculate_md5_chunked CHUNK_SIZE found opened) as [[actual|e] t3];
    cbn [fst snd] in *; [destruct (bool_decide _)|];
    (split; apply never_after_app; try assumption;
     rewrite !quiet_app; [rewrite Hc, H1|rewrite Hl, H2]; reflexivity).
Qed.

Lemma receiver_ordering_witness :
  let t := snd (receive_and_validate (md5 := sum_hash) receiver_unavailable (lit "f1")) in
  fst (get_checksum receiver_unavailable (lit "f1")) = None
  /\ quiet is_digest t = true.
Proof.
  intros t.
  assert (H : fst (get_checksum receiver_unavailable (lit "f1")) = None) by reflexivity.
  split; [exact H|].
  exact (proj1 (proj2 (receiver_ordering sum_hash receiver_unavailable (lit "f1"))) H).
Defined.

End ReceiverOrderClaims.
